(** * AlphaFlow server: lead-follow causality engine (alphaflow-server.js)

    Shallow embedding of the tick pipeline [processTickerUpdate], the
    websocket message handler of [connectToCoinbase], the periodic
    broadcast flush, the REST read endpoints (prices, history, matrix,
    best-pairs, CSV export, health), and [saveData] over a modelled
    data directory.

    JavaScript numbers are modelled by [num]: a finite value is an exact
    rational (no rounding) and [NaN] is kept apart, since the code can store
    it (an unparseable price).  Infinities and the rounding of doubles are
    not modelled (so neither is an overflow to [Infinity], nor the
    [parseFloat] literal [Infinity]); [ndiv] maps a zero divisor to [NaN]
    only to stay total, every divisor on the paths below being guarded.
    Statements that depend on these are kept to the cases where they agree.
    JS objects used as maps are association lists keyed by strings, kept in
    insertion order (the order of [Object.keys] for non-index keys).  The
    names a plain object inherits from [Object.prototype] ([constructor],
    [toString], [__proto__], ...) are modelled where the code reads an
    object with a key taken from input: [marketData.prices[coin]] (with the
    prototype that an assignment to [prices.__proto__] installs) and
    [marketData.priceHistory[coin]].  Strings are sequences of JS code units
    below 256. *)

From Stdlib Require Import ZArith QArith Qround Qabs String Ascii List Bool Lia
  Permutation Sorted DecimalN.
Import ListNotations.
Close Scope Q_scope.
Open Scope string_scope.
Open Scope list_scope.
Open Scope nat_scope.

(** ** JavaScript numbers *)

Inductive num : Type :=
| Fin (q : Q)
| NaN.

Definition nadd (a b : num) : num :=
  match a, b with Fin x, Fin y => Fin (x + y) | _, _ => NaN end.
Definition nsub (a b : num) : num :=
  match a, b with Fin x, Fin y => Fin (x - y) | _, _ => NaN end.
Definition nmul (a b : num) : num :=
  match a, b with Fin x, Fin y => Fin (x * y) | _, _ => NaN end.
Definition ndiv (a b : num) : num :=
  match a, b with
  | Fin x, Fin y => if Qeq_bool y 0 then NaN else Fin (x / y)
  | _, _ => NaN
  end.
Definition nabs (a : num) : num :=
  match a with Fin x => Fin (Qabs x) | NaN => NaN end.

(** Comparisons: every comparison with [NaN] is false. *)
Definition nlt (a b : num) : bool :=
  match a, b with Fin x, Fin y => negb (Qle_bool y x) | _, _ => false end.
Definition ngt (a b : num) : bool := nlt b a.
Definition nge (a b : num) : bool :=
  match a, b with Fin x, Fin y => Qle_bool y x | _, _ => false end.

(** Truthiness and [a || b]: [0], [-0] and [NaN] are falsy. *)
Definition truthy (a : num) : bool :=
  match a with Fin x => negb (Qeq_bool x 0) | NaN => false end.
Definition nor (a b : num) : num := if truthy a then a else b.

Definition nat_num (n : nat) : num := Fin (inject_Z (Z.of_nat n)).
Definition Z_num (z : Z) : num := Fin (inject_Z z).

(** ** Configuration *)

Definition COINS : list string :=
  [ "BTC-USD"; "ETH-USD"; "SOL-USD"; "MATIC-USD"; "AVAX-USD";
    "LINK-USD"; "DOT-USD"; "ATOM-USD"; "DOGE-USD"; "SHIB-USD";
    "UNI-USD"; "AAVE-USD"; "CRV-USD"; "SUSHI-USD"; "MANA-USD";
    "SAND-USD"; "AXS-USD"; "ENJ-USD"; "GRT-USD"; "ALGO-USD";
    "LTC-USD"; "1INCH-USD"; "BAT-USD"; "COMP-USD" ].

Definition MOVE_THRESHOLD : num := Fin 2.
Definition LAG_WINDOW : Z := 300000.
Definition FOLLOW_THRESHOLD : num := Fin (5 # 1000).
Definition HISTORY_CAP : nat := 1000.

(** ** [parseFloat] and [parseInt] on strings

    Both skip leading white space and read an optional sign.  [parseFloat]
    reads decimal digits with an optional fraction and an optional exponent
    and yields [NaN] when no digit is read; the literal [Infinity] is not
    modelled ([parse_fails] below singles out the inputs on which JS
    yields [NaN] whatever the model does with [Infinity]).  [parseInt] (radix 10, or 16 after a [0x] prefix) yields
    [None] for [NaN]. *)

(** JS white space and line terminators below code unit 256: TAB, LF, VT,
    FF, CR, SPACE and NBSP. *)
Definition is_ws (c : ascii) : bool :=
  match nat_of_ascii c with 9 | 10 | 11 | 12 | 13 | 32 | 160 => true | _ => false end.

Fixpoint skip_ws (s : string) : string :=
  match s with
  | String c r => if is_ws c then skip_ws r else s
  | EmptyString => s
  end.

Definition digit_val (c : ascii) : option Z :=
  let n := nat_of_ascii c in
  if (Nat.leb 48 n && Nat.leb n 57) then Some (Z.of_nat (n - 48)) else None.

Definition hex_val (c : ascii) : option Z :=
  let n := nat_of_ascii c in
  if (Nat.leb 48 n && Nat.leb n 57) then Some (Z.of_nat (n - 48))
  else if (Nat.leb 97 n && Nat.leb n 102) then Some (Z.of_nat (n - 87))
  else if (Nat.leb 65 n && Nat.leb n 70) then Some (Z.of_nat (n - 55))
  else None.

(** Reads the longest run of digits: (value, number of digits, rest). *)
Fixpoint read_digits (dv : ascii -> option Z) (base : Z) (s : string)
  (acc : Z) (n : nat) : Z * nat * string :=
  match s with
  | String c r =>
      match dv c with
      | Some d => read_digits dv base r (acc * base + d) (S n)
      | None => (acc, n, s)
      end
  | EmptyString => (acc, n, s)
  end.

Definition read_sign (s : string) : Z * string :=
  match s with
  | String "-" r => (-1, r)%Z
  | String "+" r => (1, r)%Z
  | _ => (1%Z, s)
  end.

Definition read_exponent (s : string) : Z :=
  match s with
  | String c r =>
      if (c =? "e")%char || (c =? "E")%char then
        let '(sg, r') := read_sign r in
        match read_digits digit_val 10 r' 0 0 with
        | (e, S _, _) => (sg * e)%Z
        | _ => 0%Z
        end
      else 0%Z
  | EmptyString => 0%Z
  end.

Definition parseFloat (s : string) : num :=
  let '(sg, r) := read_sign (skip_ws s) in
  let '(ip, n1, r1) := read_digits digit_val 10 r 0 0 in
  let '(fp, n2, r2) :=
    match r1 with
    | String "." r' => read_digits digit_val 10 r' 0 0
    | _ => (0%Z, 0, r1)
    end in
  match n1 + n2 with
  | 0 => NaN
  | _ =>
      let mant := (inject_Z (sg * (ip * 10 ^ Z.of_nat n2 + fp))
                   / inject_Z (10 ^ Z.of_nat n2))%Q in
      Fin (mant * Qpower (inject_Z 10) (read_exponent r2))
  end.

Definition parseInt (s : string) : option Z :=
  let '(sg, r) := read_sign (skip_ws s) in
  let '(dv, base, r') :=
    match r with
    | String "0" (String x r') =>
        if (x =? "x")%char || (x =? "X")%char then (hex_val, 16%Z, r')
        else (digit_val, 10%Z, r)
    | _ => (digit_val, 10%Z, r)
    end in
  match read_digits dv base r' 0 0 with
  | (_, 0, _) => None
  | (v, _, _) => Some (sg * v)%Z
  end.

(** [parseFloat] yields [NaN] in JS exactly when, after white space and an
    optional sign, the string starts neither with a digit, nor with a dot
    followed by a digit, nor with [Infinity]. *)
Definition starts_with_digit (s : string) : bool :=
  match s with
  | String c _ => match digit_val c with Some _ => true | None => false end
  | EmptyString => false
  end.

Definition prefix_of (p s : string) : bool := String.prefix p s.

Definition parse_fails (s : string) : bool :=
  let r := snd (read_sign (skip_ws s)) in
  negb (starts_with_digit r
        || match r with String "." r' => starts_with_digit r' | _ => false end
        || prefix_of "Infinity" r).

(** [parseFloat(undefined)] is [NaN]. *)
Definition parseFloat_field (f : option string) : num :=
  match f with Some s => parseFloat s | None => NaN end.

(** ** Maps as association lists in insertion order *)

Section Assoc.
Context {V : Type}.

Fixpoint lookup (k : string) (l : list (string * V)) : option V :=
  match l with
  | [] => None
  | (k', v) :: r => if String.eqb k k' then Some v else lookup k r
  end.

(** [obj[k] = v]: overwrite in place, or add the key at the end. *)
Fixpoint assign (k : string) (v : V) (l : list (string * V)) : list (string * V) :=
  match l with
  | [] => [(k, v)]
  | (k', v') :: r => if String.eqb k k' then (k, v) :: r else (k', v') :: assign k v r
  end.

End Assoc.

(** ** Data model *)

Record priceState : Type := mkPriceState {
  price : num;
  change : num;
  changePercent : num;
  lastUpdate : Z }.

Record response : Type := mkResponse {
  r_lagTime : Z;
  r_changePercent : num;
  r_magnitudeRatio : num }.

Record leaderEvent : Type := mkLeaderEvent {
  le_timestamp : Z;
  le_leader : string;
  le_price : num;
  le_changePercent : num;
  le_direction : string;
  le_followersResponded : list (string * response) }.

Record relation : Type := mkRelation {
  lagTimes : list Z;
  magnitudeRatios : list num;
  successfulFollows : nat;
  missedFollows : nat;
  avgLag : num;
  avgMagnitude : num;
  followRate : num }.

Record statistics : Type := mkStatistics {
  totalTicks : nat;
  divergenceEvents : nat;
  startTime : Z }.

(** [pricesProto] is the prototype of the [prices] object: [None] for
    [Object.prototype], [Some ps] once [prices.__proto__ = ps] has run. *)
Record marketData : Type := mkMarketData {
  prices : list (string * priceState);
  pricesProto : option priceState;
  priceHistory : list (string * list num);
  leaderEvents : list leaderEvent;
  causalityMatrix : list (string * list (string * relation));
  stats : statistics }.

(** The module-level mutable state: [marketData] and [pendingUpdates]. *)
Record server : Type := mkServer {
  md : marketData;
  pendingUpdates : list (string * priceState) }.

Definition set_prices p d :=
  mkMarketData p (pricesProto d) (priceHistory d) (leaderEvents d) (causalityMatrix d) (stats d).
Definition set_pricesProto pp d :=
  mkMarketData (prices d) pp (priceHistory d) (leaderEvents d) (causalityMatrix d) (stats d).
Definition set_priceHistory h d :=
  mkMarketData (prices d) (pricesProto d) h (leaderEvents d) (causalityMatrix d) (stats d).
Definition set_leaderEvents e d :=
  mkMarketData (prices d) (pricesProto d) (priceHistory d) e (causalityMatrix d) (stats d).
Definition set_causalityMatrix m d :=
  mkMarketData (prices d) (pricesProto d) (priceHistory d) (leaderEvents d) m (stats d).
Definition set_stats st d :=
  mkMarketData (prices d) (pricesProto d) (priceHistory d) (leaderEvents d) (causalityMatrix d) st.

(** ** Keys inherited by a plain object *)

Definition OBJECT_PROTO_KEYS : list string :=
  [ "constructor"; "__defineGetter__"; "__defineSetter__"; "hasOwnProperty";
    "__lookupGetter__"; "__lookupSetter__"; "isPrototypeOf";
    "propertyIsEnumerable"; "toString"; "valueOf"; "__proto__"; "toLocaleString" ].

(** The own keys of a [priceState] object. *)
Definition PRICE_STATE_KEYS : list string :=
  [ "price"; "change"; "changePercent"; "lastUpdate" ].

(** [marketData.prices[coin].price]: [Some (Some v)] when the entry has a
    [price] property [v], [Some None] when the entry is a defined value
    without one (an inherited function, [Object.prototype], or a number of
    an installed prototype), [None] when the entry is [undefined] (the
    property access throws). *)
Definition price_field (coin : string) (d : marketData) : option (option num) :=
  if String.eqb coin "__proto__" then Some (option_map price (pricesProto d))
  else match lookup coin (prices d) with
  | Some ps => Some (Some (price ps))
  | None =>
      if existsb (String.eqb coin) OBJECT_PROTO_KEYS then Some None
      else match pricesProto d with
           | Some _ => if existsb (String.eqb coin) PRICE_STATE_KEYS then Some None else None
           | None => None
           end
  end.

(** [marketData.prices[coin] = ps]: the [__proto__] setter replaces the
    prototype; any other key is an own property. *)
Definition set_price_entry (coin : string) (ps : priceState) (d : marketData) : marketData :=
  if String.eqb coin "__proto__" then set_pricesProto (Some ps) d
  else set_prices (assign coin ps (prices d)) d.

(** ** Initial state: [initializeData] *)

Definition empty_relation : relation :=
  mkRelation [] [] 0 0 (Fin 0) (Fin 0) (Fin 0).

Definition init_row (coin : string) : list (string * relation) :=
  fold_left (fun row follower =>
               if String.eqb coin follower then row
               else assign follower empty_relation row) COINS [].

Definition initializeData (d : marketData) : marketData :=
  fold_left (fun d coin =>
    let d := set_prices (assign coin (mkPriceState (Fin 0) (Fin 0) (Fin 0) 0) (prices d)) d in
    let d := set_priceHistory (assign coin [] (priceHistory d)) d in
    set_causalityMatrix (assign coin (init_row coin) (causalityMatrix d)) d) COINS d.

Definition init_server (now : Z) : server :=
  mkServer (initializeData (mkMarketData [] None [] [] [] (mkStatistics 0 0 now))) [].

(** ** A state and exception monad

    [None] is a thrown [TypeError]; the state carries every mutation made
    before the throw, since nothing is rolled back in JavaScript. *)

Definition M (A : Type) : Type := server -> option A * server.

Definition ret {A} (a : A) : M A := fun s => (Some a, s).
Definition bind {A B} (m : M A) (k : A -> M B) : M B :=
  fun s => match m s with
           | (Some a, s') => k a s'
           | (None, s') => (None, s')
           end.
Definition throw {A} : M A := fun s => (None, s).
Definition gets {A} (f : marketData -> A) : M A := fun s => (Some (f (md s)), s).
Definition modify (f : marketData -> marketData) : M unit :=
  fun s => (Some tt, mkServer (f (md s)) (pendingUpdates s)).
Definition modify_pending (f : list (string * priceState) -> list (string * priceState)) : M unit :=
  fun s => (Some tt, mkServer (md s) (f (pendingUpdates s))).
(** Property access on [undefined] throws. *)
Definition get_or_throw {A} (o : option A) : M A :=
  match o with Some a => ret a | None => throw end.

Notation "x <- m ;; k" := (bind m (fun x => k))
  (at level 61, m at next level, right associativity).
Notation "m ;; k" := (bind m (fun _ => k))
  (at level 61, right associativity).

(** ** [processTickerUpdate] *)

Record ticker : Type := mkTicker {
  t_type : option string;
  product_id : option string;
  t_price : option string }.

(** [ticker.product_id], used as a property key: [undefined] becomes the
    key ["undefined"]. *)
Definition coin_key (t : ticker) : string :=
  match product_id t with Some c => c | None => "undefined" end.

(** Lines 171-173: previous price with [|| price] fallback, change and
    change percent guarded by [oldPrice > 0].  [oldField] is the value of
    [marketData.prices[coin].price], [None] for [undefined] (falsy). *)
Definition compute_change (oldField : option num) (p : num) : num * num :=
  let oldPrice := match oldField with Some v => nor v p | None => p end in
  let priceChange := nsub p oldPrice in
  let cp := if ngt oldPrice (Fin 0)
            then nmul (ndiv priceChange oldPrice) (Fin 100) else Fin 0 in
  (priceChange, cp).

(** Lines 183-186: [push], then one [shift] when the length exceeds 1000. *)
Definition cap_history (h : list num) : list num :=
  if HISTORY_CAP <? length h then tl h else h.

(** In-place update of the [i]-th array element (no effect out of range). *)
Fixpoint update_nth {A} (f : A -> A) (i : nat) (l : list A) : list A :=
  match l, i with
  | [], _ => []
  | x :: r, 0 => f x :: r
  | x :: r, S j => x :: update_nth f j r
  end.

(** [arr.reduce((a, b) => a + b, 0)] *)
Definition sumZ (l : list Z) : Z := fold_left Z.add l 0%Z.
Definition sum_num (l : list num) : num := fold_left nadd l (Fin 0).

(** Lines 224-232. *)
Definition record_success (lagTime : Z) (mr : num) (rel : relation) : relation :=
  let lt := lagTimes rel ++ [lagTime] in
  let mrs := magnitudeRatios rel ++ [mr] in
  let sf := S (successfulFollows rel) in
  mkRelation lt mrs sf (missedFollows rel)
    (ndiv (Z_num (sumZ lt)) (nat_num (length lt)))
    (ndiv (sum_num mrs) (nat_num (length mrs)))
    (ndiv (nat_num sf) (nat_num (sf + missedFollows rel))).

(** Line 240: only the miss count changes. *)
Definition record_miss (rel : relation) : relation :=
  mkRelation (lagTimes rel) (magnitudeRatios rel) (successfulFollows rel)
    (S (missedFollows rel)) (avgLag rel) (avgMagnitude rel) (followRate rel).

Definition incr_divergence (st : statistics) : statistics :=
  mkStatistics (totalTicks st) (S (divergenceEvents st)) (startTime st).
Definition incr_ticks (st : statistics) : statistics :=
  mkStatistics (S (totalTicks st)) (divergenceEvents st) (startTime st).

Definition respond (coin : string) (r : response) (e : leaderEvent) : leaderEvent :=
  mkLeaderEvent (le_timestamp e) (le_leader e) (le_price e) (le_changePercent e)
    (le_direction e) (assign coin r (le_followersResponded e)).

(** [marketData.causalityMatrix[leader][coin]], throwing on a missing row
    or a missing relation (the next property access is on [undefined]). *)
Definition get_relation (leader coin : string) : M relation :=
  row <- gets (fun d => lookup leader (causalityMatrix d)) ;;
  row <- get_or_throw row ;;
  get_or_throw (lookup coin row).

Definition set_relation (leader coin : string) (rel : relation) (d : marketData)
  : marketData :=
  match lookup leader (causalityMatrix d) with
  | Some row => set_causalityMatrix (assign leader (assign coin rel row) (causalityMatrix d)) d
  | None => d
  end.

(** The [forEach] callback of lines 212-245, for the event at index [i]. *)
Definition follow_one (coin : string) (cp : num) (timestamp : Z) (i : nat)
  (e : leaderEvent) : M unit :=
  if negb (String.eqb (le_leader e) coin) then
    let lagTime := (timestamp - le_timestamp e)%Z in
    if (lagTime <? LAG_WINDOW)%Z && nge (nabs cp) FOLLOW_THRESHOLD then
      let sameDirection :=
        (ngt cp (Fin 0) && ngt (le_changePercent e) (Fin 0)) ||
        (nlt cp (Fin 0) && nlt (le_changePercent e) (Fin 0)) in
      if sameDirection then
        let magnitudeRatio := nabs (ndiv cp (le_changePercent e)) in
        rel <- get_relation (le_leader e) coin ;;
        modify (set_relation (le_leader e) coin (record_success lagTime magnitudeRatio rel)) ;;
        modify (fun d => set_leaderEvents
          (update_nth (respond coin (mkResponse lagTime cp magnitudeRatio)) i (leaderEvents d)) d)
      else
        rel <- get_relation (le_leader e) coin ;;
        modify (set_relation (le_leader e) coin (record_miss rel)) ;;
        modify (fun d => set_stats (incr_divergence (stats d)) d)
    else ret tt
  else ret tt.

Fixpoint forEach_follow (coin : string) (cp : num) (timestamp : Z) (i : nat)
  (evs : list leaderEvent) : M unit :=
  match evs with
  | [] => ret tt
  | e :: r => follow_one coin cp timestamp i e ;; forEach_follow coin cp timestamp (S i) r
  end.

Definition new_leader_event (coin : string) (p cp : num) (timestamp : Z) : leaderEvent :=
  mkLeaderEvent timestamp coin p cp (if ngt cp (Fin 0) then "pump" else "dump") [].

Definition not_expired (timestamp : Z) (e : leaderEvent) : bool :=
  (timestamp - le_timestamp e <? LAG_WINDOW)%Z.

(** Lines 191-209: register a leader event, then prune. *)
Definition detect_leader (coin : string) (p cp : num) (timestamp : Z) : M unit :=
  if nge (nabs cp) MOVE_THRESHOLD then
    modify (fun d => set_leaderEvents (leaderEvents d ++ [new_leader_event coin p cp timestamp]) d) ;;
    modify (fun d => set_leaderEvents (filter (not_expired timestamp) (leaderEvents d)) d)
  else ret tt.

Definition processTickerUpdate (t : ticker) (timestamp : Z) : M unit :=
  let coin := coin_key t in
  let p := parseFloat_field (t_price t) in
  old <- gets (price_field coin) ;;
  old <- get_or_throw old ;;
  let '(priceChange, cp) := compute_change old p in
  let ps := mkPriceState p priceChange cp timestamp in
  modify (set_price_entry coin ps) ;;
  h <- gets (fun d => lookup coin (priceHistory d)) ;;
  h <- get_or_throw h ;;
  modify (fun d => set_priceHistory (assign coin (cap_history (h ++ [p])) (priceHistory d)) d) ;;
  detect_leader coin p cp timestamp ;;
  evs <- gets leaderEvents ;;
  forEach_follow coin cp timestamp 0 evs ;;
  modify (fun d => set_stats (incr_ticks (stats d)) d) ;;
  modify_pending (assign coin ps).

(** ** The message handler and the broadcast timer

    [BadJson] is a message that [JSON.parse] rejects, or whose value is not
    an object ([null.type] throws; other primitives have no [type]).  Field
    values of a ticker object are modelled as strings, as the feed sends. *)

Inductive wsMessage : Type :=
| BadJson
| JsonObject (t : ticker).

Definition onMessage (m : wsMessage) (now : Z) (s : server) : server :=
  match m with
  | BadJson => s
  | JsonObject t =>
      match t_type t with
      | Some ty => if String.eqb ty "ticker" then snd (processTickerUpdate t now s) else s
      | None => s
      end
  end.

(** The 500 ms timer: broadcast, then [pendingUpdates = {}]. *)
Definition flushPending (s : server) : server :=
  match pendingUpdates s with
  | [] => s
  | _ => mkServer (md s) []
  end.

Inductive event : Type :=
| Message (m : wsMessage) (now : Z)
| Broadcast.

Definition step (s : server) (ev : event) : server :=
  match ev with
  | Message m now => onMessage m now s
  | Broadcast => flushPending s
  end.

Definition run (evs : list event) (s : server) : server := fold_left step evs s.

Definition tick (coin price : string) (now : Z) : event :=
  Message (JsonObject (mkTicker (Some "ticker") (Some coin) (Some price))) now.

Definition rel_of (s : server) (leader follower : string) : option relation :=
  match lookup leader (causalityMatrix (md s)) with
  | Some row => lookup follower row
  | None => None
  end.

(** ** Number formatting: template-literal numbers and [toFixed] *)

Fixpoint uint_to_string (u : Decimal.uint) : string :=
  match u with
  | Decimal.Nil => ""
  | Decimal.D0 r => String "0" (uint_to_string r)
  | Decimal.D1 r => String "1" (uint_to_string r)
  | Decimal.D2 r => String "2" (uint_to_string r)
  | Decimal.D3 r => String "3" (uint_to_string r)
  | Decimal.D4 r => String "4" (uint_to_string r)
  | Decimal.D5 r => String "5" (uint_to_string r)
  | Decimal.D6 r => String "6" (uint_to_string r)
  | Decimal.D7 r => String "7" (uint_to_string r)
  | Decimal.D8 r => String "8" (uint_to_string r)
  | Decimal.D9 r => String "9" (uint_to_string r)
  end.

Definition N_to_string (n : N) : string := uint_to_string (N.to_uint n).
Definition nat_to_string (n : nat) : string := N_to_string (N.of_nat n).

Fixpoint zeros (n : nat) : string :=
  match n with 0 => "" | S k => String "0" (zeros k) end.

(** [Number.prototype.toFixed(f)] on the exact value: [n] is the integer
    closest to [|x| * 10^f], the larger one on a tie; the sign is written
    when [x < 0] (values of magnitude [>= 1e21] are not modelled). *)
Definition toFixed (f : nat) (x : num) : string :=
  match x with
  | NaN => "NaN"
  | Fin q =>
      let sgn := if Qle_bool 0 q then "" else "-" in
      let n := Qfloor (Qabs q * inject_Z (10 ^ Z.of_nat f) + (1 # 2)) in
      let m := N_to_string (Z.to_N n) in
      let m := if f =? 0 then m
               else if String.length m <=? f then String.append (zeros (S f - String.length m)) m
               else m in
      let k := String.length m in
      let body := if f =? 0 then m
                  else String.append (substring 0 (k - f) m)
                         (String "." (substring (k - f) f m)) in
      String.append sgn body
  end.

(** ** Read endpoints *)

Record pricesResponse : Type := mkPricesResponse {
  pr_success : bool;
  pr_timestamp : Z;
  pr_prices : list (string * priceState);
  pr_statistics : statistics }.

Record snapEntry : Type := mkSnapEntry {
  sn_followRate : num;
  sn_avgLag : num;
  sn_avgMagnitude : num;
  sn_sampleSize : nat }.

Record pairEntry : Type := mkPairEntry {
  bp_leader : string;
  bp_follower : string;
  bp_followRate : num;
  bp_avgLag : num;
  bp_avgMagnitude : num;
  bp_sampleSize : nat;
  bp_successfulFollows : nat;
  bp_missedFollows : nat }.

Record bestPairsResponse : Type := mkBestPairsResponse {
  bpr_pairs : list pairEntry;
  totalPairsAnalyzed : nat }.

(** GET /api/market/prices *)
Definition market_prices (now : Z) (d : marketData) : pricesResponse :=
  mkPricesResponse true now (prices d) (stats d).

(** GET /api/market/history/:coin.  An own entry is an array (truthy):
    [slice(-100)].  An inherited entry is truthy but has no [slice]: the
    call throws and Express answers 500.  Otherwise 404. *)
Inductive histResult : Type :=
| HistFound (h : list num)
| HistMissing
| HistThrows.

Definition market_history (coin : string) (d : marketData) : histResult :=
  match lookup coin (priceHistory d) with
  | Some h => HistFound (skipn (List.length h - 100) h)
  | None => if existsb (String.eqb coin) OBJECT_PROTO_KEYS then HistThrows else HistMissing
  end.

(** GET /api/causality/matrix *)
Definition causality_matrix (d : marketData)
  : list (string * list (string * snapEntry)) * list leaderEvent :=
  (map (fun '(leader, row) =>
          (leader,
           fold_left (fun acc '(follower, rel) =>
                        if 0 <? successfulFollows rel then
                          assign follower (mkSnapEntry (followRate rel) (avgLag rel)
                                             (avgMagnitude rel) (List.length (lagTimes rel))) acc
                        else acc) row []))
       (causalityMatrix d),
   leaderEvents d).

(** [parseInt(req.query.minSamples) || 10]: [NaN] and [0] fall back to 10. *)
Definition minSampleSize (q : option string) : Z :=
  match match q with Some s => parseInt s | None => None end with
  | Some v => if (v =? 0)%Z then 10%Z else v
  | None => 10%Z
  end.

Definition pair_entry (leader follower : string) (rel : relation) : pairEntry :=
  mkPairEntry leader follower (followRate rel) (avgLag rel) (avgMagnitude rel)
    (List.length (lagTimes rel)) (successfulFollows rel) (missedFollows rel).

(** The nested [forEach] loops of lines 407-425, pushing onto [pairs]. *)
Definition collect_pairs (ms : Z) (d : marketData) : list pairEntry :=
  fold_left (fun pairs '(leader, row) =>
    fold_left (fun pairs '(follower, rel) =>
      let totalEvents := successfulFollows rel + missedFollows rel in
      if (ms <=? Z.of_nat totalEvents)%Z && ngt (followRate rel) (Fin (6 # 10)) then
        pairs ++ [pair_entry leader follower rel]
      else pairs) row pairs) (causalityMatrix d) [].

(** [Array.prototype.sort] is stable (TimSort in V8): modelled by a stable
    insertion sort; [x] goes before [y] only when [cmp x y < 0]. *)
Fixpoint insert_by {A} (cmp : A -> A -> num) (x : A) (l : list A) : list A :=
  match l with
  | [] => [x]
  | y :: r => if nlt (cmp x y) (Fin 0) then x :: l else y :: insert_by cmp x r
  end.

Definition sort_by {A} (cmp : A -> A -> num) (l : list A) : list A :=
  fold_left (fun acc x => insert_by cmp x acc) l [].

(** [(a, b) => b.followRate - a.followRate] *)
Definition by_followRate_desc (a b : pairEntry) : num :=
  nsub (bp_followRate b) (bp_followRate a).

(** GET /api/causality/best-pairs *)
Definition best_pairs (minSamples : option string) (d : marketData) : bestPairsResponse :=
  let pairs := collect_pairs (minSampleSize minSamples) d in
  let pairs := sort_by by_followRate_desc pairs in
  mkBestPairsResponse (firstn 20 pairs) (List.length pairs).

Definition nl : string := String (ascii_of_nat 10) "".

Definition csv_header : string :=
  String.append
    "Leader,Follower,Successful_Follows,Missed_Follows,Follow_Rate,Avg_Lag_MS,Avg_Magnitude_Ratio,Sample_Size"
    nl.

Definition csv_row (leader follower : string) (rel : relation) : string :=
  fold_right String.append nl
    [leader; ","; follower; ","; nat_to_string (successfulFollows rel); ",";
     nat_to_string (missedFollows rel); ","; toFixed 3 (followRate rel); ",";
     toFixed 0 (avgLag rel); ","; toFixed 3 (avgMagnitude rel); ",";
     nat_to_string (List.length (lagTimes rel))].

(** GET /api/export/csv *)
Definition export_csv (d : marketData) : string :=
  fold_left (fun csv '(leader, row) =>
    fold_left (fun csv '(follower, rel) =>
      if 0 <? successfulFollows rel + missedFollows rel
      then String.append csv (csv_row leader follower rel) else csv) row csv)
    (causalityMatrix d) csv_header.

Inductive query : Type :=
| QPrices
| QHistory (coin : string)
| QMatrix
| QBestPairs (minSamples : option string)
| QCsv.

Inductive reply : Type :=
| RPrices (r : pricesResponse)
| RHistory (coin : string) (h : list num)
| RNotFound
| RServerError
| RMatrix (m : list (string * list (string * snapEntry))) (evs : list leaderEvent)
| RBestPairs (r : bestPairsResponse)
| RCsv (csv : string).

(** A request handled at clock [now]. *)
Definition serve (q : query) (now : Z) : M reply :=
  match q with
  | QPrices => gets (fun d => RPrices (market_prices now d))
  | QHistory coin =>
      gets (fun d => match market_history coin d with
                     | HistFound h => RHistory coin h
                     | HistMissing => RNotFound
                     | HistThrows => RServerError
                     end)
  | QMatrix => gets (fun d => let '(m, evs) := causality_matrix d in RMatrix m evs)
  | QBestPairs ms => gets (fun d => RBestPairs (best_pairs ms d))
  | QCsv => gets (fun d => RCsv (export_csv d))
  end.

(** ** Frontend websocket messages *)

Record initialState : Type := mkInitialState {
  is_prices : list (string * priceState);
  is_leaderEvents : list leaderEvent;
  is_statistics : statistics;
  is_coinConfig : list string }.

(** The [initial_state] message sent to a new client (lines 262-268). *)
Definition initial_state (d : marketData) : initialState :=
  mkInitialState (prices d) (leaderEvents d) (stats d) COINS.

Record batchUpdate : Type := mkBatchUpdate {
  bu_updates : list (string * priceState);
  bu_timestamp : Z;
  bu_leaderEvents : nat }.

(** The message the 500 ms timer broadcasts (lines 343-350): none when no
    update is pending ([Object.keys(pendingUpdates).length] is 0). *)
Definition batch_update (now : Z) (s : server) : option batchUpdate :=
  match pendingUpdates s with
  | [] => None
  | u => Some (mkBatchUpdate u now (List.length (leaderEvents (md s))))
  end.

(** ** GET /api/health

    The client set and the feed socket are not part of [server]: their
    size and state are arguments.  [coinbaseWS && coinbaseWS.readyState ===
    WebSocket.OPEN] is [null] (here [None]) before the first connection. *)
Record health : Type := mkHealth {
  h_status : string;
  h_uptime : Z;
  h_coinsTracked : nat;
  h_totalTicks : nat;
  h_leaderEvents : nat;
  h_connectedClients : nat;
  h_coinbaseConnected : option bool }.

Definition api_health (now : Z) (clients : nat) (coinbaseOpen : option bool)
  (d : marketData) : health :=
  mkHealth "running" (now - startTime (stats d)) (List.length COINS)
    (totalTicks (stats d)) (List.length (leaderEvents d)) clients coinbaseOpen.

(** ** Persistence: [saveData]

    The data directory is a listing of regular files by name, or [None]
    when it does not exist.  A saved file holds the serialised
    [{marketData, timestamp}] object, kept here as the values themselves.
    The clock is read at line 295 ([ts]), line 298 ([tn]) and line 316
    ([tc]); [tw] is the time of the write, which becomes the file's
    [mtimeMs] ([renameSync] keeps it). *)

Inductive fileBody : Type :=
| Snapshot (d : marketData) (ts : Z)
| OtherContent.

Record fileEntry : Type := mkFile {
  mtimeMs : Z;
  body : fileBody }.

Definition directory : Type := option (list (string * fileEntry)).

(** [fs.unlinkSync] of an entry, and the entry removed by a rename. *)
Fixpoint remove_key {V : Type} (k : string) (l : list (string * V)) : list (string * V) :=
  match l with
  | [] => []
  | (k', v) :: r => if String.eqb k k' then remove_key k r else (k', v) :: remove_key k r
  end.

(** [fs.renameSync(src, dst)]: replaces [dst] if it exists; throws
    ([None]) when [src] is missing. *)
Definition rename (src dst : string) (fs : list (string * fileEntry))
  : option (list (string * fileEntry)) :=
  match lookup src fs with
  | Some f => Some (assign dst f (remove_key src fs))
  | None => None
  end.

(** [String.prototype.endsWith] *)
Definition ends_with (suf s : string) : bool :=
  let n := String.length s in
  let k := String.length suf in
  (k <=? n) && String.eqb (substring (n - k) k s) suf.

Definition DAY_MS : Z := 24 * 60 * 60 * 1000.

(** A safe integer in a template literal. *)
Definition Z_to_string (z : Z) : string :=
  match z with
  | Z0 => "0"
  | Zpos p => N_to_string (Npos p)
  | Zneg p => String "-" (N_to_string (Npos p))
  end.

(** Lines 314-326, once the directory exists: every listed [.json] file
    whose [mtimeMs] is more than 24 hours before [now] is unlinked;
    [statSync] of a file no longer present throws ([None]). *)
Definition cleanup (now : Z) (files : list (string * fileEntry))
  : option (list (string * fileEntry)) :=
  fold_left (fun acc file =>
    match acc with
    | None => None
    | Some fs =>
        if negb (ends_with ".json" file) then Some fs
        else match lookup file fs with
             | Some st => if (DAY_MS <? now - mtimeMs st)%Z then Some (remove_key file fs)
                          else Some fs
             | None => None
             end
    end) (map fst files) (Some files).

Definition save_filename (tn : Z) : string :=
  String.append "cryptosoup_data_" (String.append (Z_to_string tn) ".json").

Definition tmp_filename (tn : Z) : string := String.append (save_filename tn) ".tmp".

(** [saveData(skipCleanup)] (lines 292-327).  The outer [None] is an
    exception thrown out of [saveData]; a failed write or rename is
    caught (line 307) and keeps what was done before it. *)
Definition saveData (skipCleanup : bool) (d : marketData) (ts tn tw tc : Z)
  (dr : directory) : option directory :=
  let filename := save_filename tn in
  let tempFilePath := tmp_filename tn in
  let dr :=
    match dr with
    | None => None
    | Some fs =>
        let fs1 := assign tempFilePath (mkFile tw (Snapshot d ts)) fs in
        match rename tempFilePath filename fs1 with
        | Some fs2 => Some fs2
        | None => Some fs1
        end
    end in
  if skipCleanup then Some dr
  else match dr with
       | None => Some None
       | Some fs => option_map Some (cleanup tc fs)
       end.

(** ** Concrete runs *)

Definition run_from_start (evs : list event) : server := run evs (init_server 0).

(** A success of ETH after a BTC pump, then a miss of ETH. *)
Definition run_success_then_miss : server :=
  run_from_start [tick "ETH-USD" "100" 0; tick "BTC-USD" "100" 0;
                  tick "BTC-USD" "103" 1000; tick "ETH-USD" "101" 2000;
                  tick "ETH-USD" "100" 3000].

(** A BTC pump at t = 0, then a non-leader ETH tick at t = 300000. *)
Definition run_stale_event : server :=
  run_from_start [tick "BTC-USD" "100" 0; tick "BTC-USD" "103" 0;
                  tick "ETH-USD" "100" 300000].

(** A ticker for a configured coin whose price does not parse. *)
Definition run_bad_price : server :=
  run_from_start [tick "ETH-USD" "abc" 0].

(** A BTC pump and a BTC dump both live, then an ETH rise. *)
Definition run_before_eth_rise : server :=
  run_from_start [tick "BTC-USD" "100" 0; tick "ETH-USD" "100" 0;
                  tick "BTC-USD" "103" 1000; tick "BTC-USD" "99.91" 2000].
Definition run_after_eth_rise : server :=
  run [tick "ETH-USD" "101" 3000] run_before_eth_rise.

(** ** Definitions used by the proofs *)

(** [m] keeps the property [P] of the market data, also when it throws. *)
Definition preserves (P : marketData -> Prop) {A} (m : M A) : Prop :=
  forall s, P (md s) -> P (md (snd (m s))).

(** [marketData.causalityMatrix[l][f]], if both keys are present. *)
Definition rel_lookup (l f : string) (d : marketData) : option relation :=
  match lookup l (causalityMatrix d) with
  | Some row => lookup f row
  | None => None
  end.

Ltac simpl_md :=
  cbn [prices pricesProto priceHistory leaderEvents causalityMatrix stats md pendingUpdates
       set_prices set_pricesProto set_priceHistory set_leaderEvents set_causalityMatrix
       set_stats] in *.

(** Well-formed states: every configured coin has its price, history and
    relations, and leaders are configured coins. *)
Record wf (d : marketData) : Prop := {
  wf_prices : forall c, In c COINS -> lookup c (prices d) <> None;
  wf_history : forall c, In c COINS -> lookup c (priceHistory d) <> None;
  wf_matrix : forall l f, In l COINS -> In f COINS -> l <> f -> rel_lookup l f d <> None;
  wf_leaders : forall e, In e (leaderEvents d) -> In (le_leader e) COINS }.

Definition strip (e : leaderEvent) : Z * string * num * num * string :=
  (le_timestamp e, le_leader e, le_price e, le_changePercent e, le_direction e).

(** The code after the history update (lines 188-250). *)
Definition ticker_tail (coin : string) (p pc cp : num) (now : Z) : M unit :=
  detect_leader coin p cp now ;;
  evs <- gets leaderEvents ;;
  forEach_follow coin cp now 0 evs ;;
  modify (fun d => set_stats (incr_ticks (stats d)) d) ;;
  modify_pending (assign coin (mkPriceState p pc cp now)).

Definition after_price (coin : string) (ps : priceState) (d : marketData) : marketData :=
  set_price_entry coin ps d.

(** Only configured coins have a history array of their own. *)
Definition hist_keys (d : marketData) : Prop :=
  forall c, lookup c (priceHistory d) <> None -> In c COINS.

Definition after_history (coin : string) (h : list num) (p : num) (d : marketData)
  : marketData :=
  set_priceHistory (assign coin (cap_history (h ++ [p])) (priceHistory d)) d.

(** Splits on whether the written price key is [__proto__]. *)
Ltac case_proto :=
  unfold after_price, set_price_entry in *;
  match goal with |- context [String.eqb ?c "__proto__"] => destruct (String.eqb c "__proto__") end.

Definition is_some {A} (o : option A) : bool := match o with Some _ => true | None => false end.

(** States the server can be in: the initial one, then messages and timer
    flushes in any order. *)
Inductive reachable : server -> Prop :=
| reach_init t0 : reachable (init_server t0)
| reach_step s ev : reachable s -> reachable (step s ev).

(** Every relation of the matrix as a best-pairs entry, leader-major. *)
Definition all_pair_entries (d : marketData) : list pairEntry :=
  flat_map (fun '(leader, row) => map (fun '(follower, rel) => pair_entry leader follower rel) row)
    (causalityMatrix d).

Definition qualifies (ms : Z) (e : pairEntry) : bool :=
  (ms <=? Z.of_nat (bp_successfulFollows e + bp_missedFollows e))%Z &&
  ngt (bp_followRate e) (Fin (6 # 10)).

(** [a] comes no later than [b] in a descending order of follow rates. *)
Definition fr_ge (a b : pairEntry) : Prop :=
  exists x y, bp_followRate a = Fin x /\ bp_followRate b = Fin y /\ (y <= x)%Q.

Definition fin_rate (e : pairEntry) : Prop := exists x, bp_followRate e = Fin x.

Definition rel_ok (rel : relation) : Prop :=
  successfulFollows rel = List.length (lagTimes rel) /\
  List.length (magnitudeRatios rel) = List.length (lagTimes rel).

Definition rel_inv (d : marketData) : Prop :=
  forall l row f rel, In (l, row) (causalityMatrix d) -> In (f, rel) row -> rel_ok rel.

Definition rel_ok_b (rel : relation) : bool :=
  Nat.eqb (successfulFollows rel) (List.length (lagTimes rel)) &&
  Nat.eqb (List.length (magnitudeRatios rel)) (List.length (lagTimes rel)).

(** The last [n] elements of [l], in order. *)
Definition lastn {A} (n : nat) (l : list A) : list A := rev (firstn n (rev l)).

(** The price a message feeds to the history of [c], if any: a ticker
    message for product [c] (lines 142-152, then 182-186). *)
Definition fed_event (c : string) (ev : event) : option num :=
  match ev with
  | Message (JsonObject t) _ =>
      match t_type t with
      | Some ty => if String.eqb ty "ticker" && String.eqb (coin_key t) c
                   then Some (parseFloat_field (t_price t)) else None
      | None => None
      end
  | _ => None
  end.

(** The prices fed to the history of [c], in arrival order. *)
Fixpoint fed_prices (c : string) (evs : list event) : list num :=
  match evs with
  | [] => []
  | ev :: r => match fed_event c ev with
               | Some p => p :: fed_prices c r
               | None => fed_prices c r
               end
  end.

(** A finite number equal (as a rational) to [q]. *)
Definition num_eqQ (a : num) (q : Q) : Prop :=
  match a with Fin y => (y == q)%Q | NaN => False end.

(** Whether the tick of [t] on [s] reaches line 191 and registers a
    leader event there. *)
Definition leader_tick (t : ticker) (s : server) : bool :=
  match price_field (coin_key t) (md s), lookup (coin_key t) (priceHistory (md s)) with
  | Some old, Some _ =>
      let '(_, cp) := compute_change old (parseFloat_field (t_price t)) in
      nge (nabs cp) MOVE_THRESHOLD
  | _, _ => false
  end.

(** [s] with the expired live events (at [now]) dropped. *)
Definition drop_expired (now : Z) (s : server) : server :=
  mkServer (set_leaderEvents (filter (not_expired now) (leaderEvents (md s))) (md s))
           (pendingUpdates s).

(** [s] with the live set left out: everything but [leaderEvents]. *)
Definition events_erased (s : server) : server :=
  mkServer (set_leaderEvents [] (md s)) (pendingUpdates s).

(** The test of lines 213-217: another coin's event, a lag inside the
    window, a move of at least 0.005 %. *)
Definition live_follow (coin : string) (cp : num) (ts : Z) (e : leaderEvent) : bool :=
  negb (String.eqb (le_leader e) coin) &&
  ((ts - le_timestamp e <? LAG_WINDOW)%Z && nge (nabs cp) FOLLOW_THRESHOLD).

(** [sameDirection], lines 218-219. *)
Definition same_direction (cp : num) (e : leaderEvent) : bool :=
  (ngt cp (Fin 0) && ngt (le_changePercent e) (Fin 0)) ||
  (nlt cp (Fin 0) && nlt (le_changePercent e) (Fin 0)).

(** Events of [leader] that a move [cp] of [coin] at [ts] follows, or misses. *)
Definition count_success (leader coin : string) (cp : num) (ts : Z)
  (evs : list leaderEvent) : nat :=
  length (filter (fun e => String.eqb (le_leader e) leader && live_follow coin cp ts e &&
                           same_direction cp e) evs).
Definition count_miss (leader coin : string) (cp : num) (ts : Z)
  (evs : list leaderEvent) : nat :=
  length (filter (fun e => String.eqb (le_leader e) leader && live_follow coin cp ts e &&
                           negb (same_direction cp e)) evs).
(** Events of any leader that the move misses. *)
Definition count_divergence (coin : string) (cp : num) (ts : Z)
  (evs : list leaderEvent) : nat :=
  length (filter (fun e => live_follow coin cp ts e && negb (same_direction cp e)) evs).

(** The reply with the clock reading of the prices endpoint blanked out. *)
Definition reply_without_clock (r : reply) : reply :=
  match r with
  | RPrices p => RPrices (mkPricesResponse (pr_success p) 0 (pr_prices p) (pr_statistics p))
  | _ => r
  end.

(** The followers listed in the row of leader [l] ([initializeData]). *)
Definition others (l : string) : list string := filter (fun f => negb (String.eqb l f)) COINS.

(** The keys of the maps as [initializeData] creates them; [prices] may
    have gained own keys after them (inherited names written by a tick). *)
Definition keys_ok (d : marketData) : Prop :=
  (exists extra, map fst (prices d) = COINS ++ extra) /\ map fst (priceHistory d) = COINS /\
  map fst (causalityMatrix d) = COINS /\
  (forall l row, In (l, row) (causalityMatrix d) -> map fst row = others l).

(** [keys_ok] as a boolean check. *)
Definition keys_ok_b (d : marketData) : bool :=
  (if list_eq_dec string_dec (firstn (length COINS) (map fst (prices d))) COINS
   then true else false) &&
  (if list_eq_dec string_dec (map fst (priceHistory d)) COINS then true else false) &&
  (if list_eq_dec string_dec (map fst (causalityMatrix d)) COINS then true else false) &&
  forallb (fun '(l, row) => if list_eq_dec string_dec (map fst row) (others l) then true else false)
    (causalityMatrix d).

(** [m] only touches [marketData]. *)
Definition md_only {A} (m : M A) : Prop :=
  forall s, pendingUpdates (snd (m s)) = pendingUpdates s.

(** A ticker message for a configured coin. *)
Definition counted (ev : event) : bool :=
  match ev with
  | Message (JsonObject t) _ =>
      match t_type t with
      | Some ty => String.eqb ty "ticker" && existsb (String.eqb (coin_key t)) COINS
      | None => false
      end
  | _ => false
  end.

(** Every queued update is the current price state of its configured coin. *)
Definition pending_ok (s : server) : Prop :=
  forall c v, lookup c (pendingUpdates s) = Some v ->
    In c COINS /\ lookup c (prices (md s)) = Some v.

(** The entry the matrix endpoint writes for one relation. *)
Definition snap_of (rel : relation) : snapEntry :=
  mkSnapEntry (followRate rel) (avgLag rel) (avgMagnitude rel) (List.length (lagTimes rel)).

(** A registered leader event: a finite move of at least 2 %, called a
    pump when it is a rise and a dump when it is a fall. *)
Definition event_ok (e : leaderEvent) : Prop :=
  exists q, le_changePercent e = Fin q /\ (2 <= Qabs q)%Q /\
    ((0 < q)%Q -> le_direction e = "pump") /\ ((q < 0)%Q -> le_direction e = "dump").

(** [R] holds of every relation of the matrix. *)
Definition rel_all (R : relation -> Prop) (d : marketData) : Prop :=
  forall l row f rel, In (l, row) (causalityMatrix d) -> In (f, rel) row -> R rel.

(** What the correlator keeps true of a relation: recorded lags are inside
    the window, recorded magnitude ratios are positive, the averages are the
    means of the samples, and [followRate] is [0] before any success and
    otherwise [successes / (successes + m)] for some [m] no larger than the
    current miss count. *)
Definition rel_good (rel : relation) : Prop :=
  Forall (fun lag => (lag < LAG_WINDOW)%Z) (lagTimes rel) /\
  Forall (fun m => exists q, m = Fin q /\ (0 < q)%Q) (magnitudeRatios rel) /\
  avgLag rel = match lagTimes rel with
               | [] => Fin 0
               | lt => ndiv (Z_num (sumZ lt)) (nat_num (List.length lt))
               end /\
  avgMagnitude rel = match magnitudeRatios rel with
                     | [] => Fin 0
                     | mrs => ndiv (sum_num mrs) (nat_num (List.length mrs))
                     end /\
  ((successfulFollows rel = 0 /\ followRate rel = Fin 0) \/
   (0 < successfulFollows rel /\ exists m, m <= missedFollows rel /\
      followRate rel = ndiv (nat_num (successfulFollows rel))
                            (nat_num (successfulFollows rel + m)))).

(** [rel] is [empty_relation] (checked on the representation). *)
Definition is_empty_rel (rel : relation) : bool :=
  match rel with
  | mkRelation [] [] O O (Fin (Qmake Z0 xH)) (Fin (Qmake Z0 xH)) (Fin (Qmake Z0 xH)) => true
  | _ => false
  end.

(** The fate of one listed file under the cleanup loop. *)
Definition cleaned (now : Z) (n : string) (o : option fileEntry) : option fileEntry :=
  match o with
  | Some f => if ends_with ".json" n && (DAY_MS <? now - mtimeMs f)%Z then None else Some f
  | None => None
  end.

(** The CSV lines of one leader: one per follower with an evaluation. *)
Definition csv_rows_of (leader : string) (row : list (string * relation)) : string :=
  String.concat "" (map (fun '(follower, rel) => csv_row leader follower rel)
    (filter (fun '(_, rel) => 0 <? successfulFollows rel + missedFollows rel) row)).

(** ** Association-list lemmas *)

Section AssocFacts.
Context {V : Type}.

Lemma lookup_assign (k k' : string) (v : V) (l : list (string * V)) :
  lookup k (assign k' v l) = if String.eqb k k' then Some v else lookup k l.
Proof.
  induction l as [|[k0 v0] r IH]; simpl.
  - reflexivity.
  - destruct (String.eqb k' k0) eqn:E1.
    + apply String.eqb_eq in E1; subst k0. simpl.
      destruct (String.eqb k k'); reflexivity.
    + simpl. rewrite IH.
      destruct (String.eqb k k0) eqn:E2; [|reflexivity].
      apply String.eqb_eq in E2; subst k0.
      destruct (String.eqb k k') eqn:E3; [|reflexivity].
      apply String.eqb_eq in E3; subst k'.
      rewrite String.eqb_refl in E1; discriminate.
Qed.

Lemma lookup_assign_some (k k' : string) (v : V) (l : list (string * V)) :
  lookup k l <> None -> lookup k (assign k' v l) <> None.
Proof. rewrite lookup_assign. destruct (String.eqb k k'); congruence. Qed.

Lemma lookup_In (k : string) (v : V) (l : list (string * V)) :
  lookup k l = Some v -> In (k, v) l.
Proof.
  induction l as [|[k0 v0] r IH]; simpl; [discriminate|].
  destruct (String.eqb k k0) eqn:E.
  - apply String.eqb_eq in E; subst. injection 1 as ->. left; reflexivity.
  - intros H; right; auto.
Qed.

Lemma In_assign (k k' : string) (v v' : V) (l : list (string * V)) :
  In (k, v) (assign k' v' l) -> In (k, v) l \/ (k = k' /\ v = v').
Proof.
  induction l as [|[k0 v0] r IH]; simpl.
  - intros [H|[]]. injection H as -> ->. right; split; reflexivity.
  - destruct (String.eqb k' k0).
    + intros [H|H]; [injection H as -> ->; right; split; reflexivity|left; right; exact H].
    + intros [H|H]; [left; left; exact H|].
      destruct (IH H) as [H'|H']; [left; right; exact H'|right; exact H'].
Qed.

Lemma lookup_keys (k : string) (l : list (string * V)) :
  lookup k l <> None -> In k (map fst l).
Proof.
  induction l as [|[k0 v0] r IH]; simpl; [congruence|].
  destruct (String.eqb k k0) eqn:E.
  - apply String.eqb_eq in E; subst; left; reflexivity.
  - intros H; right; auto.
Qed.

End AssocFacts.

(** ** Reasoning about [M] *)

Lemma bind_preserves P {A B} (m : M A) (k : A -> M B) :
  preserves P m -> (forall a, preserves P (k a)) -> preserves P (bind m k).
Proof.
  intros Hm Hk s Hs. unfold bind.
  specialize (Hm s Hs). destruct (m s) as [[a|] s']; simpl in *; auto.
  apply Hk; exact Hm.
Qed.

Lemma ret_preserves P {A} (a : A) : preserves P (ret a).
Proof. intros s Hs; exact Hs. Qed.

Lemma gets_preserves P {A} (f : marketData -> A) : preserves P (gets f).
Proof. intros s Hs; exact Hs. Qed.

Lemma get_or_throw_preserves P {A} (o : option A) : preserves P (get_or_throw o).
Proof. intros s Hs; destruct o; exact Hs. Qed.

Lemma modify_preserves P (f : marketData -> marketData) :
  (forall d, P d -> P (f d)) -> preserves P (modify f).
Proof. intros Hf s Hs; simpl; auto. Qed.

Lemma modify_pending_preserves P f : preserves P (modify_pending f).
Proof. intros s Hs; exact Hs. Qed.

Lemma get_relation_preserves P l c : preserves P (get_relation l c).
Proof.
  unfold get_relation. apply bind_preserves; [apply gets_preserves|].
  intros row. apply bind_preserves; [apply get_or_throw_preserves|].
  intros r. apply get_or_throw_preserves.
Qed.

Create HintDb preserves_db.
#[export] Hint Resolve bind_preserves ret_preserves gets_preserves
  get_or_throw_preserves modify_pending_preserves get_relation_preserves : preserves_db.

(** Loops: each callback keeps [P], hence the whole [forEach]. *)
Lemma forEach_follow_preserves P coin cp ts :
  (forall i e, preserves P (follow_one coin cp ts i e)) ->
  forall evs i, preserves P (forEach_follow coin cp ts i evs).
Proof.
  intros Hf evs. induction evs as [|e r IH]; intros i; simpl;
    eauto with preserves_db.
Qed.

(** [get_relation] succeeds exactly with the stored relation. *)
Lemma get_relation_run l c s :
  get_relation l c s =
  match lookup l (causalityMatrix (md s)) with
  | Some row => match lookup c row with
                | Some rel => (Some rel, s)
                | None => (None, s)
                end
  | None => (None, s)
  end.
Proof.
  unfold get_relation, bind, gets, get_or_throw, ret, throw; simpl.
  destruct (lookup l (causalityMatrix (md s))); [|reflexivity].
  destruct (lookup c l0); reflexivity.
Qed.

Lemma rel_lookup_set (l f l' f' : string) rel d :
  rel_lookup l f (set_relation l' f' rel d) =
  match lookup l' (causalityMatrix d) with
  | Some _ => if String.eqb l l' && String.eqb f f' then Some rel else rel_lookup l f d
  | None => rel_lookup l f d
  end.
Proof.
  unfold rel_lookup, set_relation.
  destruct (lookup l' (causalityMatrix d)) as [row|] eqn:Hrow; [|reflexivity].
  simpl. rewrite lookup_assign.
  destruct (String.eqb l l') eqn:E; simpl.
  - apply String.eqb_eq in E; subst l'. rewrite Hrow, lookup_assign. reflexivity.
  - reflexivity.
Qed.

(** ** Well-formed states are kept *)

Lemma strip_update_respond c r i l :
  map strip (update_nth (respond c r) i l) = map strip l.
Proof.
  revert i; induction l as [|x l IH]; intros [|i]; simpl; try reflexivity.
  rewrite IH; reflexivity.
Qed.

Lemma In_update_respond c r i l e :
  In e (update_nth (respond c r) i l) -> exists e0, In e0 l /\ strip e0 = strip e.
Proof.
  intros H. assert (Hs : In (strip e) (map strip (update_nth (respond c r) i l)))
    by (apply in_map; exact H).
  rewrite strip_update_respond in Hs. apply in_map_iff in Hs.
  destruct Hs as [e0 [He0 Hin]]. exists e0; split; assumption.
Qed.

Lemma wf_set_relation l f rel d : wf d -> wf (set_relation l f rel d).
Proof.
  intros [Hp Hh Hm He].
  assert (Hpr : prices (set_relation l f rel d) = prices d /\
                priceHistory (set_relation l f rel d) = priceHistory d /\
                leaderEvents (set_relation l f rel d) = leaderEvents d).
  { unfold set_relation; destruct (lookup l (causalityMatrix d)); repeat split. }
  destruct Hpr as [E1 [E2 E3]].
  constructor; rewrite ?E1, ?E2, ?E3; auto.
  intros l0 f0 Hl Hf Hne. rewrite rel_lookup_set.
  destruct (lookup l (causalityMatrix d)); [|auto].
  destruct (String.eqb l0 l && String.eqb f0 f); [discriminate|auto].
Qed.

Lemma wf_events_respond c r i d :
  wf d -> wf (set_leaderEvents (update_nth (respond c r) i (leaderEvents d)) d).
Proof.
  intros [Hp Hh Hm He]. unfold rel_lookup in *. constructor; simpl_md; auto.
  intros e Hin. destruct (In_update_respond _ _ _ _ _ Hin) as [e0 [H0 Hs]].
  unfold strip in Hs. injection Hs as _ Hl _ _ _. rewrite <- Hl. auto.
Qed.

Lemma wf_set_stats st d : wf d -> wf (set_stats st d).
Proof. intros [Hp Hh Hm He]; unfold rel_lookup in *; constructor; simpl_md; auto. Qed.

#[export] Hint Resolve wf_set_relation wf_events_respond wf_set_stats : preserves_db.

Lemma follow_one_wf coin cp ts i e : preserves wf (follow_one coin cp ts i e).
Proof.
  unfold follow_one; cbv zeta.
  destruct (negb (String.eqb (le_leader e) coin)); [|apply ret_preserves].
  destruct (_ && _); [|apply ret_preserves].
  destruct (_ || _);
    (apply bind_preserves; [apply get_relation_preserves|intros rel]);
    (apply bind_preserves; [apply modify_preserves; auto with preserves_db|intros _]);
    apply modify_preserves; auto with preserves_db.
Qed.

Lemma detect_leader_wf coin p cp ts :
  In coin COINS -> preserves wf (detect_leader coin p cp ts).
Proof.
  intros Hc. unfold detect_leader.
  destruct (nge (nabs cp) MOVE_THRESHOLD); [|apply ret_preserves].
  apply bind_preserves; [|intros _]; apply modify_preserves;
    intros d [Hp Hh Hm He]; unfold rel_lookup in *; constructor; simpl_md; auto.
  - intros e Hin. apply in_app_or in Hin. destruct Hin as [Hin|[<-|[]]]; auto.
  - intros e Hin. apply filter_In in Hin. apply He, Hin.
Qed.

Lemma not_coin c : existsb (String.eqb c) COINS = false -> ~ In c COINS.
Proof.
  intros E Hin.
  assert (existsb (String.eqb c) COINS = true)
    by (apply existsb_exists; exists c; split; [exact Hin|apply String.eqb_refl]).
  congruence.
Qed.

Lemma proto_not_coin : ~ In "__proto__" COINS.
Proof. apply not_coin; reflexivity. Qed.

Lemma after_price_coin c ps d :
  In c COINS -> after_price c ps d = set_prices (assign c ps (prices d)) d.
Proof.
  intros Hc. unfold after_price, set_price_entry.
  destruct (String.eqb c "__proto__") eqn:E; [|reflexivity].
  apply String.eqb_eq in E; subst c. contradiction (proto_not_coin Hc).
Qed.

Lemma after_price_frame c ps d :
  priceHistory (after_price c ps d) = priceHistory d /\
  leaderEvents (after_price c ps d) = leaderEvents d /\
  causalityMatrix (after_price c ps d) = causalityMatrix d /\
  stats (after_price c ps d) = stats d.
Proof.
  unfold after_price, set_price_entry.
  destruct (String.eqb c "__proto__"); repeat split.
Qed.

Lemma after_price_keep c ps d c' :
  lookup c' (prices d) <> None -> lookup c' (prices (after_price c ps d)) <> None.
Proof.
  unfold after_price, set_price_entry.
  destruct (String.eqb c "__proto__"); simpl_md; [auto|apply lookup_assign_some].
Qed.

Lemma price_field_own c d ps :
  In c COINS -> lookup c (prices d) = Some ps -> price_field c d = Some (Some (price ps)).
Proof.
  intros Hc Hl. unfold price_field.
  destruct (String.eqb c "__proto__") eqn:E.
  - apply String.eqb_eq in E; subst c. contradiction (proto_not_coin Hc).
  - rewrite Hl. reflexivity.
Qed.

Lemma processTickerUpdate_eq t now s :
  processTickerUpdate t now s =
  match price_field (coin_key t) (md s) with
  | None => (None, s)
  | Some old =>
      let p := parseFloat_field (t_price t) in
      let '(pc, cp) := compute_change old p in
      let d1 := after_price (coin_key t) (mkPriceState p pc cp now) (md s) in
      match lookup (coin_key t) (priceHistory (md s)) with
      | None => (None, mkServer d1 (pendingUpdates s))
      | Some h =>
          ticker_tail (coin_key t) p pc cp now
            (mkServer (after_history (coin_key t) h p d1) (pendingUpdates s))
      end
  end.
Proof.
  unfold processTickerUpdate, bind, gets, get_or_throw, ret, throw, modify.
  destruct (price_field (coin_key t) (md s)); [|reflexivity].
  destruct (compute_change _ _). cbn.
  destruct (after_price_frame (coin_key t)
              (mkPriceState (parseFloat_field (t_price t)) n n0 now) (md s)) as [Eh _].
  unfold after_price in Eh. rewrite Eh.
  destruct (lookup (coin_key t) (priceHistory (md s))); reflexivity.
Qed.

Lemma ticker_tail_wf coin p pc cp now :
  In coin COINS -> preserves wf (ticker_tail coin p pc cp now).
Proof.
  intros Hc. unfold ticker_tail.
  apply bind_preserves; [apply detect_leader_wf; exact Hc|intros _].
  apply bind_preserves; [apply gets_preserves|intros evs].
  apply bind_preserves; [apply forEach_follow_preserves; apply follow_one_wf|intros _].
  apply bind_preserves; [apply modify_preserves; auto with preserves_db|intros _].
  apply modify_pending_preserves.
Qed.

Lemma wf_after_price c ps d : wf d -> wf (after_price c ps d).
Proof.
  destruct (after_price_frame c ps d) as [E1 [E2 [E3 _]]].
  intros [Hp Hh Hm He]; constructor; unfold rel_lookup in *;
    rewrite ?E1, ?E2, ?E3; auto.
  intros c' Hc'. apply after_price_keep; auto.
Qed.

Lemma hist_keys_after_price c ps d : hist_keys d -> hist_keys (after_price c ps d).
Proof.
  destruct (after_price_frame c ps d) as [E1 _]. unfold hist_keys. rewrite E1. auto.
Qed.

Lemma hist_keys_after_history c h p d :
  lookup c (priceHistory d) = Some h -> hist_keys d -> hist_keys (after_history c h p d).
Proof.
  intros Hh Hk c' Hc'. unfold after_history in Hc'. simpl_md.
  rewrite lookup_assign in Hc'. destruct (String.eqb c' c) eqn:E; [|auto].
  apply String.eqb_eq in E; subst c'. apply Hk. congruence.
Qed.

Lemma hist_keys_set_relation l f rel d : hist_keys d -> hist_keys (set_relation l f rel d).
Proof.
  unfold hist_keys, set_relation. destruct (lookup l (causalityMatrix d)); auto.
Qed.

Lemma hist_keys_events c r i d :
  hist_keys d -> hist_keys (set_leaderEvents (update_nth (respond c r) i (leaderEvents d)) d).
Proof. unfold hist_keys; simpl_md; auto. Qed.

Lemma hist_keys_set_stats st d : hist_keys d -> hist_keys (set_stats st d).
Proof. unfold hist_keys; simpl_md; auto. Qed.

Lemma hist_keys_set_leaderEvents e d : hist_keys d -> hist_keys (set_leaderEvents e d).
Proof. unfold hist_keys; simpl_md; auto. Qed.

#[export] Hint Resolve hist_keys_set_relation hist_keys_events hist_keys_set_stats
  hist_keys_set_leaderEvents : preserves_db.

Lemma ticker_tail_hist_keys coin p pc cp now : preserves hist_keys (ticker_tail coin p pc cp now).
Proof.
  unfold ticker_tail, detect_leader.
  apply bind_preserves; [|intros _].
  { destruct (nge (nabs cp) MOVE_THRESHOLD); [|apply ret_preserves].
    apply bind_preserves; [|intros _]; apply modify_preserves; auto with preserves_db. }
  apply bind_preserves; [apply gets_preserves|intros evs].
  apply bind_preserves; [apply forEach_follow_preserves|intros _].
  { intros i e. unfold follow_one; cbv zeta.
    destruct (negb (String.eqb (le_leader e) coin)); [|apply ret_preserves].
    destruct (_ && _); [|apply ret_preserves].
    destruct (_ || _);
      (apply bind_preserves; [apply get_relation_preserves|intros rel]);
      (apply bind_preserves; [apply modify_preserves; auto with preserves_db|intros _]);
      apply modify_preserves; auto with preserves_db. }
  apply bind_preserves; [apply modify_preserves; auto with preserves_db|intros _].
  apply modify_pending_preserves.
Qed.

Lemma processTickerUpdate_hist_keys t now : preserves hist_keys (processTickerUpdate t now).
Proof.
  intros s Hs. rewrite processTickerUpdate_eq.
  destruct (price_field (coin_key t) (md s)) as [old|]; [|exact Hs].
  cbv zeta. destruct (compute_change old (parseFloat_field (t_price t))) as [pc cp].
  destruct (lookup (coin_key t) (priceHistory (md s))) as [h|] eqn:Hh;
    [|apply hist_keys_after_price, Hs].
  apply ticker_tail_hist_keys. simpl_md. apply hist_keys_after_history.
  - destruct (after_price_frame (coin_key t)
      (mkPriceState (parseFloat_field (t_price t)) pc cp now) (md s)) as [E _].
    rewrite E. exact Hh.
  - apply hist_keys_after_price, Hs.
Qed.

Lemma processTickerUpdate_wf t now s :
  wf (md s) -> hist_keys (md s) -> wf (md (snd (processTickerUpdate t now s))).
Proof.
  intros Hs Hk. rewrite processTickerUpdate_eq.
  destruct (price_field (coin_key t) (md s)) as [old|]; [|exact Hs].
  cbv zeta. destruct (compute_change old (parseFloat_field (t_price t))) as [pc cp].
  set (d1 := after_price (coin_key t) (mkPriceState (parseFloat_field (t_price t)) pc cp now) (md s)).
  assert (H1 : wf d1) by (apply wf_after_price, Hs).
  destruct (lookup (coin_key t) (priceHistory (md s))) as [h|] eqn:Hh; [|exact H1].
  assert (Hc : In (coin_key t) COINS) by (apply Hk; congruence).
  apply ticker_tail_wf; [exact Hc|]. simpl_md. unfold after_history.
  destruct H1 as [Hp Hh' Hm He]; unfold rel_lookup in *; constructor; simpl_md; auto.
  intros c Hc'. apply lookup_assign_some; auto.
Qed.

Lemma step_hist_keys s ev : hist_keys (md s) -> hist_keys (md (step s ev)).
Proof.
  destruct ev as [m now|]; simpl.
  - destruct m as [|t]; simpl; auto.
    destruct (t_type t) as [ty|]; auto.
    destruct (String.eqb ty "ticker"); auto. apply processTickerUpdate_hist_keys.
  - unfold flushPending. destruct (pendingUpdates s); auto.
Qed.

Lemma step_wf s ev : wf (md s) -> hist_keys (md s) -> wf (md (step s ev)).
Proof.
  destruct ev as [m now|]; simpl.
  - destruct m as [|t]; simpl; auto.
    destruct (t_type t) as [ty|]; auto.
    destruct (String.eqb ty "ticker"); auto. apply processTickerUpdate_wf.
  - unfold flushPending. destruct (pendingUpdates s); auto.
Qed.

Lemma is_some_true {A} (o : option A) : is_some o = true -> o <> None.
Proof. destruct o; simpl; congruence. Qed.

Lemma init_md t0 : md (init_server t0) =
  set_stats (mkStatistics 0 0 t0) (md (init_server 0)).
Proof. reflexivity. Qed.

Lemma wf_init t0 : wf (md (init_server t0)).
Proof.
  rewrite init_md. set (d := md (init_server 0)).
  assert (Hp : forallb (fun c => is_some (lookup c (prices d)) &&
                                 is_some (lookup c (priceHistory d))) COINS = true)
    by (vm_compute; reflexivity).
  assert (Hm : forallb (fun l => forallb (fun f => String.eqb l f || is_some (rel_lookup l f d))
                                   COINS) COINS = true)
    by (vm_compute; reflexivity).
  assert (He : leaderEvents d = []) by reflexivity.
  rewrite forallb_forall in Hp, Hm.
  unfold rel_lookup in *; constructor; simpl_md.
  - intros c Hc. specialize (Hp c Hc). apply andb_prop in Hp. apply is_some_true, Hp.
  - intros c Hc. specialize (Hp c Hc). apply andb_prop in Hp. apply is_some_true, Hp.
  - intros l f Hl Hf Hne. specialize (Hm l Hl). rewrite forallb_forall in Hm.
    specialize (Hm f Hf). apply orb_prop in Hm. destruct Hm as [E|E].
    + apply String.eqb_eq in E; contradiction.
    + apply is_some_true, E.
  - rewrite He. intros e [].
Qed.

Lemma hist_keys_init t0 : hist_keys (md (init_server t0)).
Proof.
  rewrite init_md. set (d := md (init_server 0)).
  assert (Hk : map fst (priceHistory d) = COINS) by (vm_compute; reflexivity).
  intros c Hc. simpl_md. rewrite <- Hk. apply lookup_keys, Hc.
Qed.

Lemma reachable_hist_keys s : reachable s -> hist_keys (md s).
Proof.
  induction 1; [apply hist_keys_init|apply step_hist_keys; assumption].
Qed.

Lemma reachable_wf s : reachable s -> wf (md s).
Proof.
  induction 1; [apply wf_init|apply step_wf; [|apply reachable_hist_keys]; assumption].
Qed.

Lemma reachable_run evs s : reachable s -> reachable (run evs s).
Proof.
  revert s; induction evs as [|ev evs IH]; intros s Hs; simpl; [exact Hs|].
  apply IH; constructor; exact Hs.
Qed.

(** ** Best pairs: filtering, stable sorting, truncation *)

Lemma collect_row ms leader row acc :
  fold_left (fun pairs '(follower, rel) =>
      let totalEvents := successfulFollows rel + missedFollows rel in
      if (ms <=? Z.of_nat totalEvents)%Z && ngt (followRate rel) (Fin (6 # 10)) then
        pairs ++ [pair_entry leader follower rel]
      else pairs) row acc =
  acc ++ filter (qualifies ms) (map (fun '(follower, rel) => pair_entry leader follower rel) row).
Proof.
  revert acc; induction row as [|[f rel] row IH]; intros acc; simpl.
  - rewrite app_nil_r; reflexivity.
  - rewrite IH. unfold qualifies; simpl.
    destruct (_ && _); simpl; [rewrite <- app_assoc; reflexivity|reflexivity].
Qed.

Lemma collect_pairs_filter ms d :
  collect_pairs ms d = filter (qualifies ms) (all_pair_entries d).
Proof.
  unfold collect_pairs, all_pair_entries.
  assert (H : forall m acc,
    fold_left (fun pairs '(leader, row) =>
      fold_left (fun pairs '(follower, rel) =>
        let totalEvents := successfulFollows rel + missedFollows rel in
        if (ms <=? Z.of_nat totalEvents)%Z && ngt (followRate rel) (Fin (6 # 10)) then
          pairs ++ [pair_entry leader follower rel]
        else pairs) row pairs) m acc =
    acc ++ filter (qualifies ms)
      (flat_map (fun '(leader, row) =>
         map (fun '(follower, rel) => pair_entry leader follower rel) row) m)).
  { induction m as [|[l row] m IH]; intros acc; simpl.
    - rewrite app_nil_r; reflexivity.
    - rewrite IH, collect_row, filter_app, app_assoc. reflexivity. }
  apply H.
Qed.

Section SortFacts.
Context {A : Type} (cmp : A -> A -> num).

Lemma insert_by_perm x l : Permutation (insert_by cmp x l) (x :: l).
Proof.
  induction l as [|y l IH]; simpl; [reflexivity|].
  destruct (nlt (cmp x y) (Fin 0)); [reflexivity|].
  rewrite IH. apply perm_swap.
Qed.

Lemma sort_by_perm_acc l acc :
  Permutation (fold_left (fun acc x => insert_by cmp x acc) l acc) (l ++ acc).
Proof.
  revert acc; induction l as [|x l IH]; intros acc; simpl; [reflexivity|].
  rewrite IH, insert_by_perm. symmetry; apply Permutation_middle.
Qed.

Lemma sort_by_perm l : Permutation (sort_by cmp l) l.
Proof. unfold sort_by. rewrite sort_by_perm_acc, app_nil_r. reflexivity. Qed.

End SortFacts.

Lemma insert_by_hd {A} (cmp : A -> A -> num) (R : A -> A -> Prop) y x l :
  HdRel R y l -> R y x -> HdRel R y (insert_by cmp x l).
Proof.
  intros Hh Hyx. destruct l as [|z l]; simpl; [constructor; exact Hyx|].
  destruct (nlt (cmp x z) (Fin 0)); constructor; [exact Hyx|].
  inversion Hh; assumption.
Qed.

Lemma insert_desc_sorted x l :
  fin_rate x -> Forall fin_rate l -> Sorted fr_ge l ->
  Sorted fr_ge (insert_by by_followRate_desc x l) /\
  Forall fin_rate (insert_by by_followRate_desc x l).
Proof.
  intros [qx Hx]. induction l as [|y l IH]; intros Hf Hs; simpl.
  - split; [repeat constructor|constructor; [exists qx; exact Hx|constructor]].
  - inversion Hf as [|? ? [qy Hy] Hfl]; subst.
    assert (Ec : nlt (by_followRate_desc x y) (Fin 0) = negb (Qle_bool 0 (qy - qx)))
      by (unfold by_followRate_desc; rewrite Hx, Hy; reflexivity).
    rewrite Ec. destruct (Qle_bool 0 (qy - qx)) eqn:E; simpl.
    + apply Qle_bool_iff, Qle_minus_iff in E. apply Sorted_inv in Hs as [Hsl Hhd].
      destruct (IH Hfl Hsl) as [IHs IHf]. split.
      * constructor; [exact IHs|]. apply insert_by_hd; [exact Hhd|].
        exists qy, qx. repeat split; assumption.
      * constructor; [exists qy; exact Hy|exact IHf].
    + split.
      * constructor; [exact Hs|]. constructor. exists qx, qy. repeat split; auto.
        apply Qnot_lt_le. intros Hlt. apply Qlt_le_weak in Hlt.
        apply Qle_minus_iff in Hlt.
        assert (Ht : Qle_bool 0 (qy - qx) = true) by (apply Qle_bool_iff; exact Hlt).
        congruence.
      * constructor; [exists qx; exact Hx|exact Hf].
Qed.

Lemma sort_desc_sorted_acc l acc :
  Forall fin_rate l -> Forall fin_rate acc -> Sorted fr_ge acc ->
  Sorted fr_ge (fold_left (fun acc x => insert_by by_followRate_desc x acc) l acc) /\
  Forall fin_rate (fold_left (fun acc x => insert_by by_followRate_desc x acc) l acc).
Proof.
  revert acc; induction l as [|x l IH]; intros acc Hl Hf Hs; simpl; [split; assumption|].
  inversion Hl as [|? ? Hx Hl']; subst.
  destruct (insert_desc_sorted x acc Hx Hf Hs) as [Hs' Hf']. apply IH; assumption.
Qed.

Lemma qualifies_fin ms e : qualifies ms e = true -> fin_rate e.
Proof.
  unfold qualifies, ngt, nlt. intros H. apply andb_prop in H as [_ H].
  destruct (bp_followRate e) as [q|] eqn:E; [exists q; exact E|discriminate].
Qed.

Lemma In_all_pair_entries e d :
  In e (all_pair_entries d) ->
  exists l row f rel, In (l, row) (causalityMatrix d) /\ In (f, rel) row /\
                      e = pair_entry l f rel.
Proof.
  unfold all_pair_entries. intros H. apply in_flat_map in H.
  destruct H as [[l row] [Hin H]]. apply in_map_iff in H.
  destruct H as [[f rel] [<- Hin2]]. exists l, row, f, rel. auto.
Qed.

Lemma in_firstn {A} n (x : A) l : In x (firstn n l) -> In x l.
Proof.
  intros H. rewrite <- (firstn_skipn n l). apply in_or_app. left; exact H.
Qed.

Lemma In_best_pairs e q d :
  In e (bpr_pairs (best_pairs q d)) ->
  In e (filter (qualifies (minSampleSize q)) (all_pair_entries d)).
Proof.
  intros H0.
  assert (H : In e (firstn 20 (sort_by by_followRate_desc (collect_pairs (minSampleSize q) d))))
    by exact H0.
  apply in_firstn in H.
  apply (Permutation_in _ (sort_by_perm _ _)) in H.
  rewrite collect_pairs_filter in H. exact H.
Qed.

(** [parseInt] of a decimal literal. *)
Lemma minSampleSize_10 : minSampleSize (Some "10") = 10%Z.
Proof. reflexivity. Qed.

(** ** Sample counts of relations *)

Lemma rel_inv_set_relation l f rel d :
  rel_inv d -> rel_ok rel -> rel_inv (set_relation l f rel d).
Proof.
  intros Hd Hr. unfold set_relation.
  destruct (lookup l (causalityMatrix d)) as [row|] eqn:E; [|exact Hd].
  intros l0 row0 f0 rel0 Hin1 Hin2. simpl_md.
  apply In_assign in Hin1. destruct Hin1 as [Hin1|[-> ->]]; [eapply Hd; eauto|].
  apply In_assign in Hin2. destruct Hin2 as [Hin2|[-> ->]]; [|exact Hr].
  eapply Hd; [apply lookup_In, E|exact Hin2].
Qed.

Lemma rel_ok_success lag mr rel : rel_ok rel -> rel_ok (record_success lag mr rel).
Proof.
  unfold rel_ok, record_success; simpl. rewrite !length_app; simpl. intros [H1 H2]; lia.
Qed.

Lemma rel_ok_miss rel : rel_ok rel -> rel_ok (record_miss rel).
Proof. unfold rel_ok, record_miss; simpl; auto. Qed.

(** Updates that leave the matrix alone keep [rel_inv]. *)
Lemma rel_inv_frame (f : marketData -> marketData) :
  (forall d, causalityMatrix (f d) = causalityMatrix d) ->
  forall d, rel_inv d -> rel_inv (f d).
Proof. intros Hf d Hd l row f0 rel. rewrite Hf. apply Hd. Qed.

Ltac frame_rel_inv := apply modify_preserves, rel_inv_frame; intros; reflexivity.

Lemma get_relation_bind_preserves P (Q : relation -> Prop) l c {B} (k : relation -> M B) :
  (forall d rel, P d -> rel_lookup l c d = Some rel -> Q rel) ->
  (forall rel, Q rel -> preserves P (k rel)) ->
  preserves P (bind (get_relation l c) k).
Proof.
  intros HQ Hk s Hs. unfold bind. rewrite get_relation_run.
  pose proof (HQ (md s)) as HQs. unfold rel_lookup in HQs.
  destruct (lookup l (causalityMatrix (md s))) as [row|]; [|exact Hs].
  destruct (lookup c row) as [rel|]; [|exact Hs].
  apply (Hk rel (HQs rel Hs eq_refl)); exact Hs.
Qed.

Lemma rel_inv_lookup d l c rel : rel_inv d -> rel_lookup l c d = Some rel -> rel_ok rel.
Proof.
  unfold rel_lookup. intros Hd H.
  destruct (lookup l (causalityMatrix d)) as [row|] eqn:E; [|discriminate].
  eapply Hd; [apply lookup_In, E|apply lookup_In, H].
Qed.

Lemma follow_one_rel_inv coin cp ts i e : preserves rel_inv (follow_one coin cp ts i e).
Proof.
  unfold follow_one; cbv zeta.
  destruct (negb (String.eqb (le_leader e) coin)); [|apply ret_preserves].
  destruct (_ && _); [|apply ret_preserves].
  destruct (_ || _); (apply (get_relation_bind_preserves _ rel_ok);
    [intros d rel Hd Hl; apply (rel_inv_lookup d _ _ _ Hd Hl)|intros rel Hok]);
    (apply bind_preserves; [apply modify_preserves; intros d Hd;
       apply rel_inv_set_relation; [exact Hd|]|intros _; frame_rel_inv]).
  - apply rel_ok_success; exact Hok.
  - apply rel_ok_miss; exact Hok.
Qed.

Lemma ticker_tail_rel_inv coin p pc cp now : preserves rel_inv (ticker_tail coin p pc cp now).
Proof.
  unfold ticker_tail.
  apply bind_preserves; [|intros _].
  { unfold detect_leader. destruct (nge (nabs cp) MOVE_THRESHOLD); [|apply ret_preserves].
    apply bind_preserves; [frame_rel_inv|intros _; frame_rel_inv]. }
  apply bind_preserves; [apply gets_preserves|intros evs].
  apply bind_preserves; [apply forEach_follow_preserves, follow_one_rel_inv|intros _].
  apply bind_preserves; [frame_rel_inv|intros _]. apply modify_pending_preserves.
Qed.

Lemma step_rel_inv s ev : rel_inv (md s) -> rel_inv (md (step s ev)).
Proof.
  intros Hs. destruct ev as [[|t] now|]; simpl; [exact Hs| |].
  - destruct (t_type t) as [ty|]; [|exact Hs].
    destruct (String.eqb ty "ticker"); [|exact Hs].
    rewrite processTickerUpdate_eq.
    destruct (price_field (coin_key t) (md s)) as [old|]; [|exact Hs].
    cbv zeta. destruct (compute_change _ _) as [pc cp].
    case_proto;
    destruct (lookup (coin_key t) (priceHistory (md s))) as [h|];
      try apply ticker_tail_rel_inv; exact Hs.
  - unfold flushPending. destruct (pendingUpdates s); exact Hs.
Qed.

Lemma rel_inv_init t0 : rel_inv (md (init_server t0)).
Proof.
  rewrite init_md. set (d := md (init_server 0)).
  assert (H : forallb (fun '(_, row) => forallb (fun '(_, rel) => rel_ok_b rel) row)
                (causalityMatrix d) = true) by (vm_compute; reflexivity).
  intros l row f rel Hl Hf. simpl_md.
  rewrite forallb_forall in H. specialize (H _ Hl). simpl in H.
  rewrite forallb_forall in H. specialize (H _ Hf). simpl in H.
  unfold rel_ok_b in H. apply andb_prop in H as [H1 H2].
  apply Nat.eqb_eq in H1, H2. split; assumption.
Qed.

Lemma reachable_rel_inv s : reachable s -> rel_inv (md s).
Proof. induction 1; [apply rel_inv_init|apply step_rel_inv; assumption]. Qed.

Lemma In_causality_matrix l srow f en d :
  In (l, srow) (fst (causality_matrix d)) -> In (f, en) srow ->
  exists row rel, In (l, row) (causalityMatrix d) /\ In (f, rel) row /\
    en = mkSnapEntry (followRate rel) (avgLag rel) (avgMagnitude rel) (List.length (lagTimes rel)).
Proof.
  unfold causality_matrix; simpl. intros H1 H2. apply in_map_iff in H1.
  destruct H1 as [[l' row] [E Hin]]. injection E as -> <-. exists row.
  assert (Hg : forall acc, In (f, en) (fold_left (fun acc '(follower, rel) =>
                 if 0 <? successfulFollows rel then
                   assign follower (mkSnapEntry (followRate rel) (avgLag rel)
                                      (avgMagnitude rel) (List.length (lagTimes rel))) acc
                 else acc) row acc) ->
               In (f, en) acc \/ exists rel, In (f, rel) row /\
                 en = mkSnapEntry (followRate rel) (avgLag rel) (avgMagnitude rel)
                        (List.length (lagTimes rel))).
  { clear. induction row as [|[f0 rel0] row IH]; intros acc H; simpl in H; [left; exact H|].
    destruct (IH _ H) as [H'|[rel [Hr Hen]]].
    - destruct (0 <? successfulFollows rel0); [|left; exact H'].
      apply In_assign in H'. destruct H' as [H'|[-> ->]]; [left; exact H'|].
      right. exists rel0. split; [left; reflexivity|reflexivity].
    - right. exists rel. split; [right; exact Hr|exact Hen]. }
  destruct (Hg [] H2) as [[]|[rel [Hr Hen]]]. exists rel. auto.
Qed.

(** ** Price history *)

Lemma lastn_length {A} n (l : list A) : length (lastn n l) <= n.
Proof. unfold lastn. rewrite length_rev. apply firstn_le_length. Qed.

Lemma lastn_all {A} n (l : list A) : length l <= n -> lastn n l = l.
Proof.
  intros H. unfold lastn. rewrite firstn_all2; [apply rev_involutive|].
  rewrite length_rev; exact H.
Qed.

Lemma lastn_app_lastn {A} n (l r : list A) : lastn n (lastn n l ++ r) = lastn n (l ++ r).
Proof.
  unfold lastn. rewrite !rev_app_distr, rev_involutive, !firstn_app, firstn_firstn.
  rewrite (Nat.min_l (n - length (rev r)) n) by lia. reflexivity.
Qed.

Lemma lastn_tl {A} n (l : list A) : length l = S n -> lastn n l = tl l.
Proof.
  destruct l as [|a t]; [discriminate|]. intros H. injection H as H. cbn [tl].
  unfold lastn. cbn [rev]. rewrite firstn_app, length_rev, H, Nat.sub_diag.
  rewrite firstn_all2 by (rewrite length_rev; lia).
  cbn [firstn]. rewrite app_nil_r. apply rev_involutive.
Qed.

Lemma cap_history_lastn h p : length h <= HISTORY_CAP ->
  cap_history (h ++ [p]) = lastn HISTORY_CAP (h ++ [p]).
Proof.
  intros H. unfold cap_history.
  assert (Hl : length (h ++ [p]) = S (length h)) by (rewrite length_app, Nat.add_comm; reflexivity).
  rewrite Hl. destruct (HISTORY_CAP <? S (length h)) eqn:E.
  - apply Nat.ltb_lt in E. symmetry; apply lastn_tl. rewrite Hl. f_equal. lia.
  - apply Nat.ltb_ge in E. symmetry; apply lastn_all. rewrite Hl. exact E.
Qed.

Lemma cap_history_length h p : length h <= HISTORY_CAP ->
  length (cap_history (h ++ [p])) <= HISTORY_CAP.
Proof. intros H. rewrite cap_history_lastn by exact H. apply lastn_length. Qed.

(** What [set_relation] leaves alone. *)
Lemma set_relation_proj l f rel d :
  prices (set_relation l f rel d) = prices d /\
  priceHistory (set_relation l f rel d) = priceHistory d /\
  leaderEvents (set_relation l f rel d) = leaderEvents d /\
  stats (set_relation l f rel d) = stats d.
Proof. unfold set_relation. destruct (lookup l (causalityMatrix d)); repeat split. Qed.

(** A property kept by the matrix, leader-event and statistics updates is
    kept by the code after the history update. *)
Lemma ticker_tail_frame (P : marketData -> Prop) coin p pc cp now :
  (forall d l f rel, P d -> P (set_relation l f rel d)) ->
  (forall d evs, P d -> P (set_leaderEvents evs d)) ->
  (forall d st, P d -> P (set_stats st d)) ->
  preserves P (ticker_tail coin p pc cp now).
Proof.
  intros Hr He Hs. unfold ticker_tail.
  assert (Hf : forall i e, preserves P (follow_one coin cp now i e)).
  { intros i e. unfold follow_one; cbv zeta.
    destruct (negb _); [|apply ret_preserves].
    destruct (_ && _); [|apply ret_preserves].
    destruct (_ || _); (apply bind_preserves; [apply get_relation_preserves|intros rel]);
      (apply bind_preserves; [|intros _]); apply modify_preserves; auto. }
  apply bind_preserves; [|intros _].
  { unfold detect_leader. destruct (nge _ _); [|apply ret_preserves].
    apply bind_preserves; [|intros _]; apply modify_preserves; auto. }
  apply bind_preserves; [apply gets_preserves|intros evs].
  apply bind_preserves; [apply forEach_follow_preserves, Hf|intros _].
  apply bind_preserves; [apply modify_preserves; auto|intros _].
  apply modify_pending_preserves.
Qed.

Lemma ticker_tail_history coin p pc cp now s :
  priceHistory (md (snd (ticker_tail coin p pc cp now s))) = priceHistory (md s).
Proof.
  apply (ticker_tail_frame (fun d => priceHistory d = priceHistory (md s)));
    [intros d l f rel H; rewrite (proj1 (proj2 (set_relation_proj l f rel d))); exact H
    |intros d evs H; exact H|intros d st H; exact H|reflexivity].
Qed.

Lemma ticker_tail_prices coin p pc cp now s :
  prices (md (snd (ticker_tail coin p pc cp now s))) = prices (md s).
Proof.
  apply (ticker_tail_frame (fun d => prices d = prices (md s)));
    [intros d l f rel H; rewrite (proj1 (set_relation_proj l f rel d)); exact H
    |intros d evs H; exact H|intros d st H; exact H|reflexivity].
Qed.

(** One message: a ticker for [c] appends its price and evicts the oldest
    entry beyond 1000; any other event leaves the history of [c] alone. *)
Lemma step_history s ev c h :
  In c COINS -> wf (md s) -> lookup c (priceHistory (md s)) = Some h ->
  lookup c (priceHistory (md (step s ev))) =
  Some (match fed_event c ev with Some p => cap_history (h ++ [p]) | None => h end).
Proof.
  intros Hc Hs Hh. destruct ev as [[|t] now|]; cbn [step onMessage fed_event]; [exact Hh| |].
  - destruct (t_type t) as [ty|]; [|exact Hh].
    destruct (String.eqb ty "ticker"); cbn [andb]; [|exact Hh].
    rewrite processTickerUpdate_eq.
    destruct (String.eqb (coin_key t) c) eqn:Ec.
    + apply String.eqb_eq in Ec. rewrite Ec.
      destruct (lookup c (prices (md s))) as [old|] eqn:Hold;
        [|exfalso; exact (wf_prices _ Hs _ Hc Hold)].
      rewrite (price_field_own _ _ _ Hc Hold).
      cbv zeta. destruct (compute_change _ _) as [pc cp]. rewrite Hh.
      rewrite ticker_tail_history. unfold after_history. simpl_md.
      rewrite lookup_assign, String.eqb_refl. reflexivity.
    + destruct (price_field (coin_key t) (md s)) as [old|]; [|exact Hh].
      cbv zeta. destruct (compute_change old _) as [pc cp].
      destruct (lookup (coin_key t) (priceHistory (md s))) as [h'|].
      * rewrite ticker_tail_history. unfold after_history. simpl_md.
        rewrite lookup_assign, String.eqb_sym, Ec, (proj1 (after_price_frame _ _ _)). exact Hh.
      * cbn [snd]. simpl_md. rewrite (proj1 (after_price_frame _ _ _)). exact Hh.
  - unfold flushPending. destruct (pendingUpdates s); exact Hh.
Qed.

Lemma run_history c evs : forall s h,
  In c COINS -> reachable s -> lookup c (priceHistory (md s)) = Some h ->
  length h <= HISTORY_CAP ->
  lookup c (priceHistory (md (run evs s))) = Some (lastn HISTORY_CAP (h ++ fed_prices c evs)).
Proof.
  induction evs as [|ev r IH]; intros s h Hc Hs Hh Hl.
  - change (run [] s) with s. rewrite app_nil_r, lastn_all by exact Hl. exact Hh.
  - change (run (ev :: r) s) with (run r (step s ev)).
    rewrite (IH (step s ev) _ Hc (reach_step s ev Hs)
               (step_history s ev c h Hc (reachable_wf s Hs) Hh)).
    + cbn [fed_prices]. destruct (fed_event c ev) as [p|]; [|reflexivity].
      rewrite cap_history_lastn by exact Hl. rewrite lastn_app_lastn, <- app_assoc. reflexivity.
    + destruct (fed_event c ev) as [p|]; [apply cap_history_length|]; exact Hl.
Qed.

Lemma init_history t0 c : In c COINS -> lookup c (priceHistory (md (init_server t0))) = Some [].
Proof.
  rewrite init_md. set (d := md (init_server 0)).
  assert (H : forallb (fun c => match lookup c (priceHistory d) with
                                | Some [] => true | _ => false end) COINS = true)
    by (vm_compute; reflexivity).
  rewrite forallb_forall in H. intros Hc. specialize (H c Hc). simpl_md.
  destruct (lookup c (priceHistory d)) as [[|]|]; congruence.
Qed.

Lemma reachable_history_bound c s : reachable s -> In c COINS ->
  forall h, lookup c (priceHistory (md s)) = Some h -> length h <= HISTORY_CAP.
Proof.
  intros Hr Hc. induction Hr as [t0|s ev Hr IH]; intros h Hh.
  - rewrite (init_history t0 c Hc) in Hh. injection Hh as <-. apply Nat.le_0_l.
  - pose proof (reachable_wf s Hr) as Hs.
    destruct (lookup c (priceHistory (md s))) as [h0|] eqn:H0;
      [|exfalso; exact (wf_history _ Hs _ Hc H0)].
    rewrite (step_history s ev c h0 Hc Hs H0) in Hh. injection Hh as <-.
    destruct (fed_event c ev); [apply cap_history_length|]; apply IH; reflexivity.
Qed.

(** ** Ticks of configured coins never throw *)

Lemma follow_one_runs coin cp ts i e s :
  wf (md s) -> In coin COINS -> In (le_leader e) COINS ->
  fst (follow_one coin cp ts i e s) = Some tt.
Proof.
  intros Hs Hc Hl. unfold follow_one; cbv zeta.
  destruct (String.eqb (le_leader e) coin) eqn:E; cbn [negb]; [reflexivity|].
  destruct (_ && _); [|reflexivity].
  assert (Hne : le_leader e <> coin) by (apply String.eqb_neq; exact E).
  pose proof (wf_matrix _ Hs _ _ Hl Hc Hne) as Hm. unfold rel_lookup in Hm.
  destruct (_ || _); unfold bind at 1; rewrite get_relation_run;
    destruct (lookup (le_leader e) (causalityMatrix (md s))) as [row|]; try congruence;
    destruct (lookup coin row) as [rel|]; try congruence; reflexivity.
Qed.

Lemma forEach_follow_runs coin cp ts evs : forall i s,
  wf (md s) -> In coin COINS -> (forall e, In e evs -> In (le_leader e) COINS) ->
  fst (forEach_follow coin cp ts i evs s) = Some tt.
Proof.
  induction evs as [|e r IH]; intros i s Hs Hc Hl; [reflexivity|].
  cbn [forEach_follow]. unfold bind.
  pose proof (follow_one_runs coin cp ts i e s Hs Hc (Hl e (or_introl eq_refl))) as H1.
  pose proof (follow_one_wf coin cp ts i e s Hs) as H2.
  destruct (follow_one coin cp ts i e s) as [o s1]. cbn [fst snd] in H1, H2. subst o.
  apply IH; [exact H2|exact Hc|]. intros e' He'; apply Hl; right; exact He'.
Qed.

Lemma detect_leader_runs coin p cp ts s : fst (detect_leader coin p cp ts s) = Some tt.
Proof. unfold detect_leader. destruct (nge _ _); reflexivity. Qed.

Lemma ticker_tail_runs coin p pc cp now s :
  wf (md s) -> In coin COINS -> fst (ticker_tail coin p pc cp now s) = Some tt.
Proof.
  intros Hs Hc. unfold ticker_tail, bind at 1.
  pose proof (detect_leader_runs coin p cp now s) as H1.
  pose proof (detect_leader_wf coin p cp now Hc s Hs) as H2.
  destruct (detect_leader coin p cp now s) as [o s1]. cbn [fst snd] in H1, H2. subst o.
  unfold bind, gets.
  pose proof (forEach_follow_runs coin cp now (leaderEvents (md s1)) 0 s1 H2 Hc
                (wf_leaders _ H2)) as H3.
  destruct (forEach_follow coin cp now 0 (leaderEvents (md s1)) s1) as [o2 s2].
  cbn [fst] in H3. subst o2. reflexivity.
Qed.

Lemma wf_after_tick c ps h p d :
  wf d -> In c COINS -> wf (after_history c h p (after_price c ps d)).
Proof.
  intros [Hp Hh Hm He] Hc. rewrite (after_price_coin _ _ _ Hc).
  unfold after_history, rel_lookup in *.
  constructor; simpl_md; auto.
  - intros c' Hc'. apply lookup_assign_some; auto.
  - intros c' Hc'. apply lookup_assign_some; auto.
Qed.

Lemma processTickerUpdate_runs t now s :
  wf (md s) -> In (coin_key t) COINS -> fst (processTickerUpdate t now s) = Some tt.
Proof.
  intros Hs Hc. rewrite processTickerUpdate_eq.
  destruct (lookup (coin_key t) (prices (md s))) as [old|] eqn:Hold;
    [|exfalso; exact (wf_prices _ Hs _ Hc Hold)].
  rewrite (price_field_own _ _ _ Hc Hold).
  cbv zeta. destruct (compute_change _ _) as [pc cp].
  destruct (lookup (coin_key t) (priceHistory (md s))) as [h|] eqn:Hh;
    [|exfalso; exact (wf_history _ Hs _ Hc Hh)].
  apply ticker_tail_runs; [|exact Hc]. simpl_md. apply wf_after_tick; assumption.
Qed.

(** ** Price change of a tick *)

Lemma compute_change_fin old q x :
  old = Some (Fin q) -> (0 <= q)%Q ->
  ((q == 0)%Q -> num_eqQ (fst (compute_change old (Fin x))) 0 /\
                 num_eqQ (snd (compute_change old (Fin x))) 0) /\
  ((0 < q)%Q -> num_eqQ (fst (compute_change old (Fin x))) (x - q) /\
                num_eqQ (snd (compute_change old (Fin x))) ((x - q) / q * 100)).
Proof.
  intros Hq Hq0. subst old. unfold compute_change, nor, truthy. cbn [fst snd].
  split; intros H.
  - assert (E : Qeq_bool q 0 = true) by (apply Qeq_bool_iff; exact H).
    rewrite E. cbn [negb nsub]. split; [cbn; ring|].
    unfold ngt, nlt. destruct (Qle_bool x 0) eqn:Ex; cbn [negb]; [cbn; reflexivity|].
    unfold ndiv. destruct (Qeq_bool x 0) eqn:Ex0.
    + apply Qeq_bool_iff in Ex0. assert (Qle_bool x 0 = true)
        by (apply Qle_bool_iff; rewrite Ex0; apply Qle_refl). congruence.
    + cbn [nmul num_eqQ]. unfold Qdiv. ring.
  - assert (E : Qeq_bool q 0 = false).
    { destruct (Qeq_bool q 0) eqn:E; [|reflexivity].
      apply Qeq_bool_iff in E. rewrite E in H. discriminate H. }
    assert (E' : Qle_bool q 0 = false).
    { destruct (Qle_bool q 0) eqn:E'; [|reflexivity].
      apply Qle_bool_iff in E'. exfalso. apply (Qlt_not_le _ _ H E'). }
    rewrite E. cbn [negb nsub]. unfold ngt, nlt. rewrite E'. cbn [negb].
    unfold ndiv. rewrite E. cbn [nmul num_eqQ]. split; reflexivity.
Qed.

(** ** Live leader events *)

Lemma set_relation_events l f rel d : leaderEvents (set_relation l f rel d) = leaderEvents d.
Proof. apply (set_relation_proj l f rel d). Qed.

Lemma set_relation_stats l f rel d : stats (set_relation l f rel d) = stats d.
Proof. apply (set_relation_proj l f rel d). Qed.

Lemma strip_timestamp a b : strip a = strip b -> le_timestamp a = le_timestamp b.
Proof. unfold strip. intros H. inversion H. reflexivity. Qed.

Lemma follow_one_strip X coin cp ts i e :
  preserves (fun d => map strip (leaderEvents d) = X) (follow_one coin cp ts i e).
Proof.
  unfold follow_one; cbv zeta.
  destruct (negb _); [|apply ret_preserves].
  destruct (_ && _); [|apply ret_preserves].
  destruct (_ || _); (apply bind_preserves; [apply get_relation_preserves|intros rel]);
    (apply bind_preserves; [|intros _]); apply modify_preserves; intros d Hd; simpl_md;
    rewrite ?set_relation_events, ?strip_update_respond; exact Hd.
Qed.

Lemma detect_leader_events coin p cp now s :
  leaderEvents (md (snd (detect_leader coin p cp now s))) =
  if nge (nabs cp) MOVE_THRESHOLD
  then filter (not_expired now) (leaderEvents (md s) ++ [new_leader_event coin p cp now])
  else leaderEvents (md s).
Proof. unfold detect_leader. destruct (nge _ _); reflexivity. Qed.

(** After the tick, the live set is the registered-then-pruned one, up to
    the [followersResponded] records. *)
Lemma ticker_tail_events coin p pc cp now s :
  map strip (leaderEvents (md (snd (ticker_tail coin p pc cp now s)))) =
  map strip (if nge (nabs cp) MOVE_THRESHOLD
             then filter (not_expired now) (leaderEvents (md s) ++ [new_leader_event coin p cp now])
             else leaderEvents (md s)).
Proof.
  rewrite <- detect_leader_events. unfold ticker_tail, bind at 1.
  pose proof (detect_leader_runs coin p cp now s) as H1.
  destruct (detect_leader coin p cp now s) as [o s1]. cbn [fst snd] in *. subst o.
  refine (bind_preserves (fun d => map strip (leaderEvents d) = map strip (leaderEvents (md s1)))
            _ _ (gets_preserves _ _) _ s1 eq_refl).
  intros evs. apply bind_preserves; [apply forEach_follow_preserves; intros; apply follow_one_strip|intros _].
  apply bind_preserves; [apply modify_preserves; intros d Hd; exact Hd|intros _].
  apply modify_pending_preserves.
Qed.

(** ** Expired live events are inert *)

Lemma erased_fields s s' : events_erased s = events_erased s' ->
  prices (md s) = prices (md s') /\ pricesProto (md s) = pricesProto (md s') /\
  priceHistory (md s) = priceHistory (md s') /\ causalityMatrix (md s) = causalityMatrix (md s') /\
  stats (md s) = stats (md s') /\ pendingUpdates s = pendingUpdates s'.
Proof.
  destruct s as [[a b c e m st] p], s' as [[a' b' c' e' m' st'] p'].
  unfold events_erased. cbn. intros H. injection H. intros; subst. repeat split.
Qed.

Lemma erased_of_fields s s' :
  prices (md s) = prices (md s') -> pricesProto (md s) = pricesProto (md s') ->
  priceHistory (md s) = priceHistory (md s') -> causalityMatrix (md s) = causalityMatrix (md s') ->
  stats (md s) = stats (md s') -> pendingUpdates s = pendingUpdates s' ->
  events_erased s = events_erased s'.
Proof.
  destruct s as [[a b c e m st] p], s' as [[a' b' c' e' m' st'] p'].
  cbn. intros; subst. reflexivity.
Qed.

Lemma follow_one_expired coin cp ts i e s :
  not_expired ts e = false -> follow_one coin cp ts i e s = (Some tt, s).
Proof.
  unfold not_expired, follow_one. intros H. cbv zeta. rewrite H.
  destruct (negb _); reflexivity.
Qed.

Lemma follow_one_erased coin cp ts i j e s s' :
  events_erased s = events_erased s' ->
  fst (follow_one coin cp ts i e s) = fst (follow_one coin cp ts j e s') /\
  events_erased (snd (follow_one coin cp ts i e s)) =
    events_erased (snd (follow_one coin cp ts j e s')).
Proof.
  intros H. pose proof (erased_fields _ _ H) as [E1 [E2 [E3 [E4 [E5 E6]]]]].
  unfold follow_one; cbv zeta.
  destruct (negb _); [|split; [reflexivity|exact H]].
  destruct (_ && _); [|split; [reflexivity|exact H]].
  destruct (_ || _); unfold bind; rewrite !get_relation_run, <- E4;
    (destruct (lookup (le_leader e) (causalityMatrix (md s))) as [row|]; [|split; [reflexivity|exact H]]);
    (destruct (lookup coin row) as [rel|]; [|split; [reflexivity|exact H]]);
    unfold modify; cbn [fst snd]; split; try reflexivity;
    apply erased_of_fields; simpl_md; unfold set_relation; rewrite <- ?E4;
    destruct (lookup (le_leader e) (causalityMatrix (md s))); simpl_md; congruence.
Qed.

Lemma forEach_erased coin cp ts evs : forall i j s s',
  events_erased s = events_erased s' ->
  fst (forEach_follow coin cp ts i evs s) =
    fst (forEach_follow coin cp ts j (filter (not_expired ts) evs) s') /\
  events_erased (snd (forEach_follow coin cp ts i evs s)) =
    events_erased (snd (forEach_follow coin cp ts j (filter (not_expired ts) evs) s')).
Proof.
  induction evs as [|e r IH]; intros i j s s' H; [split; [reflexivity|exact H]|].
  cbn [forEach_follow filter]. destruct (not_expired ts e) eqn:Ee.
  - cbn [forEach_follow]. unfold bind.
    destruct (follow_one_erased coin cp ts i j e s s' H) as [F1 F2].
    destruct (follow_one coin cp ts i e s) as [[[]|] s1], (follow_one coin cp ts j e s') as [[[]|] s1'];
      cbn [fst snd] in F1, F2; try discriminate.
    + apply IH, F2.
    + split; [reflexivity|exact F2].
  - unfold bind. rewrite follow_one_expired by exact Ee. apply IH, H.
Qed.

Lemma erased_events_eq s s' : events_erased s = events_erased s' ->
  leaderEvents (md s) = leaderEvents (md s') -> s = s'.
Proof.
  destruct s as [[a b c e m st] p], s' as [[a' b' c' e' m' st'] p'].
  unfold events_erased. cbn. intros H He. injection H. intros; subst. reflexivity.
Qed.

Lemma filter_idem {A} (f : A -> bool) l : filter f (filter f l) = filter f l.
Proof.
  induction l as [|x r IH]; [reflexivity|]. cbn. destruct (f x) eqn:E; [cbn; rewrite E, IH|]; auto.
Qed.

Lemma ticker_tail_erased coin p pc cp now s s' :
  events_erased s = events_erased s' ->
  leaderEvents (md s') = filter (not_expired now) (leaderEvents (md s)) ->
  events_erased (snd (ticker_tail coin p pc cp now s)) =
    events_erased (snd (ticker_tail coin p pc cp now s')).
Proof.
  intros H He. unfold ticker_tail, detect_leader.
  destruct (nge (nabs cp) MOVE_THRESHOLD).
  - assert (E : (modify (fun d => set_leaderEvents (leaderEvents d ++ [new_leader_event coin p cp now]) d) ;;
                 modify (fun d => set_leaderEvents (filter (not_expired now) (leaderEvents d)) d)) s =
                (modify (fun d => set_leaderEvents (leaderEvents d ++ [new_leader_event coin p cp now]) d) ;;
                 modify (fun d => set_leaderEvents (filter (not_expired now) (leaderEvents d)) d)) s').
    { unfold bind, modify. cbn [fst snd md pendingUpdates]. f_equal.
      apply erased_events_eq.
      - apply erased_of_fields; simpl_md; apply (erased_fields _ _ H).
      - simpl_md. rewrite He, !filter_app, filter_idem. reflexivity. }
    unfold bind at 1 4. rewrite E. reflexivity.
  - unfold bind, ret, gets. rewrite He.
    destruct (forEach_erased coin cp now (leaderEvents (md s)) 0 0 s s' H) as [F1 F2].
    destruct (forEach_follow coin cp now 0 (leaderEvents (md s)) s) as [[[]|] s1],
      (forEach_follow coin cp now 0 (filter (not_expired now) (leaderEvents (md s))) s') as [[[]|] s1'];
      cbn [fst snd] in F1, F2 |- *; try discriminate; [|exact F2].
    unfold modify, modify_pending. cbn [fst snd md pendingUpdates].
    pose proof (erased_fields _ _ F2) as [E1 [E2 [E3 [E4 [E5 E6]]]]].
    apply erased_of_fields; simpl_md; congruence.
Qed.

Lemma step_ignores_expired s m now :
  events_erased (step s (Message m now)) = events_erased (step (drop_expired now s) (Message m now)).
Proof.
  destruct m as [|t]; cbn [step onMessage]; [reflexivity|].
  destruct (t_type t) as [ty|]; [|reflexivity].
  destruct (String.eqb ty "ticker"); [|reflexivity].
  rewrite !processTickerUpdate_eq.
  change (price_field (coin_key t) (md (drop_expired now s))) with (price_field (coin_key t) (md s)).
  change (priceHistory (md (drop_expired now s))) with (priceHistory (md s)).
  destruct (price_field (coin_key t) (md s)) as [old|]; [|reflexivity].
  cbv zeta. destruct (compute_change old _) as [pc cp].
  destruct (lookup (coin_key t) (priceHistory (md s))) as [h|].
  - apply ticker_tail_erased; cbn [md]; unfold after_history;
      unfold after_price, set_price_entry; destruct (String.eqb (coin_key t) "__proto__"); reflexivity.
  - unfold after_price, set_price_entry; destruct (String.eqb (coin_key t) "__proto__"); reflexivity.
Qed.

Lemma tick_events s t now : t_type t = Some "ticker" ->
  exists ne, le_leader ne = coin_key t /\ le_timestamp ne = now /\
    map strip (leaderEvents (md (step s (Message (JsonObject t) now)))) =
    map strip (if leader_tick t s
               then filter (not_expired now) (leaderEvents (md s) ++ [ne])
               else leaderEvents (md s)).
Proof.
  intros Hty. cbn [step onMessage]. rewrite Hty, String.eqb_refl.
  unfold leader_tick. rewrite processTickerUpdate_eq.
  destruct (price_field (coin_key t) (md s)) as [old|];
    [|exists (new_leader_event (coin_key t) NaN NaN now); repeat split].
  destruct (lookup (coin_key t) (priceHistory (md s))) as [h|];
    cbv zeta; destruct (compute_change old _) as [pc cp];
    exists (new_leader_event (coin_key t) (parseFloat_field (t_price t)) cp now);
    (split; [reflexivity|split; [reflexivity|]]).
  - rewrite ticker_tail_events. cbn [md]. unfold after_history. simpl_md.
    rewrite (proj1 (proj2 (after_price_frame _ _ _))). reflexivity.
  - cbn [snd md]. rewrite (proj1 (proj2 (after_price_frame _ _ _))). reflexivity.
Qed.

(** ** Ticks whose price does not parse *)

Lemma read_digits_nodigit r acc n :
  starts_with_digit r = false -> read_digits digit_val 10 r acc n = (acc, n, r).
Proof.
  destruct r as [|c r]; [reflexivity|]. cbn [starts_with_digit read_digits].
  destruct (digit_val c); [discriminate|reflexivity].
Qed.

Lemma parse_fails_nan str : parse_fails str = true -> parseFloat str = NaN.
Proof.
  unfold parse_fails, parseFloat. destruct (read_sign (skip_ws str)) as [sg r]. cbn [snd].
  intros H. apply negb_true_iff in H. apply orb_false_iff in H as [H _].
  apply orb_false_iff in H as [H1 H2].
  rewrite (read_digits_nodigit _ _ _ H1).
  destruct r as [|c r']; [reflexivity|].
  destruct c as [[] [] [] [] [] [] [] []]; cbn in H2 |- *; try reflexivity.
  rewrite (read_digits_nodigit _ _ _ H2). reflexivity.
Qed.


Lemma compute_change_nan old :
  exists cp, compute_change old NaN = (NaN, cp) /\
    nge (nabs cp) MOVE_THRESHOLD = false /\ nge (nabs cp) FOLLOW_THRESHOLD = false.
Proof.
  unfold compute_change. cbv zeta.
  match goal with |- context [if ?b then _ else _] => destruct b end;
    eexists; (split; [reflexivity|split; reflexivity]).
Qed.

(** Without a move of 0.005 %, the code after the history update only
    counts the tick and queues the price. *)
Lemma ticker_tail_inert coin p pc cp now s :
  nge (nabs cp) MOVE_THRESHOLD = false -> nge (nabs cp) FOLLOW_THRESHOLD = false ->
  ticker_tail coin p pc cp now s =
  (Some tt, mkServer (set_stats (incr_ticks (stats (md s))) (md s))
                     (assign coin (mkPriceState p pc cp now) (pendingUpdates s))).
Proof.
  intros Hm Hf.
  assert (He : forall evs i s, forEach_follow coin cp now i evs s = (Some tt, s)).
  { induction evs as [|e r IH]; intros i s0; [reflexivity|].
    cbn [forEach_follow]. unfold bind at 1.
    assert (H1 : follow_one coin cp now i e s0 = (Some tt, s0)).
    { unfold follow_one. rewrite Hf, andb_false_r. destruct (negb _); reflexivity. }
    rewrite H1. apply IH. }
  unfold ticker_tail, detect_leader. rewrite Hm. unfold bind, ret, gets.
  cbv beta iota. rewrite He. reflexivity.
Qed.

(** ** Follow outcomes *)

Lemma rel_lookup_set_leaderEvents l f evs d :
  rel_lookup l f (set_leaderEvents evs d) = rel_lookup l f d.
Proof. reflexivity. Qed.

Lemma rel_lookup_set_stats l f st d : rel_lookup l f (set_stats st d) = rel_lookup l f d.
Proof. reflexivity. Qed.

Lemma follow_one_counts coin cp ts i e s L rel :
  wf (md s) -> In coin COINS -> In (le_leader e) COINS ->
  rel_lookup L coin (md s) = Some rel ->
  exists rel', rel_lookup L coin (md (snd (follow_one coin cp ts i e s))) = Some rel' /\
    successfulFollows rel' = successfulFollows rel +
      (if String.eqb (le_leader e) L && live_follow coin cp ts e && same_direction cp e
       then 1 else 0) /\
    missedFollows rel' = missedFollows rel +
      (if String.eqb (le_leader e) L && live_follow coin cp ts e && negb (same_direction cp e)
       then 1 else 0) /\
    divergenceEvents (stats (md (snd (follow_one coin cp ts i e s)))) =
      divergenceEvents (stats (md s)) +
      (if live_follow coin cp ts e && negb (same_direction cp e) then 1 else 0).
Proof.
  intros Hs Hc Hl Hrel. unfold follow_one. cbv zeta.
  destruct (live_follow coin cp ts e) eqn:Hlive.
  2:{ rewrite !andb_false_r. cbn [andb].
      unfold live_follow in Hlive.
      destruct (negb (String.eqb (le_leader e) coin)); cbn [andb] in Hlive;
        [rewrite Hlive|]; exists rel; cbn [snd ret]; repeat split; auto; lia. }
  unfold live_follow in Hlive. apply andb_prop in Hlive as [H1 H2]. rewrite H1, H2.
  assert (Hne : le_leader e <> coin).
  { intros E. rewrite E, String.eqb_refl in H1. discriminate H1. }
  pose proof (wf_matrix _ Hs _ _ Hl Hc Hne) as Hm.
  destruct (rel_lookup (le_leader e) coin (md s)) as [r0|] eqn:Hr0; [|congruence].
  unfold same_direction. cbn [andb negb].
  destruct (_ || _); cbn [negb andb]; unfold bind; rewrite !get_relation_run;
    unfold rel_lookup in Hr0;
    destruct (lookup (le_leader e) (causalityMatrix (md s))) as [row|] eqn:Erow;
    try discriminate; rewrite Hr0; unfold modify; cbn [md snd fst];
    rewrite ?rel_lookup_set_leaderEvents, ?rel_lookup_set_stats, rel_lookup_set, Erow,
      String.eqb_refl, andb_true_r; simpl_md; rewrite ?set_relation_stats;
    rewrite (String.eqb_sym (le_leader e) L);
    destruct (String.eqb L (le_leader e)) eqn:EL.
  - apply String.eqb_eq in EL. subst L. unfold rel_lookup in Hrel. rewrite Erow, Hr0 in Hrel.
    injection Hrel as <-. eexists; split; [reflexivity|]. cbn. repeat split; lia.
  - exists rel. split; [exact Hrel|]. cbn. repeat split; lia.
  - apply String.eqb_eq in EL. subst L. unfold rel_lookup in Hrel. rewrite Erow, Hr0 in Hrel.
    injection Hrel as <-. eexists; split; [reflexivity|]. cbn. repeat split; lia.
  - exists rel. split; [exact Hrel|]. cbn. repeat split; lia.
Qed.

Lemma forEach_follow_counts coin cp ts L evs : forall i s rel,
  wf (md s) -> In coin COINS -> (forall e, In e evs -> In (le_leader e) COINS) ->
  rel_lookup L coin (md s) = Some rel ->
  exists rel', rel_lookup L coin (md (snd (forEach_follow coin cp ts i evs s))) = Some rel' /\
    successfulFollows rel' = successfulFollows rel + count_success L coin cp ts evs /\
    missedFollows rel' = missedFollows rel + count_miss L coin cp ts evs /\
    divergenceEvents (stats (md (snd (forEach_follow coin cp ts i evs s)))) =
      divergenceEvents (stats (md s)) + count_divergence coin cp ts evs.
Proof.
  induction evs as [|e r IH]; intros i s rel Hs Hc Hl Hrel.
  - exists rel. cbn. repeat split; auto; lia.
  - cbn [forEach_follow]. unfold bind.
    assert (Hle : In (le_leader e) COINS) by (apply Hl; left; reflexivity).
    pose proof (follow_one_runs coin cp ts i e s Hs Hc Hle) as H1.
    pose proof (follow_one_wf coin cp ts i e s Hs) as H2.
    pose proof (follow_one_counts coin cp ts i e s L rel Hs Hc Hle Hrel) as H3.
    destruct (follow_one coin cp ts i e s) as [o s1]. cbn [fst snd] in H1, H2, H3. subst o.
    destruct H3 as [rel1 [Hr1 [Hs1 [Hm1 Hd1]]]].
    destruct (IH (S i) s1 rel1 H2 Hc (fun e' He' => Hl e' (or_intror He')) Hr1)
      as [rel2 [Hr2 [Hs2 [Hm2 Hd2]]]].
    exists rel2. split; [exact Hr2|].
    unfold count_success, count_miss, count_divergence in *. cbn [filter].
    destruct (String.eqb (le_leader e) L), (live_follow coin cp ts e), (same_direction cp e);
      cbn [andb negb length] in *; repeat split; lia.
Qed.

Lemma map_fst_assign {V} (k : string) (v : V) l :
  In k (map fst l) -> map fst (assign k v l) = map fst l.
Proof.
  induction l as [|[k0 v0] r IH]; simpl; [intros []|].
  intros H. destruct (String.eqb k k0) eqn:E; simpl.
  - apply String.eqb_eq in E; subst; reflexivity.
  - f_equal. apply IH. destruct H as [H|H]; [subst; rewrite String.eqb_refl in E; discriminate|exact H].
Qed.

Lemma keys_set_relation l f rel d :
  keys_ok d -> In f COINS -> l <> f -> keys_ok (set_relation l f rel d).
Proof.
  intros [Hp [Hh [Hm Hr]]] Hf Hne. unfold set_relation.
  destruct (lookup l (causalityMatrix d)) as [row|] eqn:E; [|exact (conj Hp (conj Hh (conj Hm Hr)))].
  assert (Hrow : map fst row = others l) by (apply Hr, lookup_In, E).
  assert (Hfr : In f (map fst row)).
  { rewrite Hrow. unfold others. apply filter_In. split; [exact Hf|].
    apply negb_true_iff, String.eqb_neq; exact Hne. }
  assert (Hl : In l (map fst (causalityMatrix d))) by (apply lookup_keys; congruence).
  unfold keys_ok; cbn [prices priceHistory causalityMatrix set_causalityMatrix]. refine (conj Hp (conj Hh (conj _ _))).
  - rewrite map_fst_assign by exact Hl. exact Hm.
  - intros l0 row0 Hin. apply In_assign in Hin. destruct Hin as [Hin|[-> ->]]; [apply Hr, Hin|].
    rewrite map_fst_assign by exact Hfr. exact Hrow.
Qed.

Lemma follow_one_frame (P : marketData -> Prop) coin cp ts i e :
  (forall d l rel, P d -> l <> coin -> P (set_relation l coin rel d)) ->
  (forall d evs, P d -> P (set_leaderEvents evs d)) ->
  (forall d, P d -> P (set_stats (incr_divergence (stats d)) d)) ->
  preserves P (follow_one coin cp ts i e).
Proof.
  intros Hr He Hd. unfold follow_one; cbv zeta.
  destruct (String.eqb (le_leader e) coin) eqn:En; cbn [negb]; [apply ret_preserves|].
  apply String.eqb_neq in En.
  destruct (_ && _); [|apply ret_preserves].
  destruct (_ || _); (apply bind_preserves; [apply get_relation_preserves|intros rel]);
    (apply bind_preserves; [|intros _]); apply modify_preserves; auto.
Qed.

Lemma ticker_tail_frame_coin (P : marketData -> Prop) coin p pc cp now :
  (forall d l rel, P d -> l <> coin -> P (set_relation l coin rel d)) ->
  (forall d evs, P d -> P (set_leaderEvents evs d)) ->
  (forall d, P d -> P (set_stats (incr_divergence (stats d)) d)) ->
  (forall d, P d -> P (set_stats (incr_ticks (stats d)) d)) ->
  preserves P (ticker_tail coin p pc cp now).
Proof.
  intros Hr He Hd Ht. unfold ticker_tail.
  apply bind_preserves; [|intros _].
  { unfold detect_leader. destruct (nge _ _); [|apply ret_preserves].
    apply bind_preserves; [|intros _]; apply modify_preserves; auto. }
  apply bind_preserves; [apply gets_preserves|intros evs].
  apply bind_preserves; [apply forEach_follow_preserves; intros; apply follow_one_frame; auto|intros _].
  apply bind_preserves; [apply modify_preserves; auto|intros _].
  apply modify_pending_preserves.
Qed.

(** Every tick leaves the state as [processTickerUpdate_eq] shows, so a
    property kept by the price and history updates of a configured coin
    and by the code after them is kept by every step. *)
Lemma step_frame (P : marketData -> Prop) s ev :
  (forall t, preserves P (processTickerUpdate t (match ev with Message _ n => n | Broadcast => 0%Z end))) ->
  P (md s) -> P (md (step s ev)).
Proof.
  intros Ht Hs. destruct ev as [[|t] now|]; cbn [step onMessage]; [exact Hs| |].
  - destruct (t_type t) as [ty|]; [|exact Hs].
    destruct (String.eqb ty "ticker"); [apply Ht; exact Hs|exact Hs].
  - unfold flushPending. destruct (pendingUpdates s); exact Hs.
Qed.

Lemma map_fst_assign_new {V} (k : string) (v : V) l :
  ~ In k (map fst l) -> map fst (assign k v l) = map fst l ++ [k].
Proof.
  induction l as [|[k0 v0] r IH]; simpl; [reflexivity|].
  intros H. destruct (String.eqb k k0) eqn:E.
  - apply String.eqb_eq in E; subst. exfalso; apply H; left; reflexivity.
  - simpl. f_equal. apply IH. intros H'; apply H; right; exact H'.
Qed.

Lemma prices_keys_assign k v (ps : list (string * priceState)) :
  (exists extra, map fst ps = COINS ++ extra) ->
  exists extra, map fst (assign k v ps) = COINS ++ extra.
Proof.
  intros [ex Hex]. destruct (in_dec string_dec k (map fst ps)) as [Hin|Hin].
  - exists ex. rewrite map_fst_assign by exact Hin. exact Hex.
  - exists (ex ++ [k]). rewrite map_fst_assign_new by exact Hin. rewrite Hex, app_assoc. reflexivity.
Qed.

Lemma keys_after_price c ps d :
  (exists extra, map fst (prices d) = COINS ++ extra) ->
  exists extra, map fst (prices (after_price c ps d)) = COINS ++ extra.
Proof.
  unfold after_price, set_price_entry. destruct (String.eqb c "__proto__"); simpl_md;
    [auto|apply prices_keys_assign].
Qed.

Lemma processTickerUpdate_keys t now : preserves keys_ok (processTickerUpdate t now).
Proof.
  intros s Hs. rewrite processTickerUpdate_eq.
  destruct (price_field (coin_key t) (md s)) as [old|]; [|exact Hs].
  destruct Hs as [Hp [Hh [Hm Hr]]].
  cbv zeta. destruct (compute_change old _) as [pc cp].
  destruct (after_price_frame (coin_key t) (mkPriceState (parseFloat_field (t_price t)) pc cp now)
              (md s)) as [E1 [E2 [E3 E4]]].
  pose proof (keys_after_price (coin_key t) (mkPriceState (parseFloat_field (t_price t)) pc cp now)
                (md s) Hp) as Hp'.
  destruct (lookup (coin_key t) (priceHistory (md s))) as [h|] eqn:Hh0.
  - assert (Hc : In (coin_key t) COINS) by (rewrite <- Hh; apply lookup_keys; congruence).
    apply ticker_tail_frame_coin.
    + intros d l rel Hd Hne. apply keys_set_relation; auto.
    + intros d evs Hd; exact Hd.
    + intros d Hd; exact Hd.
    + intros d Hd; exact Hd.
    + cbn [md]. unfold after_history. refine (conj _ (conj _ (conj _ _))); simpl_md;
        rewrite ?E3; [exact Hp'| |exact Hm|exact Hr].
      rewrite E1, map_fst_assign; [exact Hh|rewrite Hh; exact Hc].
  - cbn [snd md]. refine (conj Hp' (conj _ (conj _ _))); rewrite ?E1, ?E3; assumption.
Qed.

Lemma step_keys s ev : keys_ok (md s) -> keys_ok (md (step s ev)).
Proof. apply step_frame. intros; apply processTickerUpdate_keys. Qed.

Lemma keys_ok_b_sound d : keys_ok_b d = true -> keys_ok d.
Proof.
  unfold keys_ok_b. intros H. apply andb_prop in H as [H H4]. apply andb_prop in H as [H H3].
  apply andb_prop in H as [H1 H2].
  destruct (list_eq_dec string_dec (firstn (length COINS) (map fst (prices d))) COINS);
    [|discriminate].
  destruct (list_eq_dec string_dec (map fst (priceHistory d)) COINS); [|discriminate].
  destruct (list_eq_dec string_dec (map fst (causalityMatrix d)) COINS); [|discriminate].
  refine (conj _ (conj e0 (conj e1 _))).
  { exists (skipn (length COINS) (map fst (prices d))).
    transitivity (firstn (length COINS) (map fst (prices d)) ++
                  skipn (length COINS) (map fst (prices d)));
      [symmetry; apply firstn_skipn|rewrite e; reflexivity]. }
  intros l row Hin. rewrite forallb_forall in H4. specialize (H4 _ Hin). cbv beta iota in H4.
  destruct (list_eq_dec string_dec (map fst row) (others l)); [exact e2|discriminate].
Qed.

Lemma keys_init t0 : keys_ok (md (init_server t0)).
Proof.
  rewrite init_md. apply keys_ok_b_sound. vm_compute. reflexivity.
Qed.

Lemma reachable_keys s : reachable s -> keys_ok (md s).
Proof. induction 1; [apply keys_init|apply step_keys; assumption]. Qed.

Lemma bind_md_only {A B} (m : M A) (k : A -> M B) :
  md_only m -> (forall a, md_only (k a)) -> md_only (bind m k).
Proof.
  intros Hm Hk s. unfold bind. specialize (Hm s).
  destruct (m s) as [[a|] s']; cbn [snd] in *; [rewrite Hk|]; exact Hm.
Qed.

Lemma follow_one_md_only coin cp ts i e : md_only (follow_one coin cp ts i e).
Proof.
  intros s. unfold follow_one; cbv zeta.
  destruct (negb _); [|reflexivity]. destruct (_ && _); [|reflexivity].
  destruct (_ || _); unfold bind; rewrite get_relation_run;
    destruct (lookup _ (causalityMatrix (md s))); try reflexivity;
    destruct (lookup coin _); reflexivity.
Qed.

Lemma forEach_follow_md_only coin cp ts evs : forall i, md_only (forEach_follow coin cp ts i evs).
Proof.
  induction evs as [|e r IH]; intros i; [intros s; reflexivity|].
  cbn [forEach_follow]. apply bind_md_only; [apply follow_one_md_only|intros _; apply IH].
Qed.

Lemma detect_leader_md_only coin p cp ts : md_only (detect_leader coin p cp ts).
Proof. intros s. unfold detect_leader. destruct (nge _ _); reflexivity. Qed.

Lemma ticker_tail_unfold coin p pc cp now s : wf (md s) -> In coin COINS ->
  let s1 := snd (detect_leader coin p cp now s) in
  let s2 := snd (forEach_follow coin cp now 0 (leaderEvents (md s1)) s1) in
  ticker_tail coin p pc cp now s =
  (Some tt, mkServer (set_stats (incr_ticks (stats (md s2))) (md s2))
                     (assign coin (mkPriceState p pc cp now) (pendingUpdates s))).
Proof.
  intros Hs Hc. cbv zeta. unfold ticker_tail, bind at 1.
  pose proof (detect_leader_runs coin p cp now s) as H1.
  pose proof (detect_leader_wf coin p cp now Hc s Hs) as H2.
  pose proof (detect_leader_md_only coin p cp now s) as H3.
  destruct (detect_leader coin p cp now s) as [o s1]. cbn [fst snd] in H1, H2, H3 |- *. subst o.
  unfold bind, gets.
  pose proof (forEach_follow_runs coin cp now (leaderEvents (md s1)) 0 s1 H2 Hc
                (wf_leaders _ H2)) as H4.
  pose proof (forEach_follow_md_only coin cp now (leaderEvents (md s1)) 0 s1) as H5.
  destruct (forEach_follow coin cp now 0 (leaderEvents (md s1)) s1) as [o2 s2].
  cbn [fst snd] in H4, H5 |- *. subst o2. unfold modify, modify_pending. cbn.
  rewrite H5, H3. reflexivity.
Qed.

Lemma ticker_tail_ticks coin p pc cp now s : wf (md s) -> In coin COINS ->
  totalTicks (stats (md (snd (ticker_tail coin p pc cp now s)))) = S (totalTicks (stats (md s))) /\
  pendingUpdates (snd (ticker_tail coin p pc cp now s)) =
    assign coin (mkPriceState p pc cp now) (pendingUpdates s).
Proof.
  intros Hs Hc. rewrite (ticker_tail_unfold coin p pc cp now s Hs Hc). cbn. split; [|reflexivity].
  f_equal.
  set (P := fun d => totalTicks (stats d) = totalTicks (stats (md s))).
  assert (H1 : P (md (snd (detect_leader coin p cp now s)))).
  { unfold detect_leader. destruct (nge _ _); reflexivity. }
  refine (forEach_follow_preserves P coin cp now _ _ 0 _ H1).
  intros i e. apply follow_one_frame; unfold P.
  - intros d l rel Hd _. rewrite set_relation_stats. exact Hd.
  - intros d evs Hd. exact Hd.
  - intros d Hd. exact Hd.
Qed.

Lemma processTickerUpdate_startTime t now t0 :
  preserves (fun d => startTime (stats d) = t0) (processTickerUpdate t now).
Proof.
  intros s Hs. rewrite processTickerUpdate_eq.
  destruct (price_field (coin_key t) (md s)) as [old|]; [|exact Hs].
  cbv zeta. destruct (compute_change old _) as [pc cp].
  destruct (after_price_frame (coin_key t) (mkPriceState (parseFloat_field (t_price t)) pc cp now)
              (md s)) as [_ [_ [_ E4]]].
  destruct (lookup (coin_key t) (priceHistory (md s))) as [h|];
    [|cbn [snd md]; rewrite E4; exact Hs].
  apply ticker_tail_frame_coin; [| | | |cbn [md]; unfold after_history; simpl_md; rewrite E4; exact Hs].
  - intros d l rel Hd _. rewrite set_relation_stats. exact Hd.
  - intros d evs Hd. exact Hd.
  - intros d Hd. exact Hd.
  - intros d Hd. exact Hd.
Qed.

Lemma existsb_COINS c : existsb (String.eqb c) COINS = true <-> In c COINS.
Proof.
  rewrite existsb_exists. split.
  - intros [x [Hx E]]. apply String.eqb_eq in E. subst; exact Hx.
  - intros H. exists c. split; [exact H|apply String.eqb_refl].
Qed.

Lemma step_ticks s ev : wf (md s) -> hist_keys (md s) ->
  totalTicks (stats (md (step s ev))) = totalTicks (stats (md s)) + (if counted ev then 1 else 0).
Proof.
  intros Hs Hk. destruct ev as [[|t] now|]; cbn [step onMessage counted].
  - lia.
  - destruct (t_type t) as [ty|]; [|lia].
    destruct (String.eqb ty "ticker"); cbn [andb]; [|lia].
    destruct (existsb (String.eqb (coin_key t)) COINS) eqn:Ec.
    + apply existsb_COINS in Ec. rewrite processTickerUpdate_eq.
      destruct (lookup (coin_key t) (prices (md s))) as [old|] eqn:Hold;
        [|exfalso; exact (wf_prices _ Hs _ Ec Hold)].
      rewrite (price_field_own _ _ _ Ec Hold).
      cbv zeta. destruct (compute_change _ _) as [pc cp].
      destruct (lookup (coin_key t) (priceHistory (md s))) as [h|] eqn:Hh;
        [|exfalso; exact (wf_history _ Hs _ Ec Hh)].
      match goal with |- context [ticker_tail ?c ?p ?pc ?cp ?n ?s'] =>
        rewrite (proj1 (ticker_tail_ticks c p pc cp n s' (wf_after_tick _ _ _ _ _ Hs Ec) Ec)) end.
      cbn [md]. unfold after_history. rewrite (after_price_coin _ _ _ Ec). simpl_md. lia.
    + rewrite processTickerUpdate_eq.
      destruct (price_field (coin_key t) (md s)) as [old|]; [|cbn; lia].
      cbv zeta. destruct (compute_change old _) as [pc cp].
      destruct (lookup (coin_key t) (priceHistory (md s))) as [h|] eqn:Hh.
      * exfalso. assert (Hin : In (coin_key t) COINS) by (apply Hk; congruence).
        apply existsb_COINS in Hin. congruence.
      * cbn [snd md]. rewrite (proj2 (proj2 (proj2 (after_price_frame _ _ _)))). lia.
  - unfold flushPending. destruct (pendingUpdates s); cbn; lia.
Qed.

Lemma run_ticks evs : forall s, reachable s ->
  totalTicks (stats (md (run evs s))) = totalTicks (stats (md s)) + length (filter counted evs).
Proof.
  induction evs as [|ev r IH]; intros s Hs; cbn [run fold_left filter length]; [lia|].
  change (fold_left step r (step s ev)) with (run r (step s ev)).
  rewrite (IH _ (reach_step s ev Hs)),
    (step_ticks s ev (reachable_wf s Hs) (reachable_hist_keys s Hs)).
  destruct (counted ev); cbn [length]; lia.
Qed.

Lemma run_startTime evs : forall s,
  startTime (stats (md (run evs s))) = startTime (stats (md s)).
Proof.
  induction evs as [|ev r IH]; intros s; [reflexivity|].
  change (run (ev :: r) s) with (run r (step s ev)). rewrite IH.
  apply (step_frame (fun d => startTime (stats d) = startTime (stats (md s)))); [|reflexivity].
  intros t. apply processTickerUpdate_startTime.
Qed.

Ltac use_tail_ticks Hs Hc :=
  match goal with |- context [ticker_tail ?c ?p ?pc ?cp ?n ?s'] =>
    pose proof (ticker_tail_ticks c p pc cp n s' (wf_after_tick _ _ _ _ _ Hs Hc) Hc) end.

(** A ticker for an unconfigured coin throws, after at most writing its
    price entry (an inherited name); one for a configured coin replaces its
    price state and queues the same state. *)
Lemma processTickerUpdate_effect t now s : wf (md s) -> hist_keys (md s) ->
  (~ In (coin_key t) COINS /\
   (snd (processTickerUpdate t now s) = s \/
    exists ps, snd (processTickerUpdate t now s) =
               mkServer (after_price (coin_key t) ps (md s)) (pendingUpdates s))) \/
  (In (coin_key t) COINS /\
   exists ps, pendingUpdates (snd (processTickerUpdate t now s)) = assign (coin_key t) ps (pendingUpdates s) /\
              prices (md (snd (processTickerUpdate t now s))) = assign (coin_key t) ps (prices (md s))).
Proof.
  intros Hs Hk. destruct (in_dec string_dec (coin_key t) COINS) as [Hc|Hc].
  - right. split; [exact Hc|]. rewrite processTickerUpdate_eq.
    destruct (lookup (coin_key t) (prices (md s))) as [old|] eqn:Hold;
      [|exfalso; exact (wf_prices _ Hs _ Hc Hold)].
    rewrite (price_field_own _ _ _ Hc Hold).
    cbv zeta. destruct (compute_change _ _) as [pc cp].
    destruct (lookup (coin_key t) (priceHistory (md s))) as [h|] eqn:Hh;
      [|exfalso; exact (wf_history _ Hs _ Hc Hh)].
    use_tail_ticks Hs Hc. eexists. split; [apply (proj2 H)|].
    rewrite ticker_tail_prices. cbn [md]. unfold after_history.
    rewrite (after_price_coin _ _ _ Hc). simpl_md. reflexivity.
  - left. split; [exact Hc|]. rewrite processTickerUpdate_eq.
    destruct (price_field (coin_key t) (md s)) as [old|]; [|left; reflexivity].
    cbv zeta. destruct (compute_change old _) as [pc cp].
    destruct (lookup (coin_key t) (priceHistory (md s))) as [h|] eqn:Hh;
      [exfalso; apply Hc, Hk; congruence|].
    right. eexists. reflexivity.
Qed.

Lemma step_pending_ok s ev : wf (md s) -> hist_keys (md s) -> pending_ok s -> pending_ok (step s ev).
Proof.
  intros Hs Hk Hp. destruct ev as [[|t] now|]; cbn [step onMessage]; [exact Hp| |].
  - destruct (t_type t) as [ty|]; [|exact Hp].
    destruct (String.eqb ty "ticker"); [|exact Hp].
    destruct (processTickerUpdate_effect t now s Hs Hk) as [[Hc [E|[ps E]]]|[Hc [ps [E1 E2]]]].
    + rewrite E; exact Hp.
    + rewrite E. intros c v Hv. cbn [pendingUpdates md] in Hv |- *.
      destruct (Hp c v Hv) as [Hc' Hl]. split; [exact Hc'|].
      unfold after_price, set_price_entry.
      destruct (String.eqb (coin_key t) "__proto__"); simpl_md; [exact Hl|].
      rewrite lookup_assign. destruct (String.eqb c (coin_key t)) eqn:Ec; [|exact Hl].
      apply String.eqb_eq in Ec; subst c. contradiction.
    + intros c v. rewrite E1, E2, !lookup_assign.
      destruct (String.eqb c (coin_key t)) eqn:Ec; [|apply Hp].
      apply String.eqb_eq in Ec; subst c. intros H; split; [exact Hc|exact H].
  - unfold flushPending. destruct (pendingUpdates s) eqn:E; [exact Hp|].
    intros c v H. discriminate H.
Qed.

Lemma reachable_pending_ok s : reachable s -> pending_ok s.
Proof.
  induction 1 as [t0|s ev Hr IH]; [intros c v H; discriminate H|].
  apply step_pending_ok; [apply reachable_wf|apply reachable_hist_keys|]; assumption.
Qed.

Lemma message_keeps_pending s m now c : reachable s ->
  lookup c (pendingUpdates s) <> None -> lookup c (pendingUpdates (step s (Message m now))) <> None.
Proof.
  intros Hr H. destruct m as [|t]; cbn [step onMessage]; [exact H|].
  destruct (t_type t) as [ty|]; [|exact H].
  destruct (String.eqb ty "ticker"); [|exact H].
  destruct (processTickerUpdate_effect t now s (reachable_wf s Hr) (reachable_hist_keys s Hr))
    as [[_ [E|[ps E]]]|[_ [ps [E1 _]]]]; [rewrite E; exact H|rewrite E; exact H|].
  rewrite E1. apply lookup_assign_some, H.
Qed.

Lemma tick_pending s c p now : reachable s -> In c COINS ->
  lookup c (pendingUpdates (step s (tick c p now))) <> None.
Proof.
  intros Hr Hc. unfold tick. cbn [step onMessage t_type]. rewrite String.eqb_refl.
  destruct (processTickerUpdate_effect (mkTicker (Some "ticker") (Some c) (Some p)) now s
              (reachable_wf s Hr) (reachable_hist_keys s Hr))
    as [[Hn _]|[_ [ps [E1 _]]]]; [contradiction|].
  rewrite E1. cbn [coin_key product_id]. rewrite lookup_assign, String.eqb_refl. discriminate.
Qed.

Lemma run_messages_keep_pending c evs : forall s,
  reachable s -> (forall ev, In ev evs -> ev <> Broadcast) ->
  lookup c (pendingUpdates s) <> None -> lookup c (pendingUpdates (run evs s)) <> None.
Proof.
  induction evs as [|ev r IH]; intros s Hs Hb H; [exact H|].
  change (run (ev :: r) s) with (run r (step s ev)).
  apply IH; [apply reach_step, Hs|intros ev' Hin; apply Hb; right; exact Hin|].
  destruct ev as [m now|]; [apply message_keeps_pending; assumption|].
  exfalso. apply (Hb Broadcast); [left|]; reflexivity.
Qed.

Lemma batch_update_some now s c : lookup c (pendingUpdates s) <> None ->
  exists u, batch_update now s = Some u /\ bu_updates u = pendingUpdates s.
Proof.
  unfold batch_update. destruct (pendingUpdates s) as [|x r]; [intros H; exfalso; apply H; reflexivity|].
  intros _. eexists; split; reflexivity.
Qed.

Lemma skipn_lastn {A} n (l : list A) : skipn (length l - n) l = lastn n l.
Proof. unfold lastn. rewrite firstn_rev, rev_involutive. reflexivity. Qed.

Lemma lastn_lastn {A} n m (l : list A) : n <= m -> lastn n (lastn m l) = lastn n l.
Proof.
  intros H. unfold lastn. rewrite rev_involutive, firstn_firstn, Nat.min_l by exact H.
  reflexivity.
Qed.

Lemma lookup_not_key {V} (k : string) (l : list (string * V)) :
  ~ In k (map fst l) -> lookup k l = None.
Proof.
  intros H. destruct (lookup k l) eqn:E; [|reflexivity].
  exfalso. apply H, lookup_keys. congruence.
Qed.

Lemma NoDup_COINS : NoDup COINS.
Proof. unfold COINS. repeat constructor; cbn; intuition discriminate. Qed.

Lemma snapshot_row_lookup f row : forall acc, NoDup (map fst row) ->
  lookup f (fold_left (fun acc '(follower, rel) =>
                        if 0 <? successfulFollows rel then
                          assign follower (mkSnapEntry (followRate rel) (avgLag rel)
                                             (avgMagnitude rel) (List.length (lagTimes rel))) acc
                        else acc) row acc) =
  match lookup f row with
  | Some rel => if 0 <? successfulFollows rel then Some (snap_of rel) else lookup f acc
  | None => lookup f acc
  end.
Proof.
  induction row as [|[f0 rel0] row IH]; intros acc Hnd; [reflexivity|].
  cbn [fold_left lookup]. inversion Hnd as [|? ? Hn Hnd']; subst.
  rewrite IH by exact Hnd'.
  destruct (String.eqb f f0) eqn:E.
  - apply String.eqb_eq in E; subst f0.
    rewrite (lookup_not_key f row Hn).
    destruct (0 <? successfulFollows rel0); [rewrite lookup_assign, String.eqb_refl|]; reflexivity.
  - destruct (lookup f row) as [rel|];
      [destruct (0 <? successfulFollows rel); [reflexivity|]|];
      destruct (0 <? successfulFollows rel0); rewrite ?lookup_assign, ?E; reflexivity.
Qed.

Lemma lookup_map_row {A B} (g : A -> B) (l : string) (m : list (string * A)) :
  lookup l (map (fun '(k, row) => (k, g row)) m) = option_map g (lookup l m).
Proof.
  induction m as [|[k row] m IH]; [reflexivity|]. cbn. destruct (String.eqb l k); [reflexivity|exact IH].
Qed.

Lemma event_ok_strip a b : strip a = strip b -> event_ok a -> event_ok b.
Proof.
  unfold strip, event_ok. intros H. injection H as _ _ _ Hc Hd. rewrite <- Hc, <- Hd. exact (fun x => x).
Qed.

Lemma Forall_strip (l1 l2 : list leaderEvent) :
  map strip l1 = map strip l2 -> Forall event_ok l1 -> Forall event_ok l2.
Proof.
  revert l2; induction l1 as [|a l1 IH]; intros [|b l2] H Hf; try discriminate; [constructor|].
  pose proof (f_equal (hd (strip a)) H) as Hab. pose proof (f_equal (@tl _) H) as Hl.
  cbn [hd tl map] in Hab, Hl. inversion Hf; subst.
  constructor; [apply (event_ok_strip a b Hab); assumption|apply IH; assumption].
Qed.

Lemma new_event_ok coin p cp now :
  nge (nabs cp) MOVE_THRESHOLD = true -> event_ok (new_leader_event coin p cp now).
Proof.
  destruct cp as [q|]; [|discriminate]. unfold nge, nabs, MOVE_THRESHOLD. intros H.
  apply Qle_bool_iff in H. exists q. cbn [le_changePercent le_direction new_leader_event].
  split; [reflexivity|split; [exact H|]]. unfold ngt, nlt. split; intros Hq.
  - destruct (Qle_bool q 0) eqn:E; [|reflexivity].
    apply Qle_bool_iff in E. exfalso. exact (Qlt_not_le _ _ Hq E).
  - destruct (Qle_bool q 0) eqn:E; [reflexivity|].
    exfalso. assert (Hle : (q <= 0)%Q) by (apply Qlt_le_weak, Hq).
    apply Qle_bool_iff in Hle. congruence.
Qed.

Lemma processTickerUpdate_events_ok t now :
  preserves (fun d => Forall event_ok (leaderEvents d)) (processTickerUpdate t now).
Proof.
  intros s Hs. rewrite processTickerUpdate_eq.
  destruct (price_field (coin_key t) (md s)) as [old|]; [|exact Hs].
  cbv zeta. destruct (compute_change old _) as [pc cp].
  destruct (after_price_frame (coin_key t) (mkPriceState (parseFloat_field (t_price t)) pc cp now)
              (md s)) as [_ [E2 _]].
  destruct (lookup (coin_key t) (priceHistory (md s))) as [h|]; [|cbn [snd md]; rewrite E2; exact Hs].
  match goal with |- Forall event_ok (leaderEvents (md (snd (ticker_tail ?c ?p ?pc ?cp ?n ?s')))) =>
    pose proof (ticker_tail_events c p pc cp n s') as E end.
  symmetry in E. refine (Forall_strip _ _ E _). cbn [md] in *. unfold after_history. simpl_md.
  rewrite E2.
  destruct (nge (nabs cp) MOVE_THRESHOLD) eqn:Hm; [|exact Hs].
  apply Forall_forall. intros e He. apply filter_In in He as [He _].
  apply in_app_or in He. destruct He as [He|[<-|[]]].
  - rewrite Forall_forall in Hs. apply Hs, He.
  - apply new_event_ok, Hm.
Qed.

Lemma reachable_events_ok s : reachable s -> Forall event_ok (leaderEvents (md s)).
Proof.
  induction 1 as [t0|s ev Hr IH]; [constructor|].
  apply step_frame; [intros t; apply processTickerUpdate_events_ok|exact IH].
Qed.

Lemma rel_all_set_relation R l f rel d :
  rel_all R d -> R rel -> rel_all R (set_relation l f rel d).
Proof.
  intros Hd Hr. unfold set_relation.
  destruct (lookup l (causalityMatrix d)) as [row|] eqn:E; [|exact Hd].
  intros l0 row0 f0 rel0 Hin1 Hin2. simpl_md.
  apply In_assign in Hin1. destruct Hin1 as [Hin1|[-> ->]]; [eapply Hd; eauto|].
  apply In_assign in Hin2. destruct Hin2 as [Hin2|[-> ->]]; [|exact Hr].
  eapply Hd; [apply lookup_In, E|exact Hin2].
Qed.

Lemma rel_all_lookup R d l c rel : rel_all R d -> rel_lookup l c d = Some rel -> R rel.
Proof.
  unfold rel_lookup. intros Hd H.
  destruct (lookup l (causalityMatrix d)) as [row|] eqn:E; [|discriminate].
  eapply Hd; [apply lookup_In, E|apply lookup_In, H].
Qed.

Lemma same_direction_ratio cp lcp :
  (ngt cp (Fin 0) && ngt lcp (Fin 0)) || (nlt cp (Fin 0) && nlt lcp (Fin 0)) = true ->
  exists q, nabs (ndiv cp lcp) = Fin q /\ (0 < q)%Q.
Proof.
  destruct cp as [x|], lcp as [y|]; cbn; try (rewrite ?andb_false_r; discriminate).
  intros H.
  assert (Hxy : (0 < x /\ 0 < y)%Q \/ (x < 0 /\ y < 0)%Q).
  { assert (Hn : forall a b, negb (Qle_bool a b) = true -> (b < a)%Q).
    { intros a b E. apply negb_true_iff in E. apply Qnot_le_lt. intros F.
      apply Qle_bool_iff in F. congruence. }
    apply orb_true_iff in H. destruct H as [H|H]; apply andb_prop in H as [H1 H2];
      [left|right]; split; apply Hn; assumption. }
  assert (Hx : (0 < Qabs x)%Q /\ (0 < Qabs y)%Q /\ Qeq_bool y 0 = false).
  { destruct Hxy as [[Hx Hy]|[Hx Hy]].
    - split; [apply Qabs_gt, Hx|split; [apply Qabs_gt, Hy|]].
      destruct (Qeq_bool y 0) eqn:E; [|reflexivity]. apply Qeq_bool_iff in E.
      rewrite E in Hy. discriminate Hy.
    - assert (Hx' : (0 < - x)%Q) by (apply Qopp_lt_compat in Hx; exact Hx).
      assert (Hy' : (0 < - y)%Q) by (apply Qopp_lt_compat in Hy; exact Hy).
      split; [rewrite <- Qabs_opp; apply Qabs_gt, Hx'|split; [rewrite <- Qabs_opp; apply Qabs_gt, Hy'|]].
      destruct (Qeq_bool y 0) eqn:E; [|reflexivity]. apply Qeq_bool_iff in E.
      rewrite E in Hy. discriminate Hy. }
  destruct Hx as [Hx [Hy E]]. unfold ndiv, nabs. rewrite E. eexists; split; [reflexivity|].
  unfold Qdiv. rewrite Qabs_Qmult, Qabs_Qinv. apply Qmult_lt_0_compat; [exact Hx|].
  apply Qinv_lt_0_compat, Hy.
Qed.

Lemma rel_good_success lag mr rel :
  rel_good rel -> (lag < LAG_WINDOW)%Z -> (exists q, mr = Fin q /\ (0 < q)%Q) ->
  rel_good (record_success lag mr rel).
Proof.
  intros [H1 [H2 [_ [_ _]]]] Hlag Hmr. unfold rel_good, record_success. cbn.
  split; [apply Forall_app; split; [exact H1|constructor; [exact Hlag|constructor]]|].
  split; [apply Forall_app; split; [exact H2|constructor; [exact Hmr|constructor]]|].
  split; [destruct (lagTimes rel ++ [lag]) eqn:E; [exfalso; apply (app_cons_not_nil _ _ _ (eq_sym E))|reflexivity]|].
  split; [destruct (magnitudeRatios rel ++ [mr]) eqn:E; [exfalso; apply (app_cons_not_nil _ _ _ (eq_sym E))|reflexivity]|].
  right. split; [lia|]. exists (missedFollows rel). split; reflexivity.
Qed.

Lemma rel_good_miss rel : rel_good rel -> rel_good (record_miss rel).
Proof.
  intros [H1 [H2 [H3 [H4 H5]]]]. unfold rel_good, record_miss; cbn.
  refine (conj H1 (conj H2 (conj H3 (conj H4 _)))).
  destruct H5 as [H5|[Hp [m [Hm E]]]]; [left; exact H5|right; split; [exact Hp|]].
  exists m. split; [lia|exact E].
Qed.

Lemma follow_one_rel_good coin cp ts i e : preserves (rel_all rel_good) (follow_one coin cp ts i e).
Proof.
  unfold follow_one; cbv zeta.
  destruct (negb (String.eqb (le_leader e) coin)); [|apply ret_preserves].
  destruct ((ts - le_timestamp e <? LAG_WINDOW)%Z && _) eqn:Hg; [|apply ret_preserves].
  apply andb_prop in Hg as [Hlag _]. apply Z.ltb_lt in Hlag.
  destruct (_ || _) eqn:Hd; (apply (get_relation_bind_preserves _ rel_good);
    [intros d rel Hdd Hl; apply (rel_all_lookup _ d _ _ _ Hdd Hl)|intros rel Hok]);
    (apply bind_preserves; [apply modify_preserves; intros d Hdd;
       apply rel_all_set_relation; [exact Hdd|]|intros _; apply modify_preserves; intros d Hdd; exact Hdd]).
  - apply rel_good_success; [exact Hok|exact Hlag|apply same_direction_ratio, Hd].
  - apply rel_good_miss, Hok.
Qed.

Lemma processTickerUpdate_rel_good t now : preserves (rel_all rel_good) (processTickerUpdate t now).
Proof.
  intros s Hs. rewrite processTickerUpdate_eq.
  destruct (price_field (coin_key t) (md s)) as [old|]; [|exact Hs].
  cbv zeta. destruct (compute_change old _) as [pc cp].
  destruct (after_price_frame (coin_key t) (mkPriceState (parseFloat_field (t_price t)) pc cp now)
              (md s)) as [_ [_ [E3 _]]].
  assert (Hs' : rel_all rel_good (after_price (coin_key t)
                  (mkPriceState (parseFloat_field (t_price t)) pc cp now) (md s)))
    by (unfold rel_all in *; rewrite E3; exact Hs).
  destruct (lookup (coin_key t) (priceHistory (md s))) as [h|]; [|exact Hs'].
  unfold ticker_tail.
  apply bind_preserves; [|intros _|exact Hs'].
  { unfold detect_leader. destruct (nge _ _); [|apply ret_preserves].
    apply bind_preserves; [|intros _]; apply modify_preserves; intros d Hd; exact Hd. }
  apply bind_preserves; [apply gets_preserves|intros evs].
  apply bind_preserves; [apply forEach_follow_preserves; intros; apply follow_one_rel_good|intros _].
  apply bind_preserves; [apply modify_preserves; intros d Hd; exact Hd|intros _].
  apply modify_pending_preserves.
Qed.

Lemma is_empty_rel_eq rel : is_empty_rel rel = true -> rel = empty_relation.
Proof.
  destruct rel as [lt mr sf mf al am fr]; destruct lt, mr, sf, mf; try discriminate;
  destruct al as [[[|p|p] [p'|p'|]]|], am as [[[|q|q] [q'|q'|]]|],
           fr as [[[|r|r] [r'|r'|]]|]; try discriminate; reflexivity.
Qed.

Lemma rel_good_init t0 : rel_all rel_good (md (init_server t0)).
Proof.
  rewrite init_md. set (d := md (init_server 0)).
  assert (Hb : forallb (fun lr => forallb (fun fr => is_empty_rel (snd fr)) (snd lr))
                 (causalityMatrix d) = true) by (vm_compute; reflexivity).
  intros l row f rel Hl Hf.
  change (In (l, row) (causalityMatrix d)) in Hl.
  rewrite forallb_forall in Hb. specialize (Hb _ Hl). cbn [snd] in Hb.
  rewrite forallb_forall in Hb. specialize (Hb _ Hf). cbn [snd] in Hb.
  rewrite (is_empty_rel_eq rel Hb). unfold rel_good, empty_relation; cbn.
  refine (conj (Forall_nil _) (conj (Forall_nil _) (conj eq_refl (conj eq_refl _)))).
  left; split; reflexivity.
Qed.

Lemma reachable_rel_good s : reachable s -> rel_all rel_good (md s).
Proof.
  induction 1 as [t0|s ev Hr IH]; [apply rel_good_init|].
  apply step_frame; [intros t; apply processTickerUpdate_rel_good|exact IH].
Qed.

Lemma rate_of_good rel : rel_good rel ->
  exists r, followRate rel = Fin r /\ (0 <= r <= 1)%Q /\
    (successfulFollows rel = 0 -> r = 0%Q) /\
    (0 < successfulFollows rel ->
       (0 < r)%Q /\ exists m, m <= missedFollows rel /\
         r = (inject_Z (Z.of_nat (successfulFollows rel)) /
              inject_Z (Z.of_nat (successfulFollows rel + m)))%Q).
Proof.
  intros [_ [_ [_ [_ [[Hz E]|[Hp [m [Hm E]]]]]]]].
  - exists 0%Q. rewrite E. split; [reflexivity|]. split; [split; discriminate|].
    split; [reflexivity|intros; lia].
  - set (sf := successfulFollows rel) in *.
    assert (Hd : Qeq_bool (inject_Z (Z.of_nat (sf + m))) 0 = false).
    { apply not_true_iff_false. intros F. apply Qeq_bool_eq in F.
      unfold Qeq in F; simpl in F. lia. }
    unfold ndiv, nat_num in E. rewrite Hd in E.
    set (r := (inject_Z (Z.of_nat sf) / inject_Z (Z.of_nat (sf + m)))%Q) in *.
    assert (Hpos : (0 < r)%Q).
    { unfold r, Qdiv. apply Qmult_lt_0_compat; [unfold Qlt; simpl; lia|].
      apply Qinv_lt_0_compat. unfold Qlt; simpl; lia. }
    exists r. split; [exact E|]. split; [split; [apply Qlt_le_weak, Hpos|]|].
    { unfold r. apply Qle_shift_div_r; [unfold Qlt; simpl; lia|].
      rewrite Qmult_1_l. unfold Qle; simpl; lia. }
    split; [intros; lia|]. intros _. split; [exact Hpos|]. exists m. split; [exact Hm|reflexivity].
Qed.

Lemma read_digits_cons c r d acc k : digit_val c = Some d ->
  read_digits digit_val 10 (String c r) acc k = read_digits digit_val 10 r (acc * 10 + d) (S k).
Proof. intros H. cbn [read_digits]. rewrite H. reflexivity. Qed.

Ltac digit_step := erewrite read_digits_cons by reflexivity;
  match goal with |- context [(?x * 10 + ?d)%Z] =>
    let d' := eval vm_compute in d in change d with d' end.

Lemma read_digits_uint_acc u : forall acc k,
  read_digits digit_val 10 (uint_to_string u) (Zpos acc) k =
  (Zpos (Pos.of_uint_acc u acc), k + Decimal.nb_digits u, "").
Proof.
  induction u as [|u IH|u IH|u IH|u IH|u IH|u IH|u IH|u IH|u IH|u IH]; intros acc k;
    cbn [uint_to_string Pos.of_uint_acc Decimal.nb_digits];
    [cbn; rewrite Nat.add_0_r; reflexivity|..];
    digit_step;
    match goal with |- read_digits _ _ _ ?a _ = (Z.pos (Pos.of_uint_acc _ ?e), _, _) =>
      replace a with (Z.pos e) by lia end;
    rewrite IH; f_equal; f_equal; lia.
Qed.

Lemma read_digits_uint u : forall k,
  read_digits digit_val 10 (uint_to_string u) 0 k =
  (Z.of_N (Pos.of_uint u), k + Decimal.nb_digits u, "").
Proof.
  induction u as [|u IH|u IH|u IH|u IH|u IH|u IH|u IH|u IH|u IH|u IH]; intros k;
    cbn [uint_to_string Pos.of_uint Decimal.nb_digits];
    [cbn; rewrite Nat.add_0_r; reflexivity|..];
    digit_step;
    [rewrite IH; f_equal; f_equal; lia|..];
    match goal with |- read_digits _ _ _ ?a _ = (Z.of_N (Npos (Pos.of_uint_acc _ ?e)), _, _) =>
      replace a with (Z.pos e) by lia end;
    rewrite read_digits_uint_acc; f_equal; f_equal; lia.
Qed.

Lemma parseInt_uint u : u <> Decimal.Nil ->
  parseInt (uint_to_string u) = Some (Z.of_N (Pos.of_uint u)).
Proof.
  intros Hn. destruct u as [|u|u|u|u|u|u|u|u|u|u]; [congruence|..];
  [destruct u as [|u|u|u|u|u|u|u|u|u|u]|..]; unfold parseInt; simpl.
  all: first [reflexivity
             | rewrite read_digits_uint; simpl; destruct (Pos.of_uint u); reflexivity
             | rewrite read_digits_uint_acc; reflexivity].
Qed.

Lemma parseInt_neg_uint u : u <> Decimal.Nil ->
  parseInt (String "-"%char (uint_to_string u)) = Some (- Z.of_N (Pos.of_uint u))%Z.
Proof.
  intros Hn. destruct u as [|u|u|u|u|u|u|u|u|u|u]; [congruence|..];
  [destruct u as [|u|u|u|u|u|u|u|u|u|u]|..]; unfold parseInt; simpl.
  all: first [reflexivity
             | rewrite read_digits_uint; simpl; destruct (Pos.of_uint u); reflexivity
             | rewrite read_digits_uint_acc; reflexivity].
Qed.

Lemma parseInt_Z_to_string z : parseInt (Z_to_string z) = Some z.
Proof.
  destruct z as [|p|p]; [reflexivity|..];
    pose proof (DecimalN.Unsigned.of_to (Npos p)) as Ho;
    assert (Hn : N.to_uint (Npos p) <> Decimal.Nil) by (intros E; rewrite E in Ho; discriminate).
  - unfold Z_to_string, N_to_string. rewrite (parseInt_uint _ Hn).
    change (N.of_uint (N.to_uint (Npos p))) with (Pos.of_uint (N.to_uint (Npos p))) in Ho.
    rewrite Ho. reflexivity.
  - unfold Z_to_string, N_to_string. rewrite (parseInt_neg_uint _ Hn).
    change (N.of_uint (N.to_uint (Npos p))) with (Pos.of_uint (N.to_uint (Npos p))) in Ho.
    rewrite Ho. reflexivity.
Qed.

Section RemoveFacts.

Context {V : Type}.

Lemma lookup_remove_key (k k' : string) (l : list (string * V)) :
  lookup k (remove_key k' l) = if String.eqb k k' then None else lookup k l.
Proof.
  induction l as [|[k0 v0] r IH]; simpl.
  - destruct (String.eqb k k'); reflexivity.
  - destruct (String.eqb k' k0) eqn:E1.
    + apply String.eqb_eq in E1; subst k0. rewrite IH.
      destruct (String.eqb k k'); reflexivity.
    + simpl. rewrite IH.
      destruct (String.eqb k k0) eqn:E2; [|reflexivity].
      apply String.eqb_eq in E2; subst k0.
      destruct (String.eqb k k') eqn:E3; [|reflexivity].
      apply String.eqb_eq in E3; subst k'.
      rewrite String.eqb_refl in E1; discriminate.
Qed.

Lemma keys_assign (k k' : string) (v : V) (l : list (string * V)) :
  In k (map fst (assign k' v l)) -> k = k' \/ In k (map fst l).
Proof.
  induction l as [|[k0 v0] r IH]; simpl.
  - intros [H|[]]. left; symmetry; exact H.
  - destruct (String.eqb k' k0) eqn:E; simpl.
    + apply String.eqb_eq in E; subst k0. intros [H|H]; [left; symmetry; exact H|right; right; exact H].
    + intros [H|H]; [right; left; exact H|]. destruct (IH H) as [H'|H']; [left; exact H'|right; right; exact H'].
Qed.

Lemma NoDup_assign (k : string) (v : V) (l : list (string * V)) :
  NoDup (map fst l) -> NoDup (map fst (assign k v l)).
Proof.
  induction l as [|[k0 v0] r IH]; simpl; intros Hn.
  - constructor; [intros []|constructor].
  - inversion Hn as [|? ? Hni Hnr]; subst.
    destruct (String.eqb k k0) eqn:E; simpl.
    + apply String.eqb_eq in E; subst k0. constructor; assumption.
    + constructor; [|apply IH, Hnr].
      intros Hin. apply keys_assign in Hin. destruct Hin as [->|Hin]; [|contradiction].
      rewrite String.eqb_refl in E; discriminate.
Qed.

Lemma keys_remove_key (k k' : string) (l : list (string * V)) :
  In k (map fst (remove_key k' l)) -> In k (map fst l).
Proof.
  induction l as [|[k0 v0] r IH]; simpl; [intros []|].
  destruct (String.eqb k' k0); simpl; [intros H; right; apply IH, H|].
  intros [H|H]; [left; exact H|right; apply IH, H].
Qed.

Lemma NoDup_remove_key (k : string) (l : list (string * V)) :
  NoDup (map fst l) -> NoDup (map fst (remove_key k l)).
Proof.
  induction l as [|[k0 v0] r IH]; simpl; intros Hn; [constructor|].
  inversion Hn as [|? ? Hni Hnr]; subst.
  destruct (String.eqb k k0); simpl; [apply IH, Hnr|].
  constructor; [intros Hin; apply Hni, (keys_remove_key _ k), Hin|apply IH, Hnr].
Qed.

Lemma lookup_in_keys (k : string) (l : list (string * V)) :
  In k (map fst l) -> lookup k l <> None.
Proof.
  induction l as [|[k0 v0] r IH]; simpl; [intros []|].
  destruct (String.eqb k k0) eqn:E; [discriminate|].
  intros [H|H]; [subst; rewrite String.eqb_refl in E; discriminate|apply IH, H].
Qed.

End RemoveFacts.

Lemma cleanup_fold now : forall ns fs, NoDup ns ->
  (forall n, In n ns -> lookup n fs <> None) ->
  exists fs', fold_left (fun acc file =>
    match acc with
    | None => None
    | Some fs =>
        if negb (ends_with ".json" file) then Some fs
        else match lookup file fs with
             | Some st => if (DAY_MS <? now - mtimeMs st)%Z then Some (remove_key file fs)
                          else Some fs
             | None => None
             end
    end) ns (Some fs) = Some fs' /\
  forall n, lookup n fs' = if in_dec string_dec n ns then cleaned now n (lookup n fs) else lookup n fs.
Proof.
  induction ns as [|x ns IH]; intros fs Hnd Hk; cbn [fold_left].
  - exists fs. split; [reflexivity|intros n; reflexivity].
  - inversion Hnd as [|? ? Hx Hnd']; subst.
    assert (Hx' : lookup x fs <> None) by (apply Hk; left; reflexivity).
    destruct (ends_with ".json" x) eqn:Ej; cbn [negb].
    + destruct (lookup x fs) as [st|] eqn:Ex; [|congruence].
      destruct (DAY_MS <? now - mtimeMs st)%Z eqn:Eo.
      * destruct (IH (remove_key x fs) Hnd') as [fs' [Hf Hl]].
        { intros n Hn. rewrite lookup_remove_key.
          destruct (String.eqb n x) eqn:E; [apply String.eqb_eq in E; subst; contradiction|].
          apply Hk; right; exact Hn. }
        exists fs'. split; [exact Hf|]. intros n. rewrite Hl, lookup_remove_key.
        destruct (String.eqb n x) eqn:E.
        -- apply String.eqb_eq in E; subst n.
           destruct (in_dec string_dec x ns); [contradiction|].
           destruct (in_dec string_dec x (x :: ns)) as [_|F]; [|exfalso; apply F; left; reflexivity].
           unfold cleaned. rewrite Ex, Ej, Eo. reflexivity.
        -- assert (Hne : x <> n) by (intros ->; rewrite String.eqb_refl in E; discriminate).
           destruct (in_dec string_dec n ns), (in_dec string_dec n (x :: ns)) as [H2|H2];
             try reflexivity.
           ++ exfalso; apply H2; right; assumption.
           ++ destruct H2 as [H2|H2]; contradiction.
      * destruct (IH fs Hnd') as [fs' [Hf Hl]].
        { intros n Hn. apply Hk; right; exact Hn. }
        exists fs'. split; [exact Hf|]. intros n. rewrite Hl.
        destruct (string_dec n x) as [->|Hne].
        -- destruct (in_dec string_dec x ns); [contradiction|].
           destruct (in_dec string_dec x (x :: ns)) as [_|F]; [|exfalso; apply F; left; reflexivity].
           unfold cleaned. rewrite Ex, Ej, Eo. reflexivity.
        -- destruct (in_dec string_dec n ns), (in_dec string_dec n (x :: ns)) as [H2|H2];
             try reflexivity.
           ++ exfalso; apply H2; right; assumption.
           ++ destruct H2 as [H2|H2]; [congruence|contradiction].
    + destruct (IH fs Hnd') as [fs' [Hf Hl]].
      { intros n Hn. apply Hk; right; exact Hn. }
      exists fs'. split; [exact Hf|]. intros n. rewrite Hl.
      destruct (string_dec n x) as [->|Hne].
      * destruct (in_dec string_dec x ns); [contradiction|].
        destruct (in_dec string_dec x (x :: ns)) as [_|F]; [|exfalso; apply F; left; reflexivity].
        unfold cleaned. rewrite Ej. destruct (lookup x fs); reflexivity.
      * destruct (in_dec string_dec n ns), (in_dec string_dec n (x :: ns)) as [H2|H2];
          try reflexivity.
        -- exfalso; apply H2; right; assumption.
        -- destruct H2 as [H2|H2]; [congruence|contradiction].
Qed.

Lemma cleanup_lookup now files : NoDup (map fst files) ->
  exists fs', cleanup now files = Some fs' /\
    forall n, lookup n fs' = cleaned now n (lookup n files).
Proof.
  intros Hnd. unfold cleanup.
  destruct (cleanup_fold now (map fst files) files Hnd) as [fs' [Hf Hl]].
  { intros n Hn. apply lookup_in_keys, Hn. }
  exists fs'. split; [exact Hf|]. intros n. rewrite Hl.
  destruct (in_dec string_dec n (map fst files)) as [_|Hn]; [reflexivity|].
  destruct (lookup n files) eqn:E; [|reflexivity].
  exfalso; apply Hn, lookup_keys; congruence.
Qed.

Lemma str_length_app s t : String.length (s ++ t) = String.length s + String.length t.
Proof. induction s as [|c s IH]; simpl; [reflexivity|rewrite IH; reflexivity]. Qed.

Lemma str_app_assoc s t u : (s ++ (t ++ u))%string = ((s ++ t) ++ u)%string.
Proof. induction s as [|c s IH]; simpl; [reflexivity|rewrite IH; reflexivity]. Qed.

Lemma substring_app_l s t : substring (String.length s) (String.length t) (s ++ t) = t.
Proof.
  induction s as [|c s IH]; simpl; [|exact IH].
  induction t as [|c t IH]; simpl; [reflexivity|rewrite IH; reflexivity].
Qed.

Lemma ends_with_app s t : ends_with t (s ++ t) = true.
Proof.
  unfold ends_with. rewrite str_length_app.
  replace (String.length s + String.length t - String.length t) with (String.length s) by lia.
  rewrite substring_app_l, String.eqb_refl, andb_true_r. apply Nat.leb_le; lia.
Qed.

Lemma save_filename_json tn : ends_with ".json" (save_filename tn) = true.
Proof. unfold save_filename. rewrite str_app_assoc. apply ends_with_app. Qed.

Lemma tmp_ne_save tn : String.eqb (tmp_filename tn) (save_filename tn) = false.
Proof.
  apply String.eqb_neq. intros E. apply (f_equal String.length) in E.
  unfold tmp_filename in E. rewrite str_length_app in E. simpl in E. lia.
Qed.

(** The directory right after the write-then-rename of lines 301-305. *)
Lemma write_rename fs d ts tn tw :
  rename (tmp_filename tn) (save_filename tn)
    (assign (tmp_filename tn) (mkFile tw (Snapshot d ts)) fs) =
  Some (assign (save_filename tn) (mkFile tw (Snapshot d ts))
          (remove_key (tmp_filename tn) (assign (tmp_filename tn) (mkFile tw (Snapshot d ts)) fs))).
Proof. unfold rename. rewrite lookup_assign, String.eqb_refl. reflexivity. Qed.

Lemma lookup_written fs d ts tn tw n :
  lookup n (assign (save_filename tn) (mkFile tw (Snapshot d ts))
          (remove_key (tmp_filename tn) (assign (tmp_filename tn) (mkFile tw (Snapshot d ts)) fs))) =
  if String.eqb n (save_filename tn) then Some (mkFile tw (Snapshot d ts))
  else if String.eqb n (tmp_filename tn) then None
  else lookup n fs.
Proof.
  rewrite lookup_assign, lookup_remove_key, lookup_assign.
  destruct (String.eqb n (save_filename tn)); [reflexivity|].
  destruct (String.eqb n (tmp_filename tn)); reflexivity.
Qed.

Lemma str_app_nil_r s : (s ++ "")%string = s.
Proof. induction s as [|c s IH]; simpl; [reflexivity|rewrite IH; reflexivity]. Qed.

Lemma csv_row_fold leader row : forall acc,
  fold_left (fun csv '(follower, rel) =>
      if 0 <? successfulFollows rel + missedFollows rel
      then String.append csv (csv_row leader follower rel) else csv) row acc =
  (acc ++ csv_rows_of leader row)%string.
Proof.
  unfold csv_rows_of. induction row as [|[f rel] row IH]; intros acc; cbn [fold_left filter].
  - simpl. rewrite str_app_nil_r. reflexivity.
  - rewrite IH. destruct (0 <? successfulFollows rel + missedFollows rel); [|reflexivity].
    cbn [map]. rewrite <- str_app_assoc. f_equal.
    destruct (map _ (filter _ row)) eqn:E; simpl; [rewrite str_app_nil_r; reflexivity|reflexivity].
Qed.

(** * Claims *)

(** C6 (confirmed): best-pairs keeps exactly the relations with
    [successfulFollows + missedFollows >= minSampleSize] and
    [followRate > 0.6], sorted by descending [followRate] and truncated to
    20, each entry carrying the relation's fields and
    [sampleSize = |lagTimes|]; [totalPairsAnalyzed] counts all qualifying
    relations.  With [minSamples=10], an entry with 8 successes and 1 miss
    is never returned. *)
Theorem best_pairs_filtered_sorted_top20 (q : option string) (d : marketData) :
  (exists L, Permutation L (filter (qualifies (minSampleSize q)) (all_pair_entries d)) /\
             Sorted fr_ge L /\ bpr_pairs (best_pairs q d) = firstn 20 L) /\
  totalPairsAnalyzed (best_pairs q d) =
    List.length (filter (qualifies (minSampleSize q)) (all_pair_entries d)) /\
  (forall e, In e (bpr_pairs (best_pairs q d)) ->
     (minSampleSize q <= Z.of_nat (bp_successfulFollows e + bp_missedFollows e))%Z /\
     ngt (bp_followRate e) (Fin (6 # 10)) = true /\
     exists l row f rel, In (l, row) (causalityMatrix d) /\ In (f, rel) row /\
       e = pair_entry l f rel /\ bp_sampleSize e = List.length (lagTimes rel)) /\
  (forall e, bp_successfulFollows e = 8 -> bp_missedFollows e = 1 ->
     ~ In e (bpr_pairs (best_pairs (Some "10") d))).
Proof.
  split; [|split; [|split]].
  - exists (sort_by by_followRate_desc (collect_pairs (minSampleSize q) d)).
    split; [rewrite <- collect_pairs_filter; apply sort_by_perm|split; [|reflexivity]].
    apply sort_desc_sorted_acc; [|constructor|constructor].
    apply Forall_forall. intros e He. rewrite collect_pairs_filter in He.
    apply filter_In in He. apply (qualifies_fin (minSampleSize q)), He.
  - unfold best_pairs; cbn [totalPairsAnalyzed].
    rewrite (Permutation_length (sort_by_perm _ _)), collect_pairs_filter. reflexivity.
  - intros e He. apply In_best_pairs, filter_In in He. destruct He as [Hin Hq].
    unfold qualifies in Hq. apply andb_prop in Hq. destruct Hq as [H1 H2].
    split; [apply Z.leb_le; exact H1|split; [exact H2|]].
    destruct (In_all_pair_entries _ _ Hin) as [l [row [f [rel [Hl [Hf ->]]]]]].
    exists l, row, f, rel. repeat split; assumption.
  - intros e H8 H1 Hin. apply In_best_pairs, filter_In in Hin. destruct Hin as [_ Hq].
    rewrite minSampleSize_10 in Hq. unfold qualifies in Hq. rewrite H8, H1 in Hq.
    discriminate Hq.
Qed.

(** C10 (confirmed): an absent [minSamples], one that [parseInt] reads as
    [NaN], or one that it reads as 0, gives the threshold 10: such a
    request answers exactly as [minSamples=10]. *)
Theorem minSamples_default_10 (q : option string)
  (H : q = None \/ exists s, q = Some s /\ (parseInt s = None \/ parseInt s = Some 0%Z)) :
  minSampleSize q = 10%Z /\ forall d, best_pairs q d = best_pairs (Some "10") d.
Proof.
  assert (Hm : minSampleSize q = 10%Z).
  { destruct H as [->|[s [-> [Hs|Hs]]]]; unfold minSampleSize; rewrite ?Hs; reflexivity. }
  split; [exact Hm|]. intros d. unfold best_pairs. rewrite Hm, minSampleSize_10. reflexivity.
Qed.

Lemma minSamples_default_10_witness :
  minSampleSize (Some "0") = 10%Z /\
  forall d, best_pairs (Some "0") d = best_pairs (Some "10") d.
Proof.
  apply (minSamples_default_10 (Some "0")).
  right. exists "0". split; [reflexivity|right; reflexivity].
Defined.

(** C4 (corrected), counterexample: two prices snapshots with no tick in
    between differ, in their [timestamp] field ([Date.now()]). *)
Lemma prices_snapshot_reads_clock :
  exists r1 r2,
    fst (serve QPrices 0 (init_server 0)) = Some (RPrices r1) /\
    fst (serve QPrices 1 (snd (serve QPrices 0 (init_server 0)))) = Some (RPrices r2) /\
    pr_timestamp r1 = 0%Z /\ pr_timestamp r2 = 1%Z.
Proof. do 2 eexists; repeat split. Qed.

(** C4 (corrected), amended: every read leaves the state unchanged; two
    reads with no intervening tick (a broadcast flush may intervene) give
    identical replies, except the prices snapshot's [timestamp], which is
    the clock at the call. *)
Theorem reads_identical_up_to_clock (q : query) (t1 t2 : Z) (s : server) :
  snd (serve q t1 s) = s /\
  option_map reply_without_clock (fst (serve q t2 (flushPending (snd (serve q t1 s))))) =
    option_map reply_without_clock (fst (serve q t1 s)) /\
  match q with
  | QPrices => True
  | _ => fst (serve q t2 (flushPending (snd (serve q t1 s)))) = fst (serve q t1 s)
  end.
Proof.
  assert (Hs : snd (serve q t1 s) = s) by (destruct q; reflexivity).
  assert (Hf : md (flushPending s) = md s)
    by (unfold flushPending; destruct (pendingUpdates s); reflexivity).
  rewrite Hs. split; [reflexivity|].
  destruct q; cbn [serve gets fst]; rewrite Hf; split; reflexivity.
Qed.

(** C2 (code_bug): after a success then a miss of ETH following a BTC pump,
    the stored [followRate] is still 1 although the quotient is 1/2, and
    the reads (best-pairs, CSV) report that stored 1. *)
Theorem followRate_stale_after_miss :
  exists rel,
    rel_lookup "BTC-USD" "ETH-USD" (md run_success_then_miss) = Some rel /\
    successfulFollows rel = 1 /\ missedFollows rel = 1 /\
    followRate rel = Fin 1 /\
    Qeq_bool 1 (inject_Z 1 / inject_Z (1 + 1)) = false /\
    map bp_followRate (bpr_pairs (best_pairs (Some "1") (md run_success_then_miss))) = [Fin 1] /\
    export_csv (md run_success_then_miss) =
      String.append csv_header (csv_row "BTC-USD" "ETH-USD" rel) /\
    toFixed 3 (followRate rel) = "1.000".
Proof. eexists; vm_compute; repeat split. Qed.

(** C1 (corrected), counterexample: a BTC leader event at t = 0 is still in
    the live set after an ETH tick at t = 300000 = t0 + LAG_WINDOW, since
    that tick creates no leader event and pruning runs only on leader ticks. *)
Lemma stale_event_kept_after_plain_tick :
  map le_timestamp (leaderEvents (md run_stale_event)) = [0%Z] /\
  (300000 - 0 >= LAG_WINDOW)%Z.
Proof. vm_compute; split; [reflexivity|discriminate]. Qed.

(** C3 (corrected), counterexample: a ticker for ETH with price ["abc"] is
    processed: the price becomes [NaN], [NaN] enters the history and
    [totalTicks] is incremented.  A ticker for [constructor] (an inherited
    name) is not discarded either: it leaves a 25th own entry in [prices]
    before it throws, and counts no tick. *)
Lemma unparseable_price_is_processed :
  option_map price (lookup "ETH-USD" (prices (md run_bad_price))) = Some NaN /\
  lookup "ETH-USD" (priceHistory (md run_bad_price)) = Some [NaN] /\
  totalTicks (stats (md run_bad_price)) = 1 /\
  option_map price (lookup "constructor"
    (prices (md (run_from_start [tick "constructor" "5" 0])))) = Some (Fin 5) /\
  List.length (prices (md (run_from_start [tick "constructor" "5" 0]))) = 25 /\
  totalTicks (stats (md (run_from_start [tick "constructor" "5" 0]))) = 0.
Proof. vm_compute; repeat split. Qed.

(** C7 (corrected), counterexample: with a BTC pump and a BTC dump both
    live, an ETH rise is evaluated against the dump (a miss) and still
    increments [successfulFollows] of (BTC, ETH) through the pump. *)
Lemma opposite_event_with_same_leader_success :
  map le_direction (leaderEvents (md run_before_eth_rise)) = ["pump"; "dump"] /\
  map le_timestamp (leaderEvents (md run_before_eth_rise)) = [1000%Z; 2000%Z] /\
  option_map (fun r => (successfulFollows r, missedFollows r))
    (rel_lookup "BTC-USD" "ETH-USD" (md run_before_eth_rise)) = Some (0, 0) /\
  option_map (fun r => (successfulFollows r, missedFollows r))
    (rel_lookup "BTC-USD" "ETH-USD" (md run_after_eth_rise)) = Some (1, 1).
Proof. vm_compute; repeat split. Qed.

(** C9 (confirmed): in every reachable state each relation has
    [successfulFollows = |lagTimes| = |magnitudeRatios|], so the sample size
    of every export (best-pairs entry, matrix snapshot entry, CSV column
    Sample_Size) equals the relation's [successfulFollows]. *)
Theorem follows_equal_samples (s : server) (Hr : reachable s) :
  (forall l row f rel, In (l, row) (causalityMatrix (md s)) -> In (f, rel) row ->
     successfulFollows rel = List.length (lagTimes rel) /\
     List.length (magnitudeRatios rel) = List.length (lagTimes rel)) /\
  (forall q e, In e (bpr_pairs (best_pairs q (md s))) ->
     bp_sampleSize e = bp_successfulFollows e) /\
  (forall l srow f en, In (l, srow) (fst (causality_matrix (md s))) -> In (f, en) srow ->
     exists row rel, In (l, row) (causalityMatrix (md s)) /\ In (f, rel) row /\
       sn_sampleSize en = successfulFollows rel) /\
  (forall l row f rel, In (l, row) (causalityMatrix (md s)) -> In (f, rel) row ->
     csv_row l f rel =
     fold_right String.append nl
       [l; ","; f; ","; nat_to_string (successfulFollows rel); ",";
        nat_to_string (missedFollows rel); ","; toFixed 3 (followRate rel); ",";
        toFixed 0 (avgLag rel); ","; toFixed 3 (avgMagnitude rel); ",";
        nat_to_string (successfulFollows rel)]).
Proof.
  pose proof (reachable_rel_inv s Hr) as Hinv.
  split; [|split; [|split]].
  - intros l row f rel Hl Hf. apply (Hinv l row f rel Hl Hf).
  - intros q e He. apply In_best_pairs, filter_In in He. destruct He as [He _].
    destruct (In_all_pair_entries _ _ He) as [l [row [f [rel [Hl [Hf ->]]]]]].
    destruct (Hinv l row f rel Hl Hf) as [H1 _]. simpl. symmetry; exact H1.
  - intros l srow f en H1 H2.
    destruct (In_causality_matrix _ _ _ _ _ H1 H2) as [row [rel [Hl [Hf ->]]]].
    exists row, rel. repeat split; try assumption.
    destruct (Hinv l row f rel Hl Hf) as [H _]. simpl. symmetry; exact H.
  - intros l row f rel Hl Hf. destruct (Hinv l row f rel Hl Hf) as [H _].
    unfold csv_row. rewrite H. reflexivity.
Qed.

Lemma follows_equal_samples_witness :
  reachable run_success_then_miss /\
  forall l row f rel, In (l, row) (causalityMatrix (md run_success_then_miss)) -> In (f, rel) row ->
     successfulFollows rel = List.length (lagTimes rel) /\
     List.length (magnitudeRatios rel) = List.length (lagTimes rel).
Proof.
  assert (Hr : reachable run_success_then_miss)
    by (apply reachable_run; constructor).
  split; [exact Hr|].
  exact (proj1 (follows_equal_samples run_success_then_miss Hr)).
Defined.

(** C5 (confirmed): for a configured coin [c], the history after any
    sequence of events from the initial state is exactly the last 1000
    prices fed for [c], in arrival order; in every reachable state the
    history holds at most 1000 entries, and one event appends the fed price
    and evicts the oldest entry beyond 1000 (or leaves the history alone). *)
Theorem history_last_1000 (c : string) (Hc : In c COINS) :
  (forall t0 evs, lookup c (priceHistory (md (run evs (init_server t0)))) =
                  Some (lastn HISTORY_CAP (fed_prices c evs))) /\
  (forall s ev h, reachable s -> lookup c (priceHistory (md s)) = Some h ->
     length h <= HISTORY_CAP /\
     lookup c (priceHistory (md (step s ev))) =
       Some (match fed_event c ev with Some p => cap_history (h ++ [p]) | None => h end)).
Proof.
  split.
  - intros t0 evs. rewrite (run_history c evs (init_server t0) [] Hc (reach_init t0)
                              (init_history t0 c Hc) (Nat.le_0_l _)).
    reflexivity.
  - intros s ev h Hr Hh. split; [exact (reachable_history_bound c s Hr Hc h Hh)|].
    exact (step_history s ev c h Hc (reachable_wf s Hr) Hh).
Qed.

Lemma history_last_1000_witness :
  lookup "ETH-USD" (priceHistory (md (run [tick "ETH-USD" "100" 0; tick "BTC-USD" "7" 1;
                                           tick "ETH-USD" "101" 2] (init_server 0)))) =
  Some (lastn HISTORY_CAP (fed_prices "ETH-USD" [tick "ETH-USD" "100" 0; tick "BTC-USD" "7" 1;
                                                 tick "ETH-USD" "101" 2])).
Proof.
  exact (proj1 (history_last_1000 "ETH-USD" (or_intror (or_introl eq_refl))) 0%Z _).
Defined.

(** C8 (confirmed): a ticker of a configured coin (one of [COINS], the
    asset universe) in any reachable state never throws; with a stored
    previous price [q >= 0] and a parsed price [x], the stored state has [price = x]; when [q = 0] (no previous price:
    [oldPrice] falls back to the price) [change] and [changePercent] are 0,
    and when [q > 0], [change = x - q] and [changePercent = (x - q) / q * 100]
    (as rationals). *)
Theorem price_change_guarded (s : server) (Hr : reachable s) (t : ticker) (now : Z)
  (old : priceState) (q x : Q)
  (Hty : t_type t = Some "ticker") (Hc : In (coin_key t) COINS)
  (Hold : lookup (coin_key t) (prices (md s)) = Some old)
  (Hq : price old = Fin q) (Hq0 : (0 <= q)%Q)
  (Hx : parseFloat_field (t_price t) = Fin x) :
  fst (processTickerUpdate t now s) = Some tt /\
  exists ps, lookup (coin_key t) (prices (md (step s (Message (JsonObject t) now)))) = Some ps /\
    price ps = Fin x /\ lastUpdate ps = now /\
    ((q == 0)%Q -> num_eqQ (change ps) 0 /\ num_eqQ (changePercent ps) 0) /\
    ((0 < q)%Q -> num_eqQ (change ps) (x - q) /\
                  num_eqQ (changePercent ps) ((x - q) / q * 100)).
Proof.
  pose proof (reachable_wf s Hr) as Hs.
  split; [apply processTickerUpdate_runs; assumption|].
  pose proof (compute_change_fin (Some (price old)) q x (f_equal Some Hq) Hq0) as Hcc.
  cbn [step onMessage].
  rewrite Hty, String.eqb_refl, processTickerUpdate_eq, (price_field_own _ _ _ Hc Hold).
  cbv zeta. rewrite Hx. revert Hcc.
  destruct (compute_change (Some (price old)) (Fin x)) as [pc cp]. cbn [fst snd]. intros Hcc.
  destruct (lookup (coin_key t) (priceHistory (md s))) as [h|] eqn:Hh;
    [|exfalso; exact (wf_history _ Hs _ Hc Hh)].
  rewrite ticker_tail_prices. cbn [md]. unfold after_history.
  rewrite (after_price_coin _ _ _ Hc). simpl_md.
  rewrite lookup_assign, String.eqb_refl.
  eexists; split; [reflexivity|]. cbn [price lastUpdate change changePercent].
  split; [reflexivity|split; [reflexivity|exact Hcc]].
Qed.

Lemma price_change_guarded_witness :
  exists ps, lookup "ETH-USD" (prices (md (step (run_from_start [tick "ETH-USD" "100" 0])
                                               (tick "ETH-USD" "101" 1000)))) = Some ps /\
    num_eqQ (change ps) 1 /\ num_eqQ (changePercent ps) 1.
Proof.
  assert (Hr : reachable (run_from_start [tick "ETH-USD" "100" 0]))
    by (apply reachable_run; constructor).
  destruct (price_change_guarded (run_from_start [tick "ETH-USD" "100" 0]) Hr
              (mkTicker (Some "ticker") (Some "ETH-USD") (Some "101")) 1000
              (mkPriceState (Fin 100) (Fin 0) (Fin (0 # 100)) 0) 100 101
              eq_refl (or_intror (or_introl eq_refl)) eq_refl eq_refl ltac:(discriminate) eq_refl)
    as [_ [ps [Hps [_ [_ [_ Hpos]]]]]].
  exists ps. split; [exact Hps|].
  destruct (Hpos ltac:(reflexivity)) as [H1 H2].
  destruct (change ps) as [y|], (changePercent ps) as [z|]; cbn in H1, H2 |- *;
    try contradiction.
  split; [rewrite H1|rewrite H2]; reflexivity.
Defined.

(** C1 (corrected), amended: pruning runs only on ticks that register a
    leader event.  After such a tick at [now] no live event has
    [now - timestamp >= LAG_WINDOW]; any other tick keeps the live events
    as they were (timestamp, leader, price, change, direction), expired
    ones included; every event with [now - timestamp < LAG_WINDOW] is
    still live after a tick at [now]; and the expired events that stay
    live are ignored: a message at [now] leaves the state apart from the
    live set exactly as if the events expired at [now] had been dropped
    before it (the correlator re-checks [lagTime < LAG_WINDOW]). *)
Theorem pruning_on_leader_ticks (s : server) (t : ticker) (now : Z)
  (Hty : t_type t = Some "ticker") :
  (leader_tick t s = true ->
     forall e, In e (leaderEvents (md (step s (Message (JsonObject t) now)))) ->
       (now - le_timestamp e < LAG_WINDOW)%Z) /\
  (leader_tick t s = false ->
     map strip (leaderEvents (md (step s (Message (JsonObject t) now)))) =
     map strip (leaderEvents (md s))) /\
  (forall e, In e (leaderEvents (md s)) -> (now - le_timestamp e < LAG_WINDOW)%Z ->
     exists e', In e' (leaderEvents (md (step s (Message (JsonObject t) now)))) /\
                strip e' = strip e) /\
  (forall m, events_erased (step s (Message m now)) =
             events_erased (step (drop_expired now s) (Message m now))).
Proof.
  destruct (tick_events s t now Hty) as [ne [_ [_ Hne]]].
  split; [|split; [|split]].
  - intros Hl e He. rewrite Hl in Hne.
    assert (Hin : In (strip e) (map strip (filter (not_expired now) (leaderEvents (md s) ++ [ne]))))
      by (rewrite <- Hne; apply in_map; exact He).
    apply in_map_iff in Hin. destruct Hin as [e0 [Hse Hin]].
    apply filter_In in Hin. destruct Hin as [_ Hn]. unfold not_expired in Hn.
    apply Z.ltb_lt in Hn. rewrite <- (strip_timestamp _ _ Hse). exact Hn.
  - intros Hl. rewrite Hl in Hne. exact Hne.
  - intros e He Hlive.
    assert (Hin : In (strip e) (map strip (if leader_tick t s
                   then filter (not_expired now) (leaderEvents (md s) ++ [ne])
                   else leaderEvents (md s)))).
    { apply in_map. destruct (leader_tick t s); [|exact He].
      apply filter_In. split; [apply in_or_app; left; exact He|].
      apply Z.ltb_lt; exact Hlive. }
    rewrite <- Hne in Hin. apply in_map_iff in Hin. destruct Hin as [e' [H1 H2]].
    exists e'. split; assumption.
  - intros m. apply step_ignores_expired.
Qed.

Lemma pruning_on_leader_ticks_witness :
  existsb (fun e => negb (not_expired 400000 e)) (leaderEvents (md run_stale_event)) = true /\
  leader_tick (mkTicker (Some "ticker") (Some "ETH-USD") (Some "110")) run_stale_event = true /\
  Forall (fun e => (400000 - le_timestamp e < LAG_WINDOW)%Z)
    (leaderEvents (md (step run_stale_event
       (Message (JsonObject (mkTicker (Some "ticker") (Some "ETH-USD") (Some "110"))) 400000)))) /\
  events_erased (step run_stale_event
       (Message (JsonObject (mkTicker (Some "ticker") (Some "ETH-USD") (Some "101"))) 400000)) =
  events_erased (step (drop_expired 400000 run_stale_event)
       (Message (JsonObject (mkTicker (Some "ticker") (Some "ETH-USD") (Some "101"))) 400000)).
Proof.
  assert (Hl : leader_tick (mkTicker (Some "ticker") (Some "ETH-USD") (Some "110"))
                 run_stale_event = true) by (vm_compute; reflexivity).
  split; [vm_compute; reflexivity|].
  split; [exact Hl|].
  split.
  - apply Forall_forall.
    exact (proj1 (pruning_on_leader_ticks run_stale_event
                    (mkTicker (Some "ticker") (Some "ETH-USD") (Some "110")) 400000 eq_refl) Hl).
  - exact (proj2 (proj2 (proj2 (pruning_on_leader_ticks run_stale_event
             (mkTicker (Some "ticker") (Some "ETH-USD") (Some "101")) 400000 eq_refl)))
             (JsonObject (mkTicker (Some "ticker") (Some "ETH-USD") (Some "101")))).
Defined.

(** C3 (corrected), amended: a message [JSON.parse] rejects, a message
    that is not a ticker, and a ticker whose [prices[product_id]] is
    [undefined] change nothing.  A ticker for a name that is not a
    configured coin but is defined on [prices] (an inherited
    [Object.prototype] name such as [constructor], or an own entry such a
    ticker left) writes [prices[name]] ([__proto__] replaces the
    prototype) and then throws at the history push: no history, ticks or
    pending changes.  A ticker for a configured coin whose price is
    missing or does not start like a number ([parse_fails]: after white
    space and a sign, no digit, no dot and digit, and no [Infinity]) is
    processed: the price becomes [NaN], [NaN] is appended to the
    history, [totalTicks] is incremented, while the leader events, the
    relations and [divergenceEvents] stay as they were. *)
Theorem malformed_ticks (s : server) (now : Z) :
  step s (Message BadJson now) = s /\
  (forall t, t_type t <> Some "ticker" -> step s (Message (JsonObject t) now) = s) /\
  (forall t, price_field (coin_key t) (md s) = None ->
     step s (Message (JsonObject t) now) = s) /\
  (forall t, reachable s -> t_type t = Some "ticker" -> ~ In (coin_key t) COINS ->
     price_field (coin_key t) (md s) <> None ->
     exists old pc cp, price_field (coin_key t) (md s) = Some old /\
       compute_change old (parseFloat_field (t_price t)) = (pc, cp) /\
       step s (Message (JsonObject t) now) =
       mkServer (set_price_entry (coin_key t)
                   (mkPriceState (parseFloat_field (t_price t)) pc cp now) (md s))
                (pendingUpdates s)) /\
  (forall t, reachable s -> t_type t = Some "ticker" -> In (coin_key t) COINS ->
     match t_price t with None => True | Some str => parse_fails str = true end ->
     option_map price (lookup (coin_key t) (prices (md (step s (Message (JsonObject t) now))))) =
       Some NaN /\
     (exists h, lookup (coin_key t) (priceHistory (md s)) = Some h /\
        lookup (coin_key t) (priceHistory (md (step s (Message (JsonObject t) now)))) =
          Some (cap_history (h ++ [NaN]))) /\
     leaderEvents (md (step s (Message (JsonObject t) now))) = leaderEvents (md s) /\
     causalityMatrix (md (step s (Message (JsonObject t) now))) = causalityMatrix (md s) /\
     totalTicks (stats (md (step s (Message (JsonObject t) now)))) =
       S (totalTicks (stats (md s))) /\
     divergenceEvents (stats (md (step s (Message (JsonObject t) now)))) =
       divergenceEvents (stats (md s))).
Proof.
  split; [reflexivity|split; [|split; [|split]]].
  - intros t Ht. cbn [step onMessage].
    destruct (t_type t) as [ty|]; [|reflexivity].
    destruct (String.eqb ty "ticker") eqn:E; [|reflexivity].
    apply String.eqb_eq in E. subst ty. contradiction.
  - intros t Hn. cbn [step onMessage].
    destruct (t_type t) as [ty|]; [|reflexivity].
    destruct (String.eqb ty "ticker"); [|reflexivity].
    rewrite processTickerUpdate_eq, Hn. reflexivity.
  - intros t Hr Hty Hc Hd.
    destruct (price_field (coin_key t) (md s)) as [old|] eqn:Ho; [|contradiction].
    destruct (compute_change old (parseFloat_field (t_price t))) as [pc cp] eqn:Ecc.
    exists old, pc, cp. split; [reflexivity|split; [exact Ecc|]].
    destruct (lookup (coin_key t) (priceHistory (md s))) as [h|] eqn:Hh.
    { exfalso. apply Hc. apply (reachable_hist_keys s Hr). rewrite Hh. discriminate. }
    cbn [step onMessage]. rewrite Hty, String.eqb_refl, processTickerUpdate_eq, Ho.
    cbv zeta. rewrite Ecc, Hh. reflexivity.
  - intros t Hr Hty Hc Hpf. pose proof (reachable_wf s Hr) as Hs.
    assert (Hp : parseFloat_field (t_price t) = NaN)
      by (destruct (t_price t) as [str|]; [apply parse_fails_nan, Hpf|reflexivity]).
    destruct (lookup (coin_key t) (prices (md s))) as [old|] eqn:Hold;
      [|exfalso; exact (wf_prices _ Hs _ Hc Hold)].
    destruct (lookup (coin_key t) (priceHistory (md s))) as [h|] eqn:Hh;
      [|exfalso; exact (wf_history _ Hs _ Hc Hh)].
    destruct (compute_change_nan (Some (price old))) as [cp [Ecc [Hm Hf]]].
    cbn [step onMessage].
    rewrite Hty, String.eqb_refl, processTickerUpdate_eq, (price_field_own _ _ _ Hc Hold).
    cbv zeta. rewrite Hp, Ecc, Hh, ticker_tail_inert by assumption.
    cbn [snd md]. unfold after_history. rewrite (after_price_coin _ _ _ Hc). simpl_md.
    rewrite !lookup_assign, !String.eqb_refl.
    split; [reflexivity|split; [exists h; split; reflexivity|]].
    repeat split.
Qed.

(** C7 (corrected), amended: one evaluation of a follower move against a
    live event of another coin in the opposite direction stores
    [record_miss] of the relation (same [successfulFollows], one more
    [missedFollows]) and one more [divergenceEvents].  Over the loop of
    lines 212-245 on the live set [evs], [successfulFollows] of
    (L, coin) grows by the number of live same-direction events of L,
    [missedFollows] by the number of live opposite ones, and
    [divergenceEvents] by the number of live opposite events of every
    leader; so an opposite move still counts a success through another
    live event of the same leader in its direction. *)
Theorem opposite_follow_is_miss (s : server) (Hs : wf (md s)) (coin : string)
  (Hc : In coin COINS) (cp : num) (ts : Z) :
  (forall i e rel, live_follow coin cp ts e = true -> same_direction cp e = false ->
     rel_lookup (le_leader e) coin (md s) = Some rel ->
     fst (follow_one coin cp ts i e s) = Some tt /\
     rel_lookup (le_leader e) coin (md (snd (follow_one coin cp ts i e s))) =
       Some (record_miss rel) /\
     successfulFollows (record_miss rel) = successfulFollows rel /\
     missedFollows (record_miss rel) = S (missedFollows rel) /\
     divergenceEvents (stats (md (snd (follow_one coin cp ts i e s)))) =
       S (divergenceEvents (stats (md s)))) /\
  (forall evs i L rel, (forall e, In e evs -> In (le_leader e) COINS) ->
     rel_lookup L coin (md s) = Some rel ->
     exists rel', rel_lookup L coin (md (snd (forEach_follow coin cp ts i evs s))) = Some rel' /\
       successfulFollows rel' = successfulFollows rel + count_success L coin cp ts evs /\
       missedFollows rel' = missedFollows rel + count_miss L coin cp ts evs /\
       divergenceEvents (stats (md (snd (forEach_follow coin cp ts i evs s)))) =
         divergenceEvents (stats (md s)) + count_divergence coin cp ts evs).
Proof.
  split.
  - intros i e rel Hlive Hsame Hrel.
    unfold live_follow in Hlive. apply andb_prop in Hlive as [H1 H2].
    unfold same_direction in Hsame.
    assert (Hrun : follow_one coin cp ts i e s =
      (Some tt, mkServer (set_stats (incr_divergence (stats (set_relation (le_leader e) coin
                                                        (record_miss rel) (md s))))
                                    (set_relation (le_leader e) coin (record_miss rel) (md s)))
                         (pendingUpdates s))).
    { unfold follow_one. cbv zeta. rewrite H1, H2, Hsame.
      unfold bind. rewrite get_relation_run. unfold rel_lookup in Hrel.
      destruct (lookup (le_leader e) (causalityMatrix (md s))) as [row|] eqn:Erow;
        [|discriminate]. rewrite Hrel. reflexivity. }
    rewrite Hrun. cbn [fst snd md].
    split; [reflexivity|].
    rewrite rel_lookup_set_stats, rel_lookup_set.
    unfold rel_lookup in Hrel.
    destruct (lookup (le_leader e) (causalityMatrix (md s))) as [row|]; [|discriminate].
    rewrite !String.eqb_refl. cbn [andb].
    split; [reflexivity|split; [reflexivity|split; [reflexivity|]]].
    simpl_md. rewrite set_relation_stats. reflexivity.
  - intros evs i L rel Hl Hrel. exact (forEach_follow_counts coin cp ts L evs i s rel Hs Hc Hl Hrel).
Qed.

Lemma opposite_follow_is_miss_witness :
  exists rel', rel_lookup "BTC-USD" "ETH-USD"
    (md (snd (forEach_follow "ETH-USD" (Fin 1) 3000 0 (leaderEvents (md run_before_eth_rise))
                run_before_eth_rise))) = Some rel' /\
    successfulFollows rel' = 1 /\ missedFollows rel' = 1.
Proof.
  assert (Hs : wf (md run_before_eth_rise))
    by (apply reachable_wf, reachable_run; constructor).
  assert (Hrel : rel_lookup "BTC-USD" "ETH-USD" (md run_before_eth_rise) = Some empty_relation)
    by (vm_compute; reflexivity).
  destruct (proj2 (opposite_follow_is_miss run_before_eth_rise Hs "ETH-USD"
                     (or_intror (or_introl eq_refl)) (Fin 1) 3000)
                  (leaderEvents (md run_before_eth_rise)) 0 "BTC-USD" empty_relation
                  (wf_leaders _ Hs) Hrel)
    as [rel' [H1 [H2 [H3 _]]]].
  exists rel'. split; [exact H1|]. rewrite H2, H3. split; vm_compute; reflexivity.
Defined.

(** * Further properties *)

(** X1: after any sequence of events from a server started at [t0], the
    health endpoint reports uptime [now - t0], 24 tracked coins, and a tick
    count equal to the number of ticker messages for configured coins. *)
Theorem health_after_run (t0 now : Z) (clients : nat) (cb : option bool) (evs : list event) :
  let h := api_health now clients cb (md (run evs (init_server t0))) in
  h_uptime h = (now - t0)%Z /\ h_coinsTracked h = 24 /\
  h_totalTicks h = length (filter counted evs).
Proof.
  cbv zeta. unfold api_health; cbn [h_uptime h_coinsTracked h_totalTicks].
  rewrite run_startTime, run_ticks by apply reach_init. split; [reflexivity|split; reflexivity].
Qed.

(** X2: every price state carried by a broadcast batch is the current
    price state of its coin. *)
Theorem batch_carries_current_prices (s : server) (Hr : reachable s) (now : Z) (u : batchUpdate)
  (Hu : batch_update now s = Some u) :
  forall c v, lookup c (bu_updates u) = Some v -> lookup c (prices (md s)) = Some v.
Proof.
  unfold batch_update in Hu. destruct (pendingUpdates s) eqn:E; [discriminate|].
  injection Hu as <-. cbn [bu_updates]. rewrite <- E. apply reachable_pending_ok, Hr.
Qed.

Lemma batch_carries_current_prices_witness :
  batch_update 1000 (run_from_start [tick "BTC-USD" "100" 0]) =
    Some (mkBatchUpdate (pendingUpdates (run_from_start [tick "BTC-USD" "100" 0])) 1000
            (List.length (leaderEvents (md (run_from_start [tick "BTC-USD" "100" 0]))))) /\
  (forall c v, lookup c (bu_updates (mkBatchUpdate (pendingUpdates (run_from_start [tick "BTC-USD" "100" 0])) 1000
            (List.length (leaderEvents (md (run_from_start [tick "BTC-USD" "100" 0])))))) = Some v ->
     lookup c (prices (md (run_from_start [tick "BTC-USD" "100" 0]))) = Some v).
Proof.
  assert (Hu : batch_update 1000 (run_from_start [tick "BTC-USD" "100" 0]) =
    Some (mkBatchUpdate (pendingUpdates (run_from_start [tick "BTC-USD" "100" 0])) 1000
            (List.length (leaderEvents (md (run_from_start [tick "BTC-USD" "100" 0]))))))
    by (vm_compute; reflexivity).
  split; [exact Hu|].
  exact (batch_carries_current_prices (run_from_start [tick "BTC-USD" "100" 0])
           (reachable_run _ _ (reach_init 0)) 1000
           (mkBatchUpdate (pendingUpdates (run_from_start [tick "BTC-USD" "100" 0])) 1000
              (List.length (leaderEvents (md (run_from_start [tick "BTC-USD" "100" 0]))))) Hu).
Defined.

(** X3: once a configured coin has ticked, the next broadcast batch is not
    empty and carries that coin's current price state, whatever messages
    arrive before the flush. *)
Theorem ticked_coin_in_next_batch (s : server) (Hr : reachable s) (c p : string) (now now' : Z)
  (evs : list event) (Hc : In c COINS) (Hb : forall ev, In ev evs -> ev <> Broadcast) :
  exists u, batch_update now' (run evs (step s (tick c p now))) = Some u /\
            lookup c (bu_updates u) = lookup c (prices (md (run evs (step s (tick c p now))))) /\
            lookup c (bu_updates u) <> None.
Proof.
  assert (Hp : lookup c (pendingUpdates (run evs (step s (tick c p now)))) <> None).
  { apply run_messages_keep_pending; [apply reach_step, Hr|exact Hb|apply tick_pending; assumption]. }
  destruct (batch_update_some now' _ c Hp) as [u [Hu Hbu]]. exists u. split; [exact Hu|].
  rewrite Hbu. split; [|exact Hp].
  destruct (lookup c (pendingUpdates (run evs (step s (tick c p now))))) as [v|] eqn:Hv; [|contradiction].
  symmetry. apply (reachable_pending_ok _ (reachable_run _ _ (reach_step _ _ Hr))), Hv.
Qed.

Lemma ticked_coin_in_next_batch_witness :
  In "ETH-USD" COINS /\ (forall ev, In ev [tick "BTC-USD" "100" 5] -> ev <> Broadcast) /\
  exists u, batch_update 10 (run [tick "BTC-USD" "100" 5] (step (init_server 0) (tick "ETH-USD" "7" 1))) = Some u /\
    lookup "ETH-USD" (bu_updates u) =
      lookup "ETH-USD" (prices (md (run [tick "BTC-USD" "100" 5] (step (init_server 0) (tick "ETH-USD" "7" 1))))) /\
    lookup "ETH-USD" (bu_updates u) <> None.
Proof.
  assert (Hc : In "ETH-USD" COINS) by (right; left; reflexivity).
  assert (Hb : forall ev, In ev [tick "BTC-USD" "100" 5] -> ev <> Broadcast)
    by (intros ev [<-|[]]; discriminate).
  split; [exact Hc|split; [exact Hb|]].
  exact (ticked_coin_in_next_batch (init_server 0) (reach_init 0) "ETH-USD" "7" 1 10 _ Hc Hb).
Defined.

(** X4: the history endpoint answers a configured coin with the last 100
    prices fed for it (unparseable ones as [NaN]), an inherited
    [Object.prototype] name (whose value has no [slice] method) with the
    500, and any other name with the 404. *)
Theorem history_endpoint (t0 : Z) (evs : list event) (c : string) :
  market_history c (md (run evs (init_server t0))) =
  if existsb (String.eqb c) COINS then HistFound (lastn 100 (fed_prices c evs))
  else if existsb (String.eqb c) OBJECT_PROTO_KEYS then HistThrows else HistMissing.
Proof.
  unfold market_history. destruct (existsb (String.eqb c) COINS) eqn:Ec.
  - apply existsb_COINS in Ec.
    rewrite (run_history c evs (init_server t0) [] Ec (reach_init t0) (init_history t0 c Ec))
      by (cbn; lia).
    rewrite skipn_lastn, lastn_lastn by (unfold HISTORY_CAP; lia). reflexivity.
  - destruct (lookup c (priceHistory (md (run evs (init_server t0))))) eqn:Eh; [|reflexivity].
    exfalso. apply (not_coin _ Ec).
    apply (reachable_hist_keys _ (reachable_run evs _ (reach_init t0))). rewrite Eh. discriminate.
Qed.

(** X5: the matrix snapshot has one row per configured coin, in [COINS]
    order, and a row lists a follower exactly when the relation has at
    least one success, with that relation's rate, averages and sample
    count. *)
Theorem matrix_snapshot (s : server) (Hr : reachable s) :
  map fst (fst (causality_matrix (md s))) = COINS /\
  forall l srow f, lookup l (fst (causality_matrix (md s))) = Some srow ->
    lookup f srow = match rel_lookup l f (md s) with
                    | Some rel => if 0 <? successfulFollows rel then Some (snap_of rel) else None
                    | None => None
                    end.
Proof.
  destruct (reachable_keys s Hr) as [_ [_ [Hm Hrow]]]. split.
  - unfold causality_matrix. cbn [fst]. rewrite map_map.
    rewrite <- Hm. apply map_ext. intros [k row]. reflexivity.
  - intros l srow f H. unfold causality_matrix in H. cbn [fst] in H.
    rewrite (lookup_map_row (fun row => fold_left _ row [])) in H.
    unfold rel_lookup.
    destruct (lookup l (causalityMatrix (md s))) as [row|] eqn:El; [|discriminate H].
    cbn [option_map] in H. injection H as <-.
    rewrite snapshot_row_lookup.
    + destruct (lookup f row) as [rel|]; [destruct (0 <? _)|]; reflexivity.
    + rewrite (Hrow l row (lookup_In _ _ _ El)). apply NoDup_filter, NoDup_COINS.
Qed.

Lemma matrix_snapshot_witness :
  reachable run_success_then_miss /\
  map fst (fst (causality_matrix (md run_success_then_miss))) = COINS /\
  (forall l srow f, lookup l (fst (causality_matrix (md run_success_then_miss))) = Some srow ->
    lookup f srow = match rel_lookup l f (md run_success_then_miss) with
                    | Some rel => if 0 <? successfulFollows rel then Some (snap_of rel) else None
                    | None => None
                    end).
Proof.
  assert (Hr : reachable run_success_then_miss) by apply reachable_run, reach_init.
  split; [exact Hr|exact (matrix_snapshot run_success_then_miss Hr)].
Defined.

(** X6: every live leader event belongs to a configured coin and is
    labelled pump or dump. *)
Theorem live_events_are_moves (s : server) (Hr : reachable s) (e : leaderEvent)
  (He : In e (leaderEvents (md s))) :
  In (le_leader e) COINS /\ (le_direction e = "pump" \/ le_direction e = "dump").
Proof.
  split; [apply (wf_leaders _ (reachable_wf s Hr)), He|].
  pose proof (reachable_events_ok s Hr) as H. rewrite Forall_forall in H.
  destruct (H e He) as [q [_ [Hq [Hp Hd]]]].
  destruct (Qlt_le_dec 0 q) as [Hpos|Hle]; [left; exact (Hp Hpos)|].
  right. apply Hd. destruct (Qeq_dec q 0) as [Hz|Hz].
  - exfalso. destruct q as [n dn]. unfold Qeq in Hz. cbn in Hz.
    assert (n = 0%Z) by lia. subst n. apply Hq. reflexivity.
  - apply Qle_lteq in Hle as [Hlt|Heq]; [exact Hlt|exfalso; exact (Hz Heq)].
Qed.

Lemma live_events_are_moves_witness :
  In (hd (new_leader_event "BTC-USD" (Fin 0) (Fin 0) 0) (leaderEvents (md run_stale_event))) (leaderEvents (md run_stale_event)) /\
  In (le_leader (hd (new_leader_event "BTC-USD" (Fin 0) (Fin 0) 0) (leaderEvents (md run_stale_event)))) COINS /\
  (le_direction (hd (new_leader_event "BTC-USD" (Fin 0) (Fin 0) 0) (leaderEvents (md run_stale_event))) = "pump" \/
   le_direction (hd (new_leader_event "BTC-USD" (Fin 0) (Fin 0) 0) (leaderEvents (md run_stale_event))) = "dump").
Proof.
  assert (Hr : reachable run_stale_event) by apply reachable_run, reach_init.
  assert (He : In (hd (new_leader_event "BTC-USD" (Fin 0) (Fin 0) 0) (leaderEvents (md run_stale_event)))
                  (leaderEvents (md run_stale_event))) by (vm_compute; left; reflexivity).
  split; [exact He|exact (live_events_are_moves run_stale_event Hr _ He)].
Defined.

(** X7: in every relation, each recorded lag is below [LAG_WINDOW], and
    [avgLag] and [avgMagnitude] are the means of the recorded samples (0
    when none). *)
Theorem relation_samples_consistent s l f rel :
  reachable s -> rel_lookup l f (md s) = Some rel ->
  Forall (fun lag => (lag < LAG_WINDOW)%Z) (lagTimes rel) /\
  avgLag rel = match lagTimes rel with
               | [] => Fin 0
               | lt => ndiv (Z_num (sumZ lt)) (nat_num (length lt)) end /\
  avgMagnitude rel = match magnitudeRatios rel with
                     | [] => Fin 0
                     | mr => ndiv (sum_num mr) (nat_num (length mr)) end.
Proof.
  intros Hr Hl. destruct (rel_all_lookup _ _ _ _ _ (reachable_rel_good s Hr) Hl)
    as [H1 [_ [H3 [H4 _]]]].
  exact (conj H1 (conj H3 H4)).
Qed.

Lemma relation_samples_consistent_witness :
  exists rel, rel_lookup "BTC-USD" "ETH-USD" (md run_success_then_miss) = Some rel /\
  Forall (fun lag => (lag < LAG_WINDOW)%Z) (lagTimes rel) /\
  avgLag rel = match lagTimes rel with
               | [] => Fin 0
               | lt => ndiv (Z_num (sumZ lt)) (nat_num (length lt)) end /\
  avgMagnitude rel = match magnitudeRatios rel with
                     | [] => Fin 0
                     | mr => ndiv (sum_num mr) (nat_num (length mr)) end.
Proof.
  assert (Hr : reachable run_success_then_miss) by apply reachable_run, reach_init.
  destruct (rel_lookup "BTC-USD" "ETH-USD" (md run_success_then_miss)) as [rel|] eqn:E.
  - exists rel. split; [reflexivity|].
    exact (relation_samples_consistent run_success_then_miss "BTC-USD" "ETH-USD" rel Hr E).
  - vm_compute in E. discriminate E.
Defined.

(** X8: [followRate] is a finite number in [0, 1]; it is 0 before the first
    success, and after it equals [s / (s + m)] for [s] successes and some
    [m] no larger than the current miss count, so it is positive. *)
Theorem followRate_bounds s l f rel :
  reachable s -> rel_lookup l f (md s) = Some rel ->
  exists r, followRate rel = Fin r /\ (0 <= r <= 1)%Q /\
    (successfulFollows rel = 0 -> r = 0%Q) /\
    (0 < successfulFollows rel ->
       (0 < r)%Q /\ exists m, m <= missedFollows rel /\
         r = (inject_Z (Z.of_nat (successfulFollows rel)) /
              inject_Z (Z.of_nat (successfulFollows rel + m)))%Q).
Proof.
  intros Hr Hl. apply rate_of_good, (rel_all_lookup _ _ _ _ _ (reachable_rel_good s Hr) Hl).
Qed.

Lemma followRate_bounds_witness :
  exists rel, rel_lookup "BTC-USD" "ETH-USD" (md run_success_then_miss) = Some rel /\
  exists r, followRate rel = Fin r /\ (0 <= r <= 1)%Q /\
    (successfulFollows rel = 0 -> r = 0%Q) /\
    (0 < successfulFollows rel ->
       (0 < r)%Q /\ exists m, m <= missedFollows rel /\
         r = (inject_Z (Z.of_nat (successfulFollows rel)) /
              inject_Z (Z.of_nat (successfulFollows rel + m)))%Q).
Proof.
  assert (Hr : reachable run_success_then_miss) by apply reachable_run, reach_init.
  destruct (rel_lookup "BTC-USD" "ETH-USD" (md run_success_then_miss)) as [rel|] eqn:E.
  - exists rel. split; [reflexivity|].
    exact (followRate_bounds run_success_then_miss "BTC-USD" "ETH-USD" rel Hr E).
  - vm_compute in E. discriminate E.
Defined.

(** X9: every pair returned by best-pairs has a finite follow rate in
    (0.6, 1] and at least one success. *)
Theorem best_pairs_rates (s : server) (q : option string) (e : pairEntry) :
  reachable s -> In e (bpr_pairs (best_pairs q (md s))) ->
  exists r, bp_followRate e = Fin r /\ (6 # 10 < r <= 1)%Q /\ 0 < bp_successfulFollows e.
Proof.
  intros Hr Hin. apply In_best_pairs, filter_In in Hin. destruct Hin as [Hin Hq].
  destruct (In_all_pair_entries _ _ Hin) as [l [row [f [rel [H1 [H2 ->]]]]]].
  destruct (rate_of_good rel (reachable_rel_good s Hr l row f rel H1 H2)) as [r [E [[H0 H1'] [Hz _]]]].
  unfold qualifies, pair_entry in Hq; cbn [bp_followRate bp_successfulFollows bp_missedFollows] in Hq.
  apply andb_prop in Hq as [_ Hq]. rewrite E in Hq. unfold ngt, nlt in Hq.
  apply negb_true_iff in Hq.
  assert (Hlt : (6 # 10 < r)%Q).
  { apply Qnot_le_lt. intros F. apply Qle_bool_iff in F. congruence. }
  exists r. unfold pair_entry; cbn [bp_followRate bp_successfulFollows].
  split; [exact E|]. split; [split; [exact Hlt|exact H1']|].
  destruct (successfulFollows rel) eqn:Es; [|lia].
  exfalso. rewrite (Hz eq_refl) in Hlt. discriminate.
Qed.

Lemma best_pairs_rates_witness :
  In (hd (mkPairEntry "" "" (Fin 0) (Fin 0) (Fin 0) 0 0 0)
              (bpr_pairs (best_pairs (Some "1") (md run_success_then_miss)))) (bpr_pairs (best_pairs (Some "1") (md run_success_then_miss))) /\
  exists r, bp_followRate (hd (mkPairEntry "" "" (Fin 0) (Fin 0) (Fin 0) 0 0 0)
              (bpr_pairs (best_pairs (Some "1") (md run_success_then_miss)))) = Fin r /\ (6 # 10 < r <= 1)%Q /\ 0 < bp_successfulFollows (hd (mkPairEntry "" "" (Fin 0) (Fin 0) (Fin 0) 0 0 0)
              (bpr_pairs (best_pairs (Some "1") (md run_success_then_miss)))).
Proof.
  assert (Hr : reachable run_success_then_miss) by apply reachable_run, reach_init.
  assert (He : In (hd (mkPairEntry "" "" (Fin 0) (Fin 0) (Fin 0) 0 0 0)
                      (bpr_pairs (best_pairs (Some "1") (md run_success_then_miss))))
                  (bpr_pairs (best_pairs (Some "1") (md run_success_then_miss))))
    by (vm_compute; left; reflexivity).
  split; [exact He|exact (best_pairs_rates run_success_then_miss (Some "1") _ Hr He)].
Defined.

(** X10: a [minSamples] query holding the decimal form of an integer [z]
    with [|z| <= 2^53] (so that [parseInt] gives it exactly) sets the
    sample threshold to [z], except that [0] gives 10. *)
Theorem minSamples_query z (Hz : (Z.abs z <= 2 ^ 53)%Z) :
  minSampleSize (Some (Z_to_string z)) = if (z =? 0)%Z then 10%Z else z.
Proof. unfold minSampleSize. rewrite parseInt_Z_to_string. reflexivity. Qed.

Lemma minSamples_query_witness :
  (Z.abs (-3) <= 2 ^ 53)%Z /\
  minSampleSize (Some (Z_to_string (-3))) = if (-3 =? 0)%Z then 10%Z else (-3)%Z.
Proof.
  assert (Hz : (Z.abs (-3) <= 2 ^ 53)%Z) by (vm_compute; discriminate).
  split; [exact Hz|exact (minSamples_query (-3) Hz)].
Defined.

(** X11: with a negative [minSamples], best-pairs applies no sample-size
    filter: the pairs it considers, and [totalPairsAnalyzed], are exactly
    the relations with [followRate > 0.6]. *)
Theorem negative_minSamples z d : (z < 0)%Z ->
  collect_pairs (minSampleSize (Some (Z_to_string z))) d =
    filter (fun e => ngt (bp_followRate e) (Fin (6 # 10))) (all_pair_entries d) /\
  totalPairsAnalyzed (best_pairs (Some (Z_to_string z)) d) =
    List.length (filter (fun e => ngt (bp_followRate e) (Fin (6 # 10))) (all_pair_entries d)).
Proof.
  intros Hz. unfold minSampleSize. rewrite parseInt_Z_to_string.
  replace (z =? 0)%Z with false by (symmetry; apply Z.eqb_neq; lia).
  assert (Hc : collect_pairs z d =
    filter (fun e => ngt (bp_followRate e) (Fin (6 # 10))) (all_pair_entries d)).
  { rewrite collect_pairs_filter. apply filter_ext. intros e. unfold qualifies.
    replace (z <=? _)%Z with true by (symmetry; apply Z.leb_le; lia). reflexivity. }
  split; [exact Hc|].
  unfold best_pairs, minSampleSize. rewrite parseInt_Z_to_string.
  replace (z =? 0)%Z with false by (symmetry; apply Z.eqb_neq; lia).
  cbn [totalPairsAnalyzed]. rewrite <- Hc. apply Permutation_length, sort_by_perm.
Qed.

Lemma negative_minSamples_witness :
  (-5 < 0)%Z /\
  collect_pairs (minSampleSize (Some (Z_to_string (-5)))) (md run_success_then_miss) =
    filter (fun e => ngt (bp_followRate e) (Fin (6 # 10))) (all_pair_entries (md run_success_then_miss)) /\
  totalPairsAnalyzed (best_pairs (Some (Z_to_string (-5))) (md run_success_then_miss)) =
    List.length (filter (fun e => ngt (bp_followRate e) (Fin (6 # 10)))
                   (all_pair_entries (md run_success_then_miss))).
Proof.
  assert (Hz : (-5 < 0)%Z) by reflexivity.
  split; [exact Hz|exact (negative_minSamples (-5) (md run_success_then_miss) Hz)].
Defined.

(** X12: the shutdown save ([saveData(true)]) leaves the new snapshot file
    under [cryptosoup_data_<tn>.json], no temporary file, and every other
    file untouched. *)
Theorem saveData_shutdown d ts tn tw tc fs :
  exists fs', saveData true d ts tn tw tc (Some fs) = Some (Some fs') /\
    lookup (save_filename tn) fs' = Some (mkFile tw (Snapshot d ts)) /\
    lookup (tmp_filename tn) fs' = None /\
    forall n, n <> save_filename tn -> n <> tmp_filename tn -> lookup n fs' = lookup n fs.
Proof.
  unfold saveData. cbv zeta. rewrite write_rename.
  eexists. split; [reflexivity|].
  rewrite !lookup_written, String.eqb_refl, tmp_ne_save, String.eqb_refl.
  split; [reflexivity|]. split; [reflexivity|].
  intros n H1 H2. rewrite lookup_written.
  apply String.eqb_neq in H1, H2. rewrite H1, H2. reflexivity.
Qed.

(** X13: a periodic save ([saveData()]) into an existing directory keeps
    the new snapshot file, removes the temporary file, deletes exactly the
    other [.json] files modified more than 24 hours before the cleanup
    clock, and keeps every other file. *)
Theorem saveData_periodic d ts tn tw tc fs :
  NoDup (map fst fs) -> (tc - tw <= DAY_MS)%Z ->
  exists fs', saveData false d ts tn tw tc (Some fs) = Some (Some fs') /\
    lookup (save_filename tn) fs' = Some (mkFile tw (Snapshot d ts)) /\
    lookup (tmp_filename tn) fs' = None /\
    forall n, n <> save_filename tn -> n <> tmp_filename tn ->
      lookup n fs' = match lookup n fs with
                     | Some f => if ends_with ".json" n && (DAY_MS <? tc - mtimeMs f)%Z
                                 then None else Some f
                     | None => None
                     end.
Proof.
  intros Hnd Hage. unfold saveData. cbv zeta. rewrite write_rename.
  set (fs2 := assign (save_filename tn) _ _).
  assert (Hnd2 : NoDup (map fst fs2)) by (apply NoDup_assign, NoDup_remove_key, NoDup_assign, Hnd).
  destruct (cleanup_lookup tc fs2 Hnd2) as [fs' [Hc Hl]].
  exists fs'. rewrite Hc. split; [reflexivity|].
  unfold fs2 in Hl. rewrite !Hl, !lookup_written, String.eqb_refl, tmp_ne_save, String.eqb_refl.
  split; [unfold cleaned; rewrite save_filename_json; cbn [mtimeMs];
          destruct (DAY_MS <? tc - tw)%Z eqn:E; [apply Z.ltb_lt in E; lia|reflexivity]|].
  split; [reflexivity|].
  intros n H1 H2. rewrite Hl, lookup_written.
  apply String.eqb_neq in H1, H2. rewrite H1, H2. reflexivity.
Qed.

Lemma saveData_periodic_witness :
  NoDup (map fst [("cryptosoup_data_1.json", mkFile 1 OtherContent); ("notes.txt", mkFile 1 OtherContent)]) /\
  (200000000 - 200000000 <= DAY_MS)%Z /\
  exists fs', saveData false (md (init_server 0)) 200000000 200000000 200000000 200000000
      (Some [("cryptosoup_data_1.json", mkFile 1 OtherContent); ("notes.txt", mkFile 1 OtherContent)])
      = Some (Some fs') /\
    lookup (save_filename 200000000) fs' = Some (mkFile 200000000 (Snapshot (md (init_server 0)) 200000000)) /\
    lookup (tmp_filename 200000000) fs' = None /\
    forall n, n <> save_filename 200000000 -> n <> tmp_filename 200000000 ->
      lookup n fs' = match lookup n [("cryptosoup_data_1.json", mkFile 1 OtherContent);
                                     ("notes.txt", mkFile 1 OtherContent)] with
                     | Some f => if ends_with ".json" n && (DAY_MS <? 200000000 - mtimeMs f)%Z
                                 then None else Some f
                     | None => None
                     end.
Proof.
  assert (Hn : NoDup (map fst [("cryptosoup_data_1.json", mkFile 1 OtherContent);
                               ("notes.txt", mkFile 1 OtherContent)])).
  { cbn [map fst]. constructor; [intros [H|[]]; discriminate H|constructor; [intros []|constructor]]. }
  assert (Ha : (200000000 - 200000000 <= DAY_MS)%Z) by (unfold DAY_MS; lia).
  split; [exact Hn|split; [exact Ha|]].
  exact (saveData_periodic (md (init_server 0)) 200000000 200000000 200000000 200000000 _ Hn Ha).
Defined.

(** X14: the prices object sent to a new websocket client and returned by
    the prices endpoint always starts with the configured coins as keys,
    in [COINS] order (a ticker for an inherited name adds its own key after
    them), and [coinConfig] is [COINS]. *)
Theorem prices_keys (s : server) (now : Z) (Hr : reachable s) :
  (exists extra, map fst (is_prices (initial_state (md s))) = COINS ++ extra) /\
  is_coinConfig (initial_state (md s)) = COINS /\
  (exists extra, map fst (pr_prices (market_prices now (md s))) = COINS ++ extra).
Proof.
  destruct (reachable_keys s Hr) as [Hp _].
  unfold initial_state, market_prices; cbn [is_prices is_coinConfig pr_prices].
  split; [exact Hp|split; [reflexivity|exact Hp]].
Qed.

Lemma prices_keys_witness :
  reachable run_success_then_miss /\
  (exists extra, map fst (is_prices (initial_state (md run_success_then_miss))) = COINS ++ extra) /\
  is_coinConfig (initial_state (md run_success_then_miss)) = COINS /\
  (exists extra, map fst (pr_prices (market_prices 5000 (md run_success_then_miss))) = COINS ++ extra).
Proof.
  assert (Hr : reachable run_success_then_miss) by apply reachable_run, reach_init.
  split; [exact Hr|exact (prices_keys run_success_then_miss 5000 Hr)].
Defined.

